(** * Register requirements for ARM and ARM64 common code

    A shallow embedding of [src/coreclr/jit/lsraarmarch.cpp]: the builders
    [BuildIndir], [BuildCall], [BuildPutArgStk], [BuildPutArgSplit],
    [BuildBlockStore], [BuildCast] and [BuildSelect] of [LinearScan].

    Register sets are 64-bit masks kept as [Z]; the [RefPosition]s a builder
    creates are the output of a writer, the mutable fields of [LinearScan] are
    threaded as state, and [assert], [unreached()] and a failed [AsXxx()] cast
    abort the build (the checked-build behaviour). *)

From Stdlib Require Import ZArith List Bool Lia.
Import ListNotations.
Local Open Scope Z_scope.

(** ** Register numbers and register sets

    The register sets and their operations come from the target headers and
    [regMaskTP], which this file only uses. *)

Definition regNumber := Z.
Definition SingleTypeRegSet := Z.
Definition regMaskTP := Z.

Definition RBM_NONE : SingleTypeRegSet := 0.

Definition REG_R0 : regNumber := 0.
Definition REG_R1 : regNumber := 1.
Definition REG_R2 : regNumber := 2.

(** Modelled from the spec: [genSingleTypeRegMask] is declared elsewhere; a
    register candidate set is a fixed-width bitset, and this is the set
    holding [reg] alone. *)
Definition genSingleTypeRegMask (reg : regNumber) : SingleTypeRegSet :=
  Z.shiftl 1 reg.

(** Modelled from the spec: [genRegMask] is declared elsewhere; the same
    singleton as a [regMaskTP]. *)
Definition genRegMask (reg : regNumber) : regMaskTP := Z.shiftl 1 reg.

(** Modelled from the spec: [regMaskTP::AddRegNumInMask] is declared
    elsewhere; set algebra: the union with the singleton of [reg]. *)
Definition AddRegNumInMask (mask : regMaskTP) (reg : regNumber) : regMaskTP :=
  Z.lor mask (genRegMask reg).

(** Modelled from the spec: the per-class views of a [regMaskTP]
    ([getLow], [GetIntRegSet], [GetFloatRegSet], [GetRegSetForType]) are
    declared elsewhere.  On the ARM targets every register fits the low
    64-bit word, and the views all read that word. *)
Definition getLow (m : regMaskTP) : SingleTypeRegSet := m.
Definition GetIntRegSet (m : regMaskTP) : SingleTypeRegSet := getLow m.
Definition GetFloatRegSet (m : regMaskTP) : SingleTypeRegSet := getLow m.

Inductive RegisterType := IntRegisterType | FloatRegisterType.

Definition GetRegSetForType (m : regMaskTP) (t : RegisterType) : SingleTypeRegSet :=
  getLow m.

(** Modelled from the spec: [genCountBits] is declared elsewhere; the
    number of registers in a set. *)
Fixpoint genCountBits_pos (p : positive) : Z :=
  match p with
  | xH => 1
  | xO q => genCountBits_pos q
  | xI q => 1 + genCountBits_pos q
  end.

Definition genCountBits (m : Z) : Z :=
  match m with
  | Zpos p => genCountBits_pos p
  | _ => 0
  end.

(** Modelled from the spec: [isPow2] is declared elsewhere; "an exact power
    of two", as the bit test [(i > 0 && ((i - 1) & i) == 0)]. *)
Definition isPow2 (i : Z) : bool :=
  (0 <? i) && (Z.land (i - 1) i =? 0).

(** [(regNumber)((unsigned)argReg + i)]: 32-bit unsigned addition. *)
Definition regAdd (argReg : regNumber) (i : Z) : regNumber :=
  (argReg + i) mod 2 ^ 32.

(** ** IR nodes

    [GenTree] and its classes are declared in gentree.h; the part of them the
    builders read is modelled here from the spec's IR node: a typed operation
    with operands, a contained flag and category-specific fields. *)

Inductive genTreeOps :=
| GT_IND | GT_STOREIND | GT_NULLCHECK | GT_BLK | GT_STORE_BLK
| GT_LEA | GT_LCL_VAR | GT_LCL_FLD | GT_LCL_ADDR | GT_FIELD_LIST
| GT_INIT_VAL | GT_CNS_INT | GT_CALL | GT_PUTARG_STK | GT_PUTARG_SPLIT
| GT_CAST | GT_SELECT | GT_SELECTCC | GT_LONG | GT_MUL_LONG
| GT_ADD | GT_BITCAST.

Inductive var_types :=
| TYP_UNDEF | TYP_VOID | TYP_BOOL | TYP_BYTE | TYP_UBYTE | TYP_SHORT
| TYP_USHORT | TYP_INT | TYP_UINT | TYP_LONG | TYP_ULONG | TYP_FLOAT
| TYP_DOUBLE | TYP_REF | TYP_BYREF | TYP_STRUCT | TYP_SIMD8 | TYP_SIMD12
| TYP_SIMD16.

Inductive BlkOpKind :=
| BlkOpKindCpObjUnroll | BlkOpKindInvalid | BlkOpKindLoop
| BlkOpKindUnroll | BlkOpKindUnrollMemmove.

Inductive gtCallTypes := CT_USER_FUNC | CT_HELPER | CT_INDIRECT.

Definition genTreeOps_eqb (a b : genTreeOps) : bool :=
  match a, b with
  | GT_IND, GT_IND | GT_STOREIND, GT_STOREIND | GT_NULLCHECK, GT_NULLCHECK
  | GT_BLK, GT_BLK | GT_STORE_BLK, GT_STORE_BLK | GT_LEA, GT_LEA
  | GT_LCL_VAR, GT_LCL_VAR | GT_LCL_FLD, GT_LCL_FLD | GT_LCL_ADDR, GT_LCL_ADDR
  | GT_FIELD_LIST, GT_FIELD_LIST | GT_INIT_VAL, GT_INIT_VAL
  | GT_CNS_INT, GT_CNS_INT | GT_CALL, GT_CALL | GT_PUTARG_STK, GT_PUTARG_STK
  | GT_PUTARG_SPLIT, GT_PUTARG_SPLIT | GT_CAST, GT_CAST | GT_SELECT, GT_SELECT
  | GT_SELECTCC, GT_SELECTCC | GT_LONG, GT_LONG | GT_MUL_LONG, GT_MUL_LONG
  | GT_ADD, GT_ADD | GT_BITCAST, GT_BITCAST => true
  | _, _ => false
  end.

Definition var_types_eqb (a b : var_types) : bool :=
  match a, b with
  | TYP_UNDEF, TYP_UNDEF | TYP_VOID, TYP_VOID | TYP_BOOL, TYP_BOOL
  | TYP_BYTE, TYP_BYTE | TYP_UBYTE, TYP_UBYTE | TYP_SHORT, TYP_SHORT
  | TYP_USHORT, TYP_USHORT | TYP_INT, TYP_INT | TYP_UINT, TYP_UINT
  | TYP_LONG, TYP_LONG | TYP_ULONG, TYP_ULONG | TYP_FLOAT, TYP_FLOAT
  | TYP_DOUBLE, TYP_DOUBLE | TYP_REF, TYP_REF | TYP_BYREF, TYP_BYREF
  | TYP_STRUCT, TYP_STRUCT | TYP_SIMD8, TYP_SIMD8 | TYP_SIMD12, TYP_SIMD12
  | TYP_SIMD16, TYP_SIMD16 => true
  | _, _ => false
  end.

Definition gtCallTypes_eqb (a b : gtCallTypes) : bool :=
  match a, b with
  | CT_USER_FUNC, CT_USER_FUNC | CT_HELPER, CT_HELPER
  | CT_INDIRECT, CT_INDIRECT => true
  | _, _ => false
  end.

(** The fields of a [GenTreeCall] the call builder reads.  What the source
    obtains through a method of the call ([IsFastTailCall()],
    [HasMultiRegRetVal()], ...) is a field holding that method's answer. *)
Record CallFields (T : Type) := mkCallFields {
  gtControlExpr : option T;
  gtCallAddr : option T;
  gtCallType : gtCallTypes;
  gtArgs : list T;
  HasMultiRegRetVal : bool;
  GetReturnRegCount : Z;
  GetABIReturnRegs : regMaskTP;
  IsFastTailCall : bool;
  IsR2ROrVirtualStubRelativeIndir : bool;
  NeedsNullCheck : bool;
  IsInitPInvokeFrameHelper : bool;
  IsAsync : bool;
  HasSwiftErrorHandling : bool
}.

Arguments mkCallFields {T}.
Arguments gtControlExpr {T}.
Arguments gtCallAddr {T}.
Arguments gtCallType {T}.
Arguments gtArgs {T}.
Arguments HasMultiRegRetVal {T}.
Arguments GetReturnRegCount {T}.
Arguments GetABIReturnRegs {T}.
Arguments IsFastTailCall {T}.
Arguments IsR2ROrVirtualStubRelativeIndir {T}.
Arguments NeedsNullCheck {T}.
Arguments IsInitPInvokeFrameHelper {T}.
Arguments IsAsync {T}.
Arguments HasSwiftErrorHandling {T}.

(** What a node class adds to the common [GenTree] fields. *)
Inductive GenTreeExt (T : Type) : Type :=
| ExtNone
| ExtAddrMode (gtOffset : Z)
| ExtBlk (blkSize : Z) (gtBlkOpKind : BlkOpKind) (initBlkOp : bool)
| ExtFieldList (fieldUses : list (T * var_types))
| ExtCall (callFields : CallFields T)
| ExtPutArgStk (stackByteSize : Z)
| ExtPutArgSplit (gtNumRegs : Z)
| ExtCast (gtCastType : var_types)
| ExtConditional (gtCond : T)
| ExtMultiRegOp (regCount : Z).

Arguments ExtNone {T}.
Arguments ExtAddrMode {T}.
Arguments ExtBlk {T}.
Arguments ExtFieldList {T}.
Arguments ExtCall {T}.
Arguments ExtPutArgStk {T}.
Arguments ExtPutArgSplit {T}.
Arguments ExtCast {T}.
Arguments ExtConditional {T}.
Arguments ExtMultiRegOp {T}.

(** A node: operator, type, flags, the contained bit, the assigned register,
    the two operands of a [GenTreeOp] (for an indirection [gtOp1] is the
    address and [gtOp2] the stored data; for an address mode they are base and
    index), and the class-specific part. *)
Local Unset Elimination Schemes.
Inductive GenTree : Type :=
| mkGenTree (oper : genTreeOps) (type : var_types) (flags : Z)
    (contained : bool) (regNum : regNumber)
    (op1 op2 : option GenTree) (ext : GenTreeExt GenTree).
Local Set Elimination Schemes.

Definition gtOper (t : GenTree) : genTreeOps :=
  match t with mkGenTree o _ _ _ _ _ _ _ => o end.
Definition TypeGet (t : GenTree) : var_types :=
  match t with mkGenTree _ ty _ _ _ _ _ _ => ty end.
Definition gtFlags (t : GenTree) : Z :=
  match t with mkGenTree _ _ f _ _ _ _ _ => f end.
Definition isContained (t : GenTree) : bool :=
  match t with mkGenTree _ _ _ c _ _ _ _ => c end.
Definition GetRegNum (t : GenTree) : regNumber :=
  match t with mkGenTree _ _ _ _ r _ _ _ => r end.
Definition gtOp1 (t : GenTree) : option GenTree :=
  match t with mkGenTree _ _ _ _ _ a _ _ => a end.
Definition gtOp2 (t : GenTree) : option GenTree :=
  match t with mkGenTree _ _ _ _ _ _ b _ => b end.
Definition gtExt (t : GenTree) : GenTreeExt GenTree :=
  match t with mkGenTree _ _ _ _ _ _ _ e => e end.

(** Modelled from the spec: the node predicates below ([OperIs], [TypeIs],
    the flag tests, [OperIsAddrMode], [OperIsLocalRead], [OperIsMultiRegOp],
    [IsMultiRegNode], [IsTlsIconHandle]) and the type predicates
    ([varTypeIsFloating], [varTypeIsLong], [genActualType]) are declared
    elsewhere; they classify a node by its operator, flags and class, and a
    type by its kind. *)
Definition OperIs (t : GenTree) (o : genTreeOps) : bool :=
  genTreeOps_eqb (gtOper t) o.
Definition TypeIs (t : GenTree) (ty : var_types) : bool :=
  var_types_eqb (TypeGet t) ty.

Definition GTF_IND_UNALIGNED : Z := 0x02000000.
Definition GTF_TLS_GET_ADDR : Z := 0x01000000.

Definition hasFlag (t : GenTree) (f : Z) : bool :=
  negb (Z.land (gtFlags t) f =? 0).

Definition OperIsAddrMode (t : GenTree) : bool := OperIs t GT_LEA.
Definition OperIsLocalRead (t : GenTree) : bool :=
  OperIs t GT_LCL_VAR || OperIs t GT_LCL_FLD.
Definition OperIsMultiRegOp (t : GenTree) : bool :=
  match gtExt t with ExtMultiRegOp _ => true | _ => false end.
Definition IsMultiRegNode (t : GenTree) : bool :=
  OperIsMultiRegOp t
  || match gtExt t with
     | ExtCall c => HasMultiRegRetVal c
     | ExtPutArgSplit _ => true
     | _ => false
     end.
Definition GTF_ICON_HDL_MASK : Z := 0xFF000000.
Definition GTF_ICON_TLS_HDL : Z := 0x0D000000.
Definition IsTlsIconHandle (t : GenTree) : bool :=
  OperIs t GT_CNS_INT && (Z.land (gtFlags t) GTF_ICON_HDL_MASK =? GTF_ICON_TLS_HDL).

Definition varTypeIsFloating (ty : var_types) : bool :=
  match ty with TYP_FLOAT | TYP_DOUBLE => true | _ => false end.
Definition varTypeIsLong (ty : var_types) : bool :=
  match ty with TYP_LONG | TYP_ULONG => true | _ => false end.
Definition genActualType (ty : var_types) : var_types :=
  match ty with
  | TYP_BOOL | TYP_BYTE | TYP_UBYTE | TYP_SHORT | TYP_USHORT | TYP_UINT => TYP_INT
  | TYP_ULONG => TYP_LONG
  | other => other
  end.

(** ** Target and compiler description *)

Inductive TargetArch := TARGET_ARM | TARGET_ARM64.

Definition isArm (a : TargetArch) : bool :=
  match a with TARGET_ARM => true | TARGET_ARM64 => false end.
Definition isArm64 (a : TargetArch) : bool :=
  match a with TARGET_ARM64 => true | TARGET_ARM => false end.

(** Modelled from the spec: [REGSIZE_BYTES] and [FP_REGSIZE_BYTES] are
    defined in the target headers; the machine word and the width of a vector
    register (16 bytes on the 64-bit target). *)
Definition REGSIZE_BYTES (a : TargetArch) : Z :=
  match a with TARGET_ARM => 4 | TARGET_ARM64 => 8 end.
Definition FP_REGSIZE_BYTES (a : TargetArch) : Z :=
  match a with TARGET_ARM => 8 | TARGET_ARM64 => 16 end.

(** The constants of the target headers, the emitter's immediate test and
    the type-size and argument-register-class tables, none of which this file
    defines: they are parameters of the builders. *)
Record TargetDesc := mkTargetDesc {
  TARGET : TargetArch;
  FEATURE_SIMD : bool;
  SWIFT_SUPPORT : bool;
  RBM_INT_CALLEE_TRASH : regMaskTP;
  SRBM_LR : SingleTypeRegSet;
  REG_GSCOOKIE_TMP_0 : regNumber;
  REG_GSCOOKIE_TMP_1 : regNumber;
  RBM_PINVOKE_TCB : regMaskTP;
  RBM_FLOATRET : regMaskTP;
  RBM_LNGRET : regMaskTP;
  RBM_INTRET : regMaskTP;
  RBM_ALLFLOAT : regMaskTP;
  REG_WRITE_BARRIER_DST_BYREF : regNumber;
  REG_WRITE_BARRIER_SRC_BYREF : regNumber;
  emitIns_valid_imm_for_ldst_offset : Z -> Z -> bool;
  emitTypeSize : var_types -> Z;
  varTypeUsesFloatArgReg : var_types -> bool
}.

Definition RBM_WRITE_BARRIER_DST_BYREF (tgt : TargetDesc) : regMaskTP :=
  genRegMask (REG_WRITE_BARRIER_DST_BYREF tgt).
Definition RBM_WRITE_BARRIER_SRC_BYREF (tgt : TargetDesc) : regMaskTP :=
  genRegMask (REG_WRITE_BARRIER_SRC_BYREF tgt).

(** What the builders ask of the [Compiler] instance and of the rest of the
    allocator: the method's flags, the candidates of a scratch vector
    register and the kill-set oracles. *)
Record Compiler := mkCompiler {
  getNeedsGSSecurityCookie : bool;
  compIsAsync : bool;
  IsTargetAbi_NATIVEAOT : bool;
  TargetOS_IsUnix : bool;
  compAppleArm64Abi : bool;
  IsBaselineSimdIsaSupported : bool;
  internalFloatRegCandidates : SingleTypeRegSet;
  getKillSetForCall : GenTree -> regMaskTP;
  getKillSetForBlockStore : GenTree -> regMaskTP
}.

(** ** RefPositions and the allocator state *)

(** One record per call of a requirement primitive, in program order. *)
Inductive RefPosition :=
| RefTypeUse (tree : GenTree) (candidates : SingleTypeRegSet) (multiRegIdx : Z)
| RefTypeDef (tree : GenTree) (candidates : SingleTypeRegSet)
| RefTypeDefs (tree : GenTree) (dstCount : Z) (candidates : SingleTypeRegSet)
| RefTypeInternalDef (regType : RegisterType) (tree : GenTree)
    (candidates : SingleTypeRegSet)
| RefTypeInternalUse (regType : RegisterType) (candidates : SingleTypeRegSet)
    (delayFree : bool)
| RefTypeFixedReg (reg : regNumber) (mask : SingleTypeRegSet)
| RefTypeKill (tree : GenTree) (killMask : regMaskTP)
| RefTypeDefWithKills (tree : GenTree) (candidates : SingleTypeRegSet)
    (killMask : regMaskTP)
| RefTypeCallDefsWithKills (tree : GenTree) (dstCount : Z)
    (candidates : regMaskTP) (killMask : regMaskTP)
| RefAsyncContinuationBusy (call : GenTree)
| RefSwiftErrorBusy (call : GenTree).

(** The mutable fields of [LinearScan] the builders touch.  [regNumByIdx]
    collects what [SetRegNumByIdx] writes on a split argument. *)
Record LinearScan := mkLinearScan {
  availableIntRegs : SingleTypeRegSet;
  availableFloatRegs : SingleTypeRegSet;
  internalDefs : list (RegisterType * SingleTypeRegSet);
  setInternalRegsDelayFree : bool;
  placedArgRegs : regMaskTP;
  numPlacedArgLocals : Z;
  regNumByIdx : list (Z * regNumber)
}.

(** Modelled from the spec: [allRegs] is defined elsewhere; the registers of
    a class available to the allocator. *)
Definition allRegs (s : LinearScan) (t : RegisterType) : SingleTypeRegSet :=
  match t with
  | IntRegisterType => availableIntRegs s
  | FloatRegisterType => availableFloatRegs s
  end.

(** ** The build monad: state, writer of RefPositions, abort *)

Definition M (A : Type) : Type :=
  LinearScan -> option (A * LinearScan * list RefPosition).

Definition ret {A} (a : A) : M A := fun s => Some (a, s, []).

Definition bind {A B} (m : M A) (f : A -> M B) : M B :=
  fun s =>
    match m s with
    | Some (a, s1, l1) =>
        match f a s1 with
        | Some (b, s2, l2) => Some (b, s2, l1 ++ l2)
        | None => None
        end
    | None => None
    end.

Definition abort {A} : M A := fun _ => None.

Declare Scope lsra_scope.
Delimit Scope lsra_scope with lsra.
Notation "x <- m ;; k" := (bind m (fun x => k))
  (at level 61, m at next level, right associativity) : lsra_scope.
Notation "m ;; k" := (bind m (fun _ => k))
  (at level 61, right associativity) : lsra_scope.
Local Open Scope lsra_scope.

Definition assert (b : bool) : M unit := if b then ret tt else abort.
Definition unreached {A} : M A := abort.
Definition when (b : bool) (m : M unit) : M unit := if b then m else ret tt.
Definition getState : M LinearScan := fun s => Some (s, s, []).
Definition emit (r : RefPosition) : M unit := fun s => Some (tt, s, [r]).

(** An [AsXxx()] cast or a dereference: aborts on a node of another class
    or on a null operand. *)
Definition deref {A} (o : option A) : M A :=
  match o with Some a => ret a | None => abort end.

Fixpoint forEach {A} (l : list A) (body : A -> M unit) : M unit :=
  match l with
  | [] => ret tt
  | x :: r => body x ;; forEach r body
  end.

(** [for (unsigned i = 0; i < n; i++) body(i)]. *)
Definition forUpTo (n : Z) (body : Z -> M unit) : M unit :=
  forEach (map Z.of_nat (seq 0 (Z.to_nat n))) body.

(** [foldM]: a loop over [l] that carries the loop's local variables. *)
Fixpoint foldM {A S} (body : S -> A -> M S) (l : list A) (acc : S) : M S :=
  match l with
  | [] => ret acc
  | x :: r => acc' <- body acc x ;; foldM body r acc'
  end.

Definition indices (n : Z) : list Z := map Z.of_nat (seq 0 (Z.to_nat n)).

(** [(int)x] of a wider signed value. *)
Definition toInt32 (x : Z) : Z := (x + 2 ^ 31) mod 2 ^ 32 - 2 ^ 31.

Definition isSome {A} (o : option A) : bool :=
  match o with Some _ => true | None => false end.
Definition isNone {A} (o : option A) : bool := negb (isSome o).

(** *** The requirement primitives

    [BuildUse], [BuildDef], [BuildDefs], [BuildKills], [BuildDefWithKills],
    [BuildCallDefsWithKills], [newRefPosition], the internal-register
    primitives and the two busy marks belong to the shared builder of the
    allocator; each one is the record of its call. *)

(** Modelled from the spec: [BuildUse] is defined elsewhere; it records a
    use demand for an operand, optionally restricted to a candidate set. *)
Definition BuildUse (tree : GenTree) (candidates : SingleTypeRegSet)
  (multiRegIdx : Z) : M unit :=
  emit (RefTypeUse tree candidates multiRegIdx).

(** Modelled from the spec: [BuildDef] is defined elsewhere; it records a
    definition demand for the node's result. *)
Definition BuildDef (tree : GenTree) : M unit := emit (RefTypeDef tree RBM_NONE).

(** Modelled from the spec: [BuildDefs] is defined elsewhere; it records
    the definitions of a node with [dstCount] destination registers. *)
Definition BuildDefs (tree : GenTree) (dstCount : Z)
  (dstCandidates : SingleTypeRegSet) : M unit :=
  emit (RefTypeDefs tree dstCount dstCandidates).

(** Modelled from the spec: [BuildKills] is defined elsewhere; it records a
    kill set. *)
Definition BuildKills (tree : GenTree) (killMask : regMaskTP) : M unit :=
  emit (RefTypeKill tree killMask).

(** Modelled from the spec: [BuildDefWithKills] is defined elsewhere; it
    records the kill set combined with the one definition of the node. *)
Definition BuildDefWithKills (tree : GenTree) (dstCandidates : SingleTypeRegSet)
  (killMask : regMaskTP) : M unit :=
  emit (RefTypeDefWithKills tree dstCandidates killMask).

(** Modelled from the spec: [BuildCallDefsWithKills] is defined elsewhere;
    it records the kill set combined with the definitions of a
    multi-register call. *)
Definition BuildCallDefsWithKills (tree : GenTree) (dstCount : Z)
  (dstCandidates killMask : regMaskTP) : M unit :=
  emit (RefTypeCallDefsWithKills tree dstCount dstCandidates killMask).

(** Modelled from the spec: [newRefPosition] is defined elsewhere; with
    [RefTypeFixedReg] it records a fixed-register requirement. *)
Definition newFixedRegRefPosition (reg : regNumber) (mask : SingleTypeRegSet)
  : M unit :=
  emit (RefTypeFixedReg reg mask).

(** Modelled from the spec: [MarkAsyncContinuationBusyForCall] is defined
    elsewhere; it marks the continuation registers busy across the call. *)
Definition MarkAsyncContinuationBusyForCall (call : GenTree) : M unit :=
  emit (RefAsyncContinuationBusy call).

(** Modelled from the spec: [MarkSwiftErrorBusyForCall] is defined
    elsewhere; it marks the error register busy across the call. *)
Definition MarkSwiftErrorBusyForCall (call : GenTree) : M unit :=
  emit (RefSwiftErrorBusy call).

Definition addInternalDef (t : RegisterType) (c : SingleTypeRegSet)
  (s : LinearScan) : LinearScan :=
  mkLinearScan (availableIntRegs s) (availableFloatRegs s)
    (internalDefs s ++ [(t, c)]) (setInternalRegsDelayFree s)
    (placedArgRegs s) (numPlacedArgLocals s) (regNumByIdx s).

Definition withDelayFree (b : bool) (s : LinearScan) : LinearScan :=
  mkLinearScan (availableIntRegs s) (availableFloatRegs s)
    (internalDefs s) b
    (placedArgRegs s) (numPlacedArgLocals s) (regNumByIdx s).

Definition withPlacedArgRegs (m : regMaskTP) (s : LinearScan) : LinearScan :=
  mkLinearScan (availableIntRegs s) (availableFloatRegs s)
    (internalDefs s) (setInternalRegsDelayFree s)
    m (numPlacedArgLocals s) (regNumByIdx s).

Definition withNumPlacedArgLocals (n : Z) (s : LinearScan) : LinearScan :=
  mkLinearScan (availableIntRegs s) (availableFloatRegs s)
    (internalDefs s) (setInternalRegsDelayFree s)
    (placedArgRegs s) n (regNumByIdx s).

Definition addRegNumByIdx (reg : regNumber) (i : Z) (s : LinearScan)
  : LinearScan :=
  mkLinearScan (availableIntRegs s) (availableFloatRegs s)
    (internalDefs s) (setInternalRegsDelayFree s)
    (placedArgRegs s) (numPlacedArgLocals s) (regNumByIdx s ++ [(i, reg)]).

Definition modify (f : LinearScan -> LinearScan) : M unit :=
  fun s => Some (tt, f s, []).

(** Modelled from the spec: [buildInternalIntRegisterDefForNode] is defined
    elsewhere; it reserves one scratch integer register for the node. *)
Definition buildInternalIntRegisterDefForNode (tree : GenTree)
  (internalCands : SingleTypeRegSet) : M unit :=
  modify (addInternalDef IntRegisterType internalCands) ;;
  emit (RefTypeInternalDef IntRegisterType tree internalCands).

(** Modelled from the spec: [buildInternalFloatRegisterDefForNode] is
    defined elsewhere; it reserves one scratch vector register for the
    node. *)
Definition buildInternalFloatRegisterDefForNode (tree : GenTree)
  (internalCands : SingleTypeRegSet) : M unit :=
  modify (addInternalDef FloatRegisterType internalCands) ;;
  emit (RefTypeInternalDef FloatRegisterType tree internalCands).

(** Modelled from the spec: [buildInternalRegisterUses] is defined
    elsewhere; it records one use per scratch register reserved for the
    node, delay-free when [setInternalRegsDelayFree] is set. *)
Definition buildInternalRegisterUses : M unit :=
  fun s =>
    Some (tt, s,
          map (fun d => RefTypeInternalUse (fst d) (snd d)
                          (setInternalRegsDelayFree s))
              (internalDefs s)).

(** *** The operand-use helpers

    [BuildIndirUses], [BuildOperandUses], [BuildAddrUses], [BuildCallArgUses]
    and [BuildCastUses] are defined with the shared builder, not in this
    file.  A helper reads the node and the allocator state, creates use
    RefPositions only, and returns a count. *)

Record UseRecord := mkUse {
  useTree : GenTree;
  useCandidates : SingleTypeRegSet;
  useMultiRegIdx : Z
}.

Definition useRef (u : UseRecord) : RefPosition :=
  RefTypeUse (useTree u) (useCandidates u) (useMultiRegIdx u).

Definition UsesHelper : Type :=
  GenTree -> SingleTypeRegSet -> LinearScan -> option (Z * list UseRecord).

Record SharedBuilders := mkSharedBuilders {
  BuildIndirUses : UsesHelper;
  BuildOperandUses : UsesHelper;
  BuildAddrUses : UsesHelper;
  BuildCastUses : UsesHelper;
  BuildCallArgUses : GenTree -> LinearScan -> option (Z * list UseRecord)
}.

Definition runUses (h : LinearScan -> option (Z * list UseRecord)) : M Z :=
  fun s =>
    match h s with
    | Some (n, us) => Some (n, s, map useRef us)
    | None => None
    end.

(** The class casts. *)
Definition AsAddrMode (t : GenTree) : option Z :=
  match gtExt t with ExtAddrMode o => Some o | _ => None end.
Definition AsCall (t : GenTree) : option (CallFields GenTree) :=
  match gtExt t with ExtCall c => Some c | _ => None end.
Definition AsFieldList (t : GenTree) : option (list (GenTree * var_types)) :=
  match gtExt t with ExtFieldList l => Some l | _ => None end.
Definition AsBlk (t : GenTree) : option (Z * BlkOpKind * bool) :=
  match gtExt t with ExtBlk sz k i => Some (sz, k, i) | _ => None end.
Definition AsPutArgStk (t : GenTree) : option Z :=
  match gtExt t with ExtPutArgStk n => Some n | _ => None end.
Definition AsPutArgSplit (t : GenTree) : option Z :=
  match gtExt t with ExtPutArgSplit n => Some n | _ => None end.
Definition AsCast (t : GenTree) : option var_types :=
  match gtExt t with ExtCast ty => Some ty | _ => None end.
Definition AsConditional (t : GenTree) : option GenTree :=
  match gtExt t with ExtConditional c => Some c | _ => None end.
Definition AsMultiRegOp (t : GenTree) : option Z :=
  match gtExt t with ExtMultiRegOp n => Some n | _ => None end.

(** ** The builders of lsraarmarch.cpp *)

Section Builders.

Variable tgt : TargetDesc.
Variable compiler : Compiler.
Variable shared : SharedBuilders.

(** [#ifdef TARGET_ARM] and [#ifdef TARGET_ARM64]. *)
Abbreviation arm := (isArm (TARGET tgt)).
Abbreviation arm64 := (isArm64 (TARGET tgt)).

(** *** BuildIndir *)

(** The [TARGET_ARM] block: unaligned floating-point accesses go through
    integer registers. *)
Definition BuildIndir_unaligned (indirTree : GenTree) : M unit :=
  when (hasFlag indirTree GTF_IND_UNALIGNED)
    (type <- (if OperIs indirTree GT_STOREIND then
                data <- deref (gtOp2 indirTree) ;; ret (TypeGet data)
              else if OperIs indirTree GT_IND then ret (TypeGet indirTree)
              else ret TYP_UNDEF) ;;
     if var_types_eqb type TYP_FLOAT then
       buildInternalIntRegisterDefForNode indirTree RBM_NONE
     else if var_types_eqb type TYP_DOUBLE then
       buildInternalIntRegisterDefForNode indirTree RBM_NONE ;;
       buildInternalIntRegisterDefForNode indirTree RBM_NONE
     else ret tt).

(** [if (addr->isContained()) { if (addr->OperIs(GT_LEA)) { ... } }]. *)
Definition BuildIndir_addrMode (indirTree addr : GenTree) : M unit :=
  when (isContained addr)
    (when (OperIs addr GT_LEA)
       (offset <- deref (AsAddrMode addr) ;;
        let index := gtOp2 addr in
        let cns := toInt32 offset in
        if isSome index && negb (cns =? 0) then
          buildInternalIntRegisterDefForNode indirTree RBM_NONE
        else if negb (emitIns_valid_imm_for_ldst_offset tgt cns
                        (emitTypeSize tgt (TypeGet indirTree))) then
          buildInternalIntRegisterDefForNode indirTree RBM_NONE
        else ret tt)).

(** The [FEATURE_SIMD] block for [TYP_SIMD12]. *)
Definition BuildIndir_simd12 (indirTree addr : GenTree) : M unit :=
  when (TypeIs indirTree TYP_SIMD12)
    (assert (negb (isContained addr)) ;;
     buildInternalIntRegisterDefForNode indirTree RBM_NONE).

Definition BuildIndir (indirTree : GenTree) : M Z :=
  assert (negb (TypeIs indirTree TYP_STRUCT)) ;;
  addr <- deref (gtOp1 indirTree) ;;
  when arm (BuildIndir_unaligned indirTree) ;;
  BuildIndir_addrMode indirTree addr ;;
  when (FEATURE_SIMD tgt) (BuildIndir_simd12 indirTree addr) ;;
  srcCount <- runUses (BuildIndirUses shared indirTree RBM_NONE) ;;
  buildInternalRegisterUses ;;
  when (negb (OperIs indirTree GT_STOREIND || OperIs indirTree GT_NULLCHECK))
    (BuildDef indirTree) ;;
  ret srcCount.

(** *** BuildCall *)

(** [hasMultiRegRetVal] and [dstCount] as the first lines compute them. *)
Definition BuildCall_hasMultiRegRetVal (call : GenTree)
  (c : CallFields GenTree) : bool :=
  if negb (TypeIs call TYP_VOID) then HasMultiRegRetVal c else false.

Definition BuildCall_dstCount (call : GenTree) (c : CallFields GenTree) : Z :=
  if negb (TypeIs call TYP_VOID) then
    if HasMultiRegRetVal c then GetReturnRegCount c else 1
  else 0.

(** [ctrlExpr]: the control expression, or the call address of an indirect
    call. *)
Definition BuildCall_ctrlExpr (c : CallFields GenTree) : M (option GenTree) :=
  if gtCallTypes_eqb (gtCallType c) CT_INDIRECT then
    assert (isNone (gtControlExpr c)) ;;
    assert (isSome (gtCallAddr c)) ;;
    ret (gtCallAddr c)
  else ret (gtControlExpr c).

(** The candidates of a fast tail call's target. *)
Definition fastTailCallCandidates (s : LinearScan) : SingleTypeRegSet :=
  let ctrlExprCandidates :=
    Z.land (Z.land (allRegs s IntRegisterType)
                   (GetIntRegSet (RBM_INT_CALLEE_TRASH tgt)))
           (Z.lnot (SRBM_LR tgt)) in
  if getNeedsGSSecurityCookie compiler then
    Z.land ctrlExprCandidates
      (Z.lnot (Z.lor (genSingleTypeRegMask (REG_GSCOOKIE_TMP_0 tgt))
                     (genSingleTypeRegMask (REG_GSCOOKIE_TMP_1 tgt))))
  else ctrlExprCandidates.

(** "set reg requirements on call target represented as control sequence":
    the chain of [if (ctrlExpr != nullptr) ... else if ... else ...] and the
    ARM null check; yields [ctrlExprCandidates]. *)
Definition BuildCall_target (call : GenTree) (c : CallFields GenTree)
  (ctrlExpr : option GenTree) : M SingleTypeRegSet :=
  ctrlExprCandidates <-
    (match ctrlExpr with
     | Some e =>
         assert (negb (TypeIs e TYP_VOID)) ;;
         if IsFastTailCall c then
           s <- getState ;;
           assert (negb (fastTailCallCandidates s =? RBM_NONE)) ;;
           ret (fastTailCallCandidates s)
         else ret RBM_NONE
     | None =>
         (if IsR2ROrVirtualStubRelativeIndir c then
            if IsFastTailCall c then
              s <- getState ;;
              let candidates :=
                Z.land (allRegs s IntRegisterType)
                       (getLow (RBM_INT_CALLEE_TRASH tgt)) in
              assert (negb (candidates =? RBM_NONE)) ;;
              buildInternalIntRegisterDefForNode call candidates
            else
              when arm (buildInternalIntRegisterDefForNode call RBM_NONE)
          else
            when arm (buildInternalIntRegisterDefForNode call RBM_NONE)) ;;
         ret RBM_NONE
     end) ;;
  when arm
    (when (NeedsNullCheck c)
       (let candidates := if IsFastTailCall c then SRBM_LR tgt else RBM_NONE in
        buildInternalIntRegisterDefForNode call candidates)) ;;
  ret ctrlExprCandidates.

(** "Set destination candidates for return value of the call." *)
Definition BuildCall_singleDstCandidates (call : GenTree)
  (c : CallFields GenTree) : SingleTypeRegSet :=
  let registerType := TypeGet call in
  if arm && IsInitPInvokeFrameHelper c then GetIntRegSet (RBM_PINVOKE_TCB tgt)
  else if negb (BuildCall_hasMultiRegRetVal call c) then
    if varTypeUsesFloatArgReg tgt registerType then
      GetFloatRegSet (RBM_FLOATRET tgt)
    else if var_types_eqb registerType TYP_LONG then
      GetIntRegSet (RBM_LNGRET tgt)
    else GetIntRegSet (RBM_INTRET tgt)
  else RBM_NONE.

(** The condition of the NativeAOT linux/arm64 TLS sequence. *)
Definition isTlsGetAddrSequence (c : CallFields GenTree) (ctrlExpr : GenTree)
  : bool :=
  arm64 && (IsTargetAbi_NATIVEAOT compiler && TargetOS_IsUnix compiler
            && (Z.of_nat (length (gtArgs c)) =? 0)
            && IsTlsIconHandle ctrlExpr).

(** [if (ctrlExpr != nullptr) { ...; BuildUse(ctrlExpr, ctrlExprCandidates);
    srcCount++; }]; yields the new [srcCount]. *)
Definition BuildCall_ctrlExprUse (call : GenTree) (c : CallFields GenTree)
  (ctrlExpr : option GenTree) (ctrlExprCandidates : SingleTypeRegSet)
  (srcCount : Z) : M Z :=
  match ctrlExpr with
  | Some e =>
      ctrlExprCandidates' <-
        (if isTlsGetAddrSequence c e then
           assert (hasFlag call GTF_TLS_GET_ADDR) ;;
           newFixedRegRefPosition REG_R0 (genSingleTypeRegMask REG_R0) ;;
           newFixedRegRefPosition REG_R1 (genSingleTypeRegMask REG_R1) ;;
           ret (genSingleTypeRegMask REG_R2)
         else ret ctrlExprCandidates) ;;
      BuildUse e ctrlExprCandidates' 0 ;;
      ret (srcCount + 1)
  | None => ret srcCount
  end.

(** "Now generate defs and kills." *)
Definition BuildCall_defsAndKills (call : GenTree) (c : CallFields GenTree)
  : M unit :=
  let dstCount := BuildCall_dstCount call c in
  let killMask := getKillSetForCall compiler call in
  if 0 <? dstCount then
    if BuildCall_hasMultiRegRetVal call c then
      let multiDstCandidates := GetABIReturnRegs c in
      assert (0 <? genCountBits multiDstCandidates) ;;
      BuildCallDefsWithKills call dstCount multiDstCandidates killMask
    else
      assert (dstCount =? 1) ;;
      BuildDefWithKills call (BuildCall_singleDstCandidates call c) killMask
  else BuildKills call killMask.

Definition BuildCall (call : GenTree) : M Z :=
  c <- deref (AsCall call) ;;
  ctrlExpr <- BuildCall_ctrlExpr c ;;
  ctrlExprCandidates <- BuildCall_target call c ctrlExpr ;;
  srcCount <- runUses (BuildCallArgUses shared call) ;;
  srcCount <- BuildCall_ctrlExprUse call c ctrlExpr ctrlExprCandidates srcCount ;;
  buildInternalRegisterUses ;;
  when (IsAsync c && compIsAsync compiler && negb (IsFastTailCall c))
    (MarkAsyncContinuationBusyForCall call) ;;
  BuildCall_defsAndKills call c ;;
  when (SWIFT_SUPPORT tgt)
    (when (HasSwiftErrorHandling c) (MarkSwiftErrorBusyForCall call)) ;;
  modify (withPlacedArgRegs RBM_NONE) ;;
  modify (withNumPlacedArgLocals 0) ;;
  ret srcCount.

(** *** BuildPutArgStk *)

(** The body of the loop over the uses of a [GT_FIELD_LIST]. *)
Definition BuildPutArgStk_field (srcCount : Z) (use : GenTree * var_types)
  : M Z :=
  BuildUse (fst use) RBM_NONE 0 ;;
  when (FEATURE_SIMD tgt)
    (when (var_types_eqb (snd use) TYP_SIMD12)
       (buildInternalIntRegisterDefForNode (fst use) RBM_NONE)) ;;
  ret (srcCount + 1).

Definition BuildPutArgStk (argNode : GenTree) : M Z :=
  stackByteSize <- deref (AsPutArgStk argNode) ;;
  assert (OperIs argNode GT_PUTARG_STK) ;;
  src <- deref (gtOp1 argNode) ;;
  srcCount <-
    (if TypeIs src TYP_STRUCT then
       if OperIs src GT_FIELD_LIST then
         assert (isContained src) ;;
         uses <- deref (AsFieldList src) ;;
         foldM BuildPutArgStk_field uses 0
       else
         buildInternalIntRegisterDefForNode argNode RBM_NONE ;;
         when arm64 (buildInternalIntRegisterDefForNode argNode RBM_NONE) ;;
         assert (isContained src) ;;
         if OperIs src GT_BLK then
           deref (AsBlk src) ;;
           addr <- deref (gtOp1 src) ;;
           runUses (BuildOperandUses shared addr RBM_NONE)
         else
           assert (OperIs src GT_LCL_VAR || OperIs src GT_LCL_FLD) ;;
           ret 0
     else
       assert (negb (isContained src)) ;;
       srcCount <- runUses (BuildOperandUses shared src RBM_NONE) ;;
       when (FEATURE_SIMD tgt)
         (when (compAppleArm64Abi compiler && (stackByteSize =? 12))
            (buildInternalIntRegisterDefForNode argNode RBM_NONE)) ;;
       ret srcCount) ;;
  buildInternalRegisterUses ;;
  ret srcCount.

(** *** BuildPutArgSplit *)

(** The first loop: the destination registers and their mask. *)
Definition BuildPutArgSplit_argMask (argReg : regNumber) (gtNumRegs : Z)
  : M SingleTypeRegSet :=
  foldM (fun argMask i =>
           let thisArgReg := regAdd argReg i in
           modify (addRegNumByIdx thisArgReg i) ;;
           ret (Z.lor argMask (genSingleTypeRegMask thisArgReg)))
        (indices gtNumRegs) RBM_NONE.

(** The body of the inner loop over [regIndex]; carries [sourceRegCount]. *)
Definition BuildPutArgSplit_reg (argReg : regNumber) (gtNumRegs : Z)
  (node : GenTree) (sourceRegCount regIndex : Z) : M Z :=
  (if sourceRegCount <? gtNumRegs then
     let nextArgReg := regAdd argReg sourceRegCount in
     let sourceMask := genSingleTypeRegMask nextArgReg in
     BuildUse node sourceMask regIndex ;;
     modify (fun s =>
               withPlacedArgRegs (AddRegNumInMask (placedArgRegs s) nextArgReg) s)
   else BuildUse node RBM_NONE regIndex) ;;
  ret (sourceRegCount + 1).

(** [currentRegCount] of one field. *)
Definition BuildPutArgSplit_regCount (node : GenTree) : M Z :=
  if arm && OperIsMultiRegOp node then deref (AsMultiRegOp node)
  else assert (negb (IsMultiRegNode node)) ;; ret 1.

(** The body of the outer loop over the uses of the field list. *)
Definition BuildPutArgSplit_field (argReg : regNumber) (gtNumRegs : Z)
  (sourceRegCount : Z) (use : GenTree * var_types) : M Z :=
  let node := fst use in
  assert (negb (isContained node)) ;;
  currentRegCount <- BuildPutArgSplit_regCount node ;;
  foldM (BuildPutArgSplit_reg argReg gtNumRegs node)
        (indices currentRegCount) sourceRegCount.

Definition BuildPutArgSplit (argNode : GenTree) : M Z :=
  gtNumRegs <- deref (AsPutArgSplit argNode) ;;
  assert (OperIs argNode GT_PUTARG_SPLIT) ;;
  src <- deref (gtOp1 argNode) ;;
  let dstCount := gtNumRegs in
  let argReg := GetRegNum argNode in
  argMask <- BuildPutArgSplit_argMask argReg gtNumRegs ;;
  s <- getState ;;
  assert ((argMask =? RBM_NONE)
          || negb (Z.land argMask (availableIntRegs s) =? RBM_NONE)
          || negb (Z.land argMask (availableFloatRegs s) =? RBM_NONE)) ;;
  srcCount <-
    (if OperIs src GT_FIELD_LIST then
       uses <- deref (AsFieldList src) ;;
       sourceRegCount <-
         foldM (BuildPutArgSplit_field argReg gtNumRegs) uses 0 ;;
       assert (isContained src) ;;
       ret (0 + sourceRegCount)
     else
       assert (TypeIs src TYP_STRUCT && isContained src) ;;
       if OperIs src GT_BLK then
         s <- getState ;;
         when (gtNumRegs =? 1)
           (buildInternalIntRegisterDefForNode argNode
              (Z.land (allRegs s IntRegisterType) (Z.lnot argMask))) ;;
         deref (AsBlk src) ;;
         addr <- deref (gtOp1 src) ;;
         runUses (BuildOperandUses shared addr RBM_NONE)
       else
         assert (OperIsLocalRead src) ;;
         ret 0) ;;
  buildInternalRegisterUses ;;
  BuildDefs argNode dstCount argMask ;;
  ret srcCount.

(** *** BuildBlockStore *)

(** The locals the strategy switch leaves for the common tail. *)
Record BlockStoreLocals := mkBlockStoreLocals {
  srcAddrOrFill : option GenTree;
  dstAddrRegMask : SingleTypeRegSet;
  srcRegMask : SingleTypeRegSet;
  sizeRegMask : SingleTypeRegSet
}.

(** [if (blkNode->OperIsInitBlkOp()) { ... }]. *)
Definition BuildBlockStore_init (blkNode dstAddr src : GenTree) (size : Z)
  (kind : BlkOpKind) : M BlockStoreLocals :=
  src <- (if OperIs src GT_INIT_VAL then
            assert (isContained src) ;; deref (gtOp1 src)
          else ret src) ;;
  match kind with
  | BlkOpKindUnroll =>
      when arm64
        (when (isContained dstAddr)
           (buildInternalIntRegisterDefForNode blkNode RBM_NONE) ;;
         when (FP_REGSIZE_BYTES (TARGET tgt) <? size)
           (buildInternalFloatRegisterDefForNode blkNode
              (internalFloatRegCandidates compiler)))
  | BlkOpKindLoop =>
      s <- getState ;;
      buildInternalIntRegisterDefForNode blkNode (availableIntRegs s)
  | _ => unreached
  end ;;
  ret (mkBlockStoreLocals (Some src) RBM_NONE RBM_NONE RBM_NONE).

(** [case GenTreeBlk::BlkOpKindCpObjUnroll]. *)
Definition BuildBlockStore_CpObjUnroll (blkNode : GenTree) (size : Z)
  (srcAddrOrFill : option GenTree) : M BlockStoreLocals :=
  s <- getState ;;
  let internalIntCandidates :=
    Z.land (allRegs s IntRegisterType)
      (Z.lnot (GetRegSetForType
                 (Z.lor (RBM_WRITE_BARRIER_DST_BYREF tgt)
                        (RBM_WRITE_BARRIER_SRC_BYREF tgt))
                 IntRegisterType)) in
  buildInternalIntRegisterDefForNode blkNode internalIntCandidates ;;
  when (2 * REGSIZE_BYTES (TARGET tgt) <=? size)
    (buildInternalIntRegisterDefForNode blkNode internalIntCandidates) ;;
  when ((4 * REGSIZE_BYTES (TARGET tgt) <=? size)
        && IsBaselineSimdIsaSupported compiler)
    (buildInternalFloatRegisterDefForNode blkNode
       (internalFloatRegCandidates compiler) ;;
     buildInternalFloatRegisterDefForNode blkNode
       (internalFloatRegCandidates compiler)) ;;
  let dstAddrRegMask := GetIntRegSet (RBM_WRITE_BARRIER_DST_BYREF tgt) in
  match srcAddrOrFill with
  | Some sa =>
      assert (negb (isContained sa)) ;;
      ret (mkBlockStoreLocals srcAddrOrFill dstAddrRegMask
             (GetIntRegSet (RBM_WRITE_BARRIER_SRC_BYREF tgt)) RBM_NONE)
  | None =>
      ret (mkBlockStoreLocals srcAddrOrFill dstAddrRegMask RBM_NONE RBM_NONE)
  end.

(** The locals of [case GenTreeBlk::BlkOpKindUnroll] of a copy. *)
Definition isSrcAddrLocal (src : GenTree) (srcAddrOrFill : option GenTree)
  : bool :=
  (OperIs src GT_LCL_VAR || OperIs src GT_LCL_FLD)
  || match srcAddrOrFill with
     | Some sa => OperIs sa GT_LCL_ADDR
     | None => false
     end.

Definition isDstAddrLocal (dstAddr : GenTree) : bool :=
  OperIs dstAddr GT_LCL_ADDR.

Definition srcAddrMayNeedReg (src : GenTree) (srcAddrOrFill : option GenTree)
  : bool :=
  isSrcAddrLocal src srcAddrOrFill
  || match srcAddrOrFill with
     | Some sa => isContained sa
     | None => false
     end.

Definition dstAddrMayNeedReg (dstAddr : GenTree) : bool :=
  isDstAddrLocal dstAddr || isContained dstAddr.

(** [case GenTreeBlk::BlkOpKindUnroll] of a copy. *)
Definition BuildBlockStore_Unroll (blkNode dstAddr src : GenTree) (size : Z)
  (srcAddrOrFill : option GenTree) : M BlockStoreLocals :=
  buildInternalIntRegisterDefForNode blkNode RBM_NONE ;;
  when arm64
    (let canUseLoadStorePairIntRegsInstrs :=
       2 * REGSIZE_BYTES (TARGET tgt) <=? size in
     when canUseLoadStorePairIntRegsInstrs
       (buildInternalIntRegisterDefForNode blkNode RBM_NONE) ;;
     let canUse16ByteWideInstrs := 2 * FP_REGSIZE_BYTES (TARGET tgt) <=? size in
     when canUse16ByteWideInstrs
       (buildInternalFloatRegisterDefForNode blkNode
          (internalFloatRegCandidates compiler) ;;
        buildInternalFloatRegisterDefForNode blkNode
          (internalFloatRegCandidates compiler)) ;;
     when (srcAddrMayNeedReg src srcAddrOrFill && dstAddrMayNeedReg dstAddr)
       (buildInternalIntRegisterDefForNode blkNode RBM_NONE)) ;;
  ret (mkBlockStoreLocals srcAddrOrFill RBM_NONE RBM_NONE RBM_NONE).

(** [case GenTreeBlk::BlkOpKindUnrollMemmove]. *)
Definition BuildBlockStore_UnrollMemmove (blkNode : GenTree) (size : Z)
  (srcAddrOrFill : option GenTree) : M BlockStoreLocals :=
  (if arm64 then
     assert (0 <? size) ;;
     let simdSize := FP_REGSIZE_BYTES (TARGET tgt) in
     if simdSize <=? size then
       let simdRegs := size / simdSize in
       let simdRegs :=
         if negb (size mod simdSize =? 0) then simdRegs + 1 else simdRegs in
       forUpTo simdRegs
         (fun _ =>
            buildInternalFloatRegisterDefForNode blkNode
              (internalFloatRegCandidates compiler))
     else if isPow2 size then
       s <- getState ;;
       buildInternalIntRegisterDefForNode blkNode (availableIntRegs s)
     else
       s <- getState ;;
       buildInternalIntRegisterDefForNode blkNode (availableIntRegs s) ;;
       buildInternalIntRegisterDefForNode blkNode (availableIntRegs s)
   else unreached) ;;
  ret (mkBlockStoreLocals srcAddrOrFill RBM_NONE RBM_NONE RBM_NONE).

(** The [else] branch of [if (blkNode->OperIsInitBlkOp())]. *)
Definition BuildBlockStore_copy (blkNode dstAddr src : GenTree) (size : Z)
  (kind : BlkOpKind) : M BlockStoreLocals :=
  srcAddrOrFill <-
    (if OperIs src GT_IND then
       assert (isContained src) ;;
       addr <- deref (gtOp1 src) ;;
       ret (Some addr)
     else ret None) ;;
  match kind with
  | BlkOpKindCpObjUnroll => BuildBlockStore_CpObjUnroll blkNode size srcAddrOrFill
  | BlkOpKindUnroll => BuildBlockStore_Unroll blkNode dstAddr src size srcAddrOrFill
  | BlkOpKindUnrollMemmove => BuildBlockStore_UnrollMemmove blkNode size srcAddrOrFill
  | _ => unreached
  end.

(** The uses of one address: itself when not contained, the base of a
    contained address mode otherwise. *)
Definition BuildBlockStore_addrUse (addr : GenTree)
  (regMask : SingleTypeRegSet) (useCount : Z) : M Z :=
  if negb (isContained addr) then
    BuildUse addr regMask 0 ;;
    ret (useCount + 1)
  else if OperIsAddrMode addr then
    deref (AsAddrMode addr) ;;
    base <- deref (gtOp1 addr) ;;
    n <- runUses (BuildAddrUses shared base RBM_NONE) ;;
    ret (useCount + n)
  else ret useCount.

Definition BuildBlockStore (blkNode : GenTree) : M Z :=
  blk <- deref (AsBlk blkNode) ;;
  let size := fst (fst blk) in
  let kind := snd (fst blk) in
  dstAddr <- deref (gtOp1 blkNode) ;;
  src <- deref (gtOp2 blkNode) ;;
  locals <-
    (if snd blk then BuildBlockStore_init blkNode dstAddr src size kind
     else BuildBlockStore_copy blkNode dstAddr src size kind) ;;
  when (negb (sizeRegMask locals =? RBM_NONE))
    (buildInternalIntRegisterDefForNode blkNode (sizeRegMask locals)) ;;
  useCount <- BuildBlockStore_addrUse dstAddr (dstAddrRegMask locals) 0 ;;
  useCount <-
    match srcAddrOrFill locals with
    | Some sa => BuildBlockStore_addrUse sa (srcRegMask locals) useCount
    | None => ret useCount
    end ;;
  buildInternalRegisterUses ;;
  BuildKills blkNode (getKillSetForBlockStore compiler blkNode) ;;
  ret useCount.

(** *** BuildCast *)

Definition BuildCast (cast : GenTree) : M Z :=
  castType <- deref (AsCast cast) ;;
  src <- deref (gtOp1 cast) ;;
  let srcType := genActualType (TypeGet src) in
  when arm
    (assert (negb (varTypeIsLong srcType)
             || (OperIs src GT_LONG && isContained src)) ;;
     when (varTypeIsFloating srcType && negb (varTypeIsFloating castType))
       (buildInternalFloatRegisterDefForNode cast
          (GetFloatRegSet (RBM_ALLFLOAT tgt)) ;;
        modify (withDelayFree true))) ;;
  srcCount <- runUses (BuildCastUses shared cast RBM_NONE) ;;
  buildInternalRegisterUses ;;
  BuildDef cast ;;
  ret srcCount.

(** *** BuildSelect *)

Definition BuildSelect (select : GenTree) : M Z :=
  assert (OperIs select GT_SELECT || OperIs select GT_SELECTCC) ;;
  srcCount <-
    (if OperIs select GT_SELECT then
       cond <- deref (AsConditional select) ;;
       n <- runUses (BuildOperandUses shared cond RBM_NONE) ;;
       ret (0 + n)
     else ret 0) ;;
  op1 <- deref (gtOp1 select) ;;
  n1 <- runUses (BuildOperandUses shared op1 RBM_NONE) ;;
  op2 <- deref (gtOp2 select) ;;
  n2 <- runUses (BuildOperandUses shared op2 RBM_NONE) ;;
  BuildDef select ;;
  ret (srcCount + n1 + n2).

End Builders.

(** ** Measures on the RefPositions of a node *)

Definition isUse (r : RefPosition) : bool :=
  match r with RefTypeUse _ _ _ => true | _ => false end.

Definition isInternalDef (t : RegisterType) (r : RefPosition) : bool :=
  match r, t with
  | RefTypeInternalDef IntRegisterType _ _, IntRegisterType => true
  | RefTypeInternalDef FloatRegisterType _ _, FloatRegisterType => true
  | _, _ => false
  end.

Definition count (p : RefPosition -> bool) (l : list RefPosition) : Z :=
  Z.of_nat (length (filter p l)).

(** The operand uses among the RefPositions. *)
Definition useCountOf (l : list RefPosition) : Z := count isUse l.

(** The scratch registers of one class reserved among the RefPositions. *)
Definition internalCountOf (t : RegisterType) (l : list RefPosition) : Z :=
  count (isInternalDef t) l.

(** A helper keeps the contract of its return value: it returns how many
    uses it created. *)
Definition countsItsUses (h : LinearScan -> option (Z * list UseRecord)) : Prop :=
  forall s n us, h s = Some (n, us) -> n = Z.of_nat (length us).

Definition SharedBuildersCountUses (shared : SharedBuilders) : Prop :=
  (forall t c, countsItsUses (BuildIndirUses shared t c))
  /\ (forall t c, countsItsUses (BuildOperandUses shared t c))
  /\ (forall t c, countsItsUses (BuildAddrUses shared t c))
  /\ (forall t c, countsItsUses (BuildCastUses shared t c))
  /\ (forall t, countsItsUses (BuildCallArgUses shared t)).

(** ** A target, a compiler and helpers for the examples *)

(** Modelled from the spec: the emitter is not part of this file.  For the
    examples, an offset fits the immediate field of an ARM64 load/store when
    it is zero, a signed 9-bit offset, or an unsigned 12-bit offset scaled by
    the access size. *)
Definition arm64_valid_imm_for_ldst_offset (imm size : Z) : bool :=
  (imm =? 0)
  || ((-256 <=? imm) && (imm <=? 255))
  || ((0 <=? imm) && (Z.land imm (size - 1) =? 0) && (imm / size <? 0x1000)).

(** Modelled from the spec: [emitTypeSize] is not part of this file; for the
    examples, the operand width of a type in bytes. *)
Definition arm64_emitTypeSize (ty : var_types) : Z :=
  match ty with
  | TYP_BOOL | TYP_BYTE | TYP_UBYTE => 1
  | TYP_SHORT | TYP_USHORT => 2
  | TYP_INT | TYP_UINT | TYP_FLOAT => 4
  | TYP_SIMD12 | TYP_SIMD16 => 16
  | _ => 8
  end.

(** Modelled from the spec: [varTypeUsesFloatArgReg] is not part of this
    file; for the examples, floating and vector values are returned in the
    floating-return set. *)
Definition arm64_varTypeUsesFloatArgReg (ty : var_types) : bool :=
  match ty with
  | TYP_FLOAT | TYP_DOUBLE | TYP_SIMD8 | TYP_SIMD12 | TYP_SIMD16 => true
  | _ => false
  end.

(** An ARM64 target for the examples: x0-x17 and lr are caller-trashed, lr
    is x30, the cookie temporaries are ip0 and ip1 (x16, x17), the write
    barrier takes its destination in x14 and its source in x13. *)
Definition arm64Target : TargetDesc :=
  mkTargetDesc TARGET_ARM64 true true
    0x4003FFFF (Z.shiftl 1 30) 16 17
    0 (Z.shiftl 1 32) 1 1 0xFFFFFFFF00000000
    14 13
    arm64_valid_imm_for_ldst_offset arm64_emitTypeSize
    arm64_varTypeUsesFloatArgReg.

(** An ARM target for the examples: r0-r3, r12 and lr are caller-trashed,
    lr is r14, the cookie temporaries are r12 and lr, the write barrier uses
    r1 and r0. *)
Definition armTarget : TargetDesc :=
  mkTargetDesc TARGET_ARM true false
    0x500F (Z.shiftl 1 14) 12 14
    (Z.shiftl 1 5) (Z.shiftl 1 16) 3 1 0xFFFFFFFF0000
    1 0
    (fun imm _ => (Z.land imm 0xFFF =? imm) || (Z.abs imm <=? 0xFF))
    arm64_emitTypeSize arm64_varTypeUsesFloatArgReg.

(** A compiler instance for the examples: [gs] is
    [getNeedsGSSecurityCookie()], [async] is [compIsAsync()]; a call kills
    the caller-trashed integer registers. *)
Definition exampleCompiler (gs async : bool) : Compiler :=
  mkCompiler gs async false true false true 0xFFFF00FF00000000
    (fun _ => 0x4003FFFF) (fun _ => 0).

(** An allocator state for the examples: every integer register but x29 and
    x31 is available, nothing is placed or pending. *)
Definition exampleLinearScan : LinearScan :=
  mkLinearScan 0x5FFFFFFF 0xFFFFFFFF00000000 [] false 0 0 [].

(** Modelled from the spec: [BuildAddrUses] of the shared builder is not in
    this file; it creates a use for a non-contained address, and for a
    contained address mode a use for each non-contained base and index. *)
Definition exampleBuildAddrUses : UsesHelper :=
  fun addr candidates _ =>
    let usesOf (o : option GenTree) :=
      match o with
      | Some t => if isContained t then [] else [mkUse t candidates 0]
      | None => []
      end in
    let us :=
      if negb (isContained addr) then [mkUse addr candidates 0]
      else if OperIs addr GT_LEA then usesOf (gtOp1 addr) ++ usesOf (gtOp2 addr)
      else [] in
    Some (Z.of_nat (length us), us).

(** Modelled from the spec: [BuildIndirUses] is not in this file; it creates
    the uses of the non-contained parts of the indirection's address. *)
Definition exampleBuildIndirUses : UsesHelper :=
  fun indir candidates s =>
    match gtOp1 indir with
    | Some addr => exampleBuildAddrUses addr candidates s
    | None => None
    end.

(** Modelled from the spec: [BuildOperandUses] is not in this file; it
    consumes a non-contained operand as one use, and looks through a
    contained indirection or address mode. *)
Definition exampleBuildOperandUses : UsesHelper :=
  fun node candidates s =>
    if negb (isContained node) then Some (1, [mkUse node candidates 0])
    else if OperIs node GT_IND then exampleBuildIndirUses node candidates s
    else if OperIs node GT_LEA then exampleBuildAddrUses node candidates s
    else Some (0, []).

(** Modelled from the spec: [BuildCastUses] is not in this file; it consumes
    the source value of the cast. *)
Definition exampleBuildCastUses : UsesHelper :=
  fun cast candidates s =>
    match gtOp1 cast with
    | Some src => exampleBuildOperandUses src candidates s
    | None => None
    end.

(** Modelled from the spec: [BuildCallArgUses] is not in this file; it
    creates one use per register argument, bound to the argument's register. *)
Definition exampleBuildCallArgUses
  : GenTree -> LinearScan -> option (Z * list UseRecord) :=
  fun call _ =>
    match AsCall call with
    | Some c =>
        let us :=
          map (fun a => mkUse a (genSingleTypeRegMask (GetRegNum a)) 0)
            (filter (fun a => negb (OperIs a GT_PUTARG_STK)) (gtArgs c)) in
        Some (Z.of_nat (length us), us)
    | None => None
    end.

Definition exampleShared : SharedBuilders :=
  mkSharedBuilders exampleBuildIndirUses exampleBuildOperandUses
    exampleBuildAddrUses exampleBuildCastUses exampleBuildCallArgUses.

(** Node constructors for the examples. *)
Definition exLeaf (o : genTreeOps) (ty : var_types) (c : bool) (r : regNumber)
  : GenTree :=
  mkGenTree o ty 0 c r None None ExtNone.

Definition exLea (base index : option GenTree) (offset : Z) : GenTree :=
  mkGenTree GT_LEA TYP_BYREF 0 true 0 base index (ExtAddrMode offset).

Definition exInd (ty : var_types) (addr : GenTree) : GenTree :=
  mkGenTree GT_IND ty 0 false 0 (Some addr) None ExtNone.

(** ** What the builders are expected to create *)

(** The records that define a result or kill registers. *)
Definition isDefOrKill (r : RefPosition) : bool :=
  match r with
  | RefTypeDef _ _ | RefTypeDefs _ _ _ | RefTypeKill _ _
  | RefTypeDefWithKills _ _ _ | RefTypeCallDefsWithKills _ _ _ _ => true
  | _ => false
  end.

(** The record of [MarkAsyncContinuationBusyForCall]. *)
Definition isAsyncContinuationBusy (r : RefPosition) : bool :=
  match r with RefAsyncContinuationBusy _ => true | _ => false end.

(** The call target: the control expression, or the address of an indirect
    call. *)
Definition callTarget (c : CallFields GenTree) : option GenTree :=
  if gtCallTypes_eqb (gtCallType c) CT_INDIRECT
  then gtCallAddr c else gtControlExpr c.

(** [srcAddrOrFill] of a copy: the address of a source indirection. *)
Definition copySrcAddr (src : GenTree) : option GenTree :=
  if OperIs src GT_IND then gtOp1 src else None.

(** What [buildInternalRegisterUses] creates in state [s]. *)
Definition internalUsesOf (s : LinearScan) : list RefPosition :=
  map (fun d => RefTypeInternalUse (fst d) (snd d) (setInternalRegsDelayFree s))
      (internalDefs s).

(** [currentRegCount] of a field. *)
Definition splitRegCount (tgt : TargetDesc) (node : GenTree) : Z :=
  if isArm (TARGET tgt) && OperIsMultiRegOp node then
    match AsMultiRegOp node with Some k => k | None => 0 end
  else 1.

(** The slots in production order: each field with each of its register
    indices. *)
Definition splitSlots (tgt : TargetDesc) (uses : list (GenTree * var_types))
  : list (GenTree * Z) :=
  flat_map (fun use => map (fun i => (fst use, i))
                         (indices (splitRegCount tgt (fst use)))) uses.

(** The use of the slot with ordinal [ordinal]. *)
Definition slotUse (argReg : regNumber) (gtNumRegs ordinal : Z)
  (slot : GenTree * Z) : RefPosition :=
  RefTypeUse (fst slot)
    (if ordinal <? gtNumRegs
     then genSingleTypeRegMask (regAdd argReg ordinal) else RBM_NONE)
    (snd slot).

(** The uses of the slots from ordinal [ordinal] on. *)
Fixpoint slotUses (argReg : regNumber) (gtNumRegs ordinal : Z)
  (slots : list (GenTree * Z)) : list RefPosition :=
  match slots with
  | [] => []
  | slot :: rest =>
      slotUse argReg gtNumRegs ordinal slot
      :: slotUses argReg gtNumRegs (ordinal + 1) rest
  end.

(** The placement state after the slots from ordinal [ordinal] on. *)
Fixpoint placeSlots (argReg : regNumber) (gtNumRegs ordinal : Z)
  (slots : list (GenTree * Z)) (placed : regMaskTP) : regMaskTP :=
  match slots with
  | [] => placed
  | _ :: rest =>
      placeSlots argReg gtNumRegs (ordinal + 1) rest
        (if ordinal <? gtNumRegs
         then AddRegNumInMask placed (regAdd argReg ordinal) else placed)
  end.

(** The register the NativeAOT linux/arm64 TLS sequence pins the call target
    to (x2) is an integer caller-trashed register other than the link
    register and the stack-cookie temporaries. *)
Definition tlsTargetRegIsVolatile (tgt : TargetDesc) : Prop :=
  Z.land (genSingleTypeRegMask REG_R2)
         (Z.lnot (GetIntRegSet (RBM_INT_CALLEE_TRASH tgt))) = 0
  /\ Z.land (genSingleTypeRegMask REG_R2) (SRBM_LR tgt) = 0
  /\ Z.land (genSingleTypeRegMask REG_R2)
            (genSingleTypeRegMask (REG_GSCOOKIE_TMP_0 tgt)) = 0
  /\ Z.land (genSingleTypeRegMask REG_R2)
            (genSingleTypeRegMask (REG_GSCOOKIE_TMP_1 tgt)) = 0.

Section BuilderSpecs.

Variable tgt : TargetDesc.
Variable compiler : Compiler.
Variable shared : SharedBuilders.

(** The condition under which the call builder marks the continuation
    registers busy. *)
Definition markAsyncCondition (c : CallFields GenTree) : bool :=
  IsAsync c && compIsAsync compiler && negb (IsFastTailCall c).

(** The record the "defs and kills" step creates. *)
Definition callDefsAndKills (call : GenTree) (c : CallFields GenTree)
  : RefPosition :=
  let dstCount := BuildCall_dstCount call c in
  let killMask := getKillSetForCall compiler call in
  if 0 <? dstCount then
    if BuildCall_hasMultiRegRetVal call c then
      RefTypeCallDefsWithKills call dstCount (GetABIReturnRegs c) killMask
    else
      RefTypeDefWithKills call (BuildCall_singleDstCandidates tgt call c) killMask
  else RefTypeKill call killMask.

(** What the overlap-safe move reserves. *)
Definition memmoveScratch (blkNode : GenTree) (size : Z) (s : LinearScan)
  : list RefPosition :=
  if 16 <=? size then
    repeat (RefTypeInternalDef FloatRegisterType blkNode
              (internalFloatRegCandidates compiler))
           (Z.to_nat (if negb (size mod 16 =? 0)
                      then size / 16 + 1 else size / 16))
  else if isPow2 size then
    [RefTypeInternalDef IntRegisterType blkNode (availableIntRegs s)]
  else
    [RefTypeInternalDef IntRegisterType blkNode (availableIntRegs s);
     RefTypeInternalDef IntRegisterType blkNode (availableIntRegs s)].

(** What the write-barrier object copy reserves; [cands] are the candidates
    of its scratch integer registers. *)
Definition cpObjIntCandidates (s : LinearScan) : SingleTypeRegSet :=
  Z.land (allRegs s IntRegisterType)
    (Z.lnot (GetRegSetForType
               (Z.lor (RBM_WRITE_BARRIER_DST_BYREF tgt)
                      (RBM_WRITE_BARRIER_SRC_BYREF tgt))
               IntRegisterType)).

Definition cpObjScratch (blkNode : GenTree) (size : Z) (s : LinearScan)
  : list RefPosition :=
  [RefTypeInternalDef IntRegisterType blkNode (cpObjIntCandidates s)]
  ++ (if 2 * REGSIZE_BYTES (TARGET tgt) <=? size
      then [RefTypeInternalDef IntRegisterType blkNode (cpObjIntCandidates s)]
      else [])
  ++ (if (4 * REGSIZE_BYTES (TARGET tgt) <=? size)
         && IsBaselineSimdIsaSupported compiler
      then [RefTypeInternalDef FloatRegisterType blkNode
              (internalFloatRegCandidates compiler);
            RefTypeInternalDef FloatRegisterType blkNode
              (internalFloatRegCandidates compiler)]
      else []).

(** What the general unrolled copy reserves. *)
Definition unrollScratch (blkNode dstAddr src : GenTree) (size : Z)
  : list RefPosition :=
  [RefTypeInternalDef IntRegisterType blkNode RBM_NONE]
  ++ (if isArm64 (TARGET tgt) then
        (if 2 * REGSIZE_BYTES (TARGET tgt) <=? size
         then [RefTypeInternalDef IntRegisterType blkNode RBM_NONE] else [])
        ++ (if 2 * FP_REGSIZE_BYTES (TARGET tgt) <=? size
            then [RefTypeInternalDef FloatRegisterType blkNode
                    (internalFloatRegCandidates compiler);
                  RefTypeInternalDef FloatRegisterType blkNode
                    (internalFloatRegCandidates compiler)]
            else [])
        ++ (if srcAddrMayNeedReg src (copySrcAddr src)
               && dstAddrMayNeedReg dstAddr
            then [RefTypeInternalDef IntRegisterType blkNode RBM_NONE]
            else [])
      else []).

Definition BuildCall_assertions (call : GenTree) (c : CallFields GenTree)
  (s : LinearScan) : Prop :=
  (gtCallTypes_eqb (gtCallType c) CT_INDIRECT = true ->
   gtControlExpr c = None /\ gtCallAddr c <> None)
  /\ (forall e, callTarget c = Some e ->
        TypeIs e TYP_VOID = false
        /\ (IsFastTailCall c = true ->
            fastTailCallCandidates tgt compiler s <> RBM_NONE)
        /\ (isTlsGetAddrSequence tgt compiler c e = true ->
            hasFlag call GTF_TLS_GET_ADDR = true))
  /\ (callTarget c = None ->
      IsR2ROrVirtualStubRelativeIndir c = true ->
      IsFastTailCall c = true ->
      Z.land (allRegs s IntRegisterType) (getLow (RBM_INT_CALLEE_TRASH tgt))
      <> RBM_NONE)
  /\ (0 < BuildCall_dstCount call c ->
      BuildCall_hasMultiRegRetVal call c = true ->
      0 < genCountBits (GetABIReturnRegs c)).

(** An address the common tail can build the uses of. *)
Definition addrUsesBuildable (addr : GenTree) : Prop :=
  isContained addr = true -> OperIsAddrMode addr = true ->
  AsAddrMode addr <> None
  /\ exists base,
      gtOp1 addr = Some base
      /\ forall s1, BuildAddrUses shared base RBM_NONE s1 <> None.

Definition BuildBlockStore_copy_assertions (dstAddr src : GenTree) (size : Z)
  (kind : BlkOpKind) : Prop :=
  (OperIs src GT_IND = true -> isContained src = true /\ gtOp1 src <> None)
  /\ match kind with
     | BlkOpKindCpObjUnroll =>
         forall sa, copySrcAddr src = Some sa -> isContained sa = false
     | BlkOpKindUnroll => True
     | BlkOpKindUnrollMemmove => TARGET tgt = TARGET_ARM64 /\ 0 < size
     | _ => False
     end
  /\ addrUsesBuildable dstAddr
  /\ (forall sa, copySrcAddr src = Some sa -> addrUsesBuildable sa).

End BuilderSpecs.

(** ** The spec's wording of two rules *)

(** The spec's condition for the vector registers of an unrolled copy,
    "both addresses are simple enough that vector paired transfers apply":
    source and destination are both local-frame addresses (the source
    comment: "This is the case, when both registers are either sp or fp"). *)
Definition vectorPairTransfersApply (src dstAddr : GenTree) : bool :=
  isSrcAddrLocal src (if OperIs src GT_IND then gtOp1 src else None)
  && isDstAddrLocal dstAddr.

(** The rule for the vector registers of the general unrolled copy as the
    spec words it: two are reserved exactly when the size is at least two
    vector widths and vector paired transfers apply to both addresses. *)
Definition claimed_unroll_vector_rule (tgt : TargetDesc) (compiler : Compiler)
  (shared : SharedBuilders) (blkNode : GenTree) (s : LinearScan) : Prop :=
  forall size dstAddr src n s' evs,
    BuildBlockStore tgt compiler shared blkNode s = Some (n, s', evs) ->
    AsBlk blkNode = Some (size, BlkOpKindUnroll, false) ->
    gtOp1 blkNode = Some dstAddr ->
    gtOp2 blkNode = Some src ->
    (internalCountOf FloatRegisterType evs = 2 <->
     2 * FP_REGSIZE_BYTES (TARGET tgt) <= size
     /\ vectorPairTransfersApply src dstAddr = true).

(** The write-barrier object copy as the spec words it: the use of the
    destination address is always created, with the write-barrier destination
    register as its candidates. *)
Definition claimed_cpobj_dst_use (tgt : TargetDesc) (compiler : Compiler)
  (shared : SharedBuilders) (blkNode : GenTree) (s : LinearScan) : Prop :=
  forall size dstAddr n s' evs,
    BuildBlockStore tgt compiler shared blkNode s = Some (n, s', evs) ->
    AsBlk blkNode = Some (size, BlkOpKindCpObjUnroll, false) ->
    gtOp1 blkNode = Some dstAddr ->
    exists t i,
      In (RefTypeUse t
            (genSingleTypeRegMask (REG_WRITE_BARRIER_DST_BYREF tgt)) i) evs.

(** ** Nodes for the examples *)

(** A 32-byte unrolled copy between two addresses held in registers. *)
Definition exHeapCopy32 : GenTree :=
  mkGenTree GT_STORE_BLK TYP_STRUCT 0 false 0
    (Some (exLeaf GT_LCL_VAR TYP_BYREF false 0))
    (Some (mkGenTree GT_IND TYP_STRUCT 0 true 0
             (Some (exLeaf GT_LCL_VAR TYP_BYREF false 1)) None ExtNone))
    (ExtBlk 32 BlkOpKindUnroll false).

(** An object copy whose destination is a contained address mode. *)
Definition exCpObjContainedDst : GenTree :=
  mkGenTree GT_STORE_BLK TYP_STRUCT 0 false 0
    (Some (exLea (Some (exLeaf GT_LCL_VAR TYP_BYREF false 0)) None 8))
    (Some (mkGenTree GT_IND TYP_STRUCT 0 true 0
             (Some (exLeaf GT_LCL_VAR TYP_BYREF false 1)) None ExtNone))
    (ExtBlk 16 BlkOpKindCpObjUnroll false).

(** An object copy between two addresses held in registers. *)
Definition exCpObj : GenTree :=
  mkGenTree GT_STORE_BLK TYP_STRUCT 0 false 0
    (Some (exLeaf GT_LCL_VAR TYP_BYREF false 0))
    (Some (mkGenTree GT_IND TYP_STRUCT 0 true 0
             (Some (exLeaf GT_LCL_VAR TYP_BYREF false 1)) None ExtNone))
    (ExtBlk 16 BlkOpKindCpObjUnroll false).

(** An overlap-safe move of [size] bytes between two addresses in registers. *)
Definition exMemmove (size : Z) : GenTree :=
  mkGenTree GT_STORE_BLK TYP_STRUCT 0 false 0
    (Some (exLeaf GT_LCL_VAR TYP_BYREF false 0))
    (Some (mkGenTree GT_IND TYP_STRUCT 0 true 0
             (Some (exLeaf GT_LCL_VAR TYP_BYREF false 1)) None ExtNone))
    (ExtBlk size BlkOpKindUnrollMemmove false).

(** A void fast tail call through a target held in a register, with two
    register arguments. *)
Definition exCallTarget : GenTree := exLeaf GT_LCL_VAR TYP_LONG false 9.

Definition exFastTailCallFields : CallFields GenTree :=
  mkCallFields (Some exCallTarget) None CT_USER_FUNC
    [exLeaf GT_LCL_VAR TYP_INT false 0; exLeaf GT_LCL_VAR TYP_INT false 1]
    false 0 0 true false false false false false.

Definition exFastTailCall : GenTree :=
  mkGenTree GT_CALL TYP_VOID 0 false 0 None None
    (ExtCall exFastTailCallFields).

(** An async call returning an [int], not a tail call. *)
Definition exAsyncCallFields : CallFields GenTree :=
  mkCallFields None None CT_USER_FUNC
    [exLeaf GT_LCL_VAR TYP_INT false 0]
    false 0 0 false false false false true false.

Definition exAsyncCall : GenTree :=
  mkGenTree GT_CALL TYP_INT 0 false 0 None None (ExtCall exAsyncCallFields).

(** An allocator state in which an earlier argument placed x0 and x1. *)
Definition examplePlacedState : LinearScan :=
  mkLinearScan 0x5FFFFFFF 0xFFFFFFFF00000000 [] false 3 2 [].

(** [*(base + index + 4)] as an [int] load through a contained address mode. *)
Definition exIndexedLea : GenTree :=
  exLea (Some (exLeaf GT_LCL_VAR TYP_BYREF false 0))
        (Some (exLeaf GT_LCL_VAR TYP_LONG false 1)) 4.

Definition exIndexedLoad : GenTree := exInd TYP_INT exIndexedLea.

(** A split argument on ARM: a long (two registers) and an int, with two
    destination registers starting at r2. *)
Definition exSplitFields : list (GenTree * var_types) :=
  [(mkGenTree GT_MUL_LONG TYP_LONG 0 false 0 None None (ExtMultiRegOp 2),
    TYP_LONG);
   (exLeaf GT_LCL_VAR TYP_INT false 0, TYP_INT)].

Definition exSplitSrc : GenTree :=
  mkGenTree GT_FIELD_LIST TYP_STRUCT 0 true 0 None None
    (ExtFieldList exSplitFields).

Definition exSplitArg : GenTree :=
  mkGenTree GT_PUTARG_SPLIT TYP_STRUCT 0 false 2 (Some exSplitSrc) None
    (ExtPutArgSplit 2).

(** ** What a builder keeps *)

(** The scratch registers the RefPositions reserve, in order. *)
Fixpoint reservedOf (l : list RefPosition)
  : list (RegisterType * SingleTypeRegSet) :=
  match l with
  | [] => []
  | RefTypeInternalDef t _ c :: rest => (t, c) :: reservedOf rest
  | _ :: rest => reservedOf rest
  end.

(** The record of a scratch register's use. *)
Definition isInternalUse (r : RefPosition) : bool :=
  match r with RefTypeInternalUse _ _ _ => true | _ => false end.

(** A run from [s] to [s'] creating [l] keeps [R]; the relations of interest
    hold of an empty run and compose along [bind]. *)
Definition respects (R : LinearScan -> LinearScan -> list RefPosition -> Prop)
  {A} (m : M A) : Prop :=
  forall s a s' l, m s = Some (a, s', l) -> R s s' l.

(** The registers available to the allocator do not change, and the pending
    scratch registers grow by exactly those the RefPositions reserve. *)
Definition keepsRegisters (s s' : LinearScan) (l : list RefPosition) : Prop :=
  availableIntRegs s' = availableIntRegs s
  /\ availableFloatRegs s' = availableFloatRegs s
  /\ internalDefs s' = internalDefs s ++ reservedOf l.

(** The cross-call placement state and the split-argument annotation do not
    change. *)
Definition keepsPlacement (s s' : LinearScan) (l : list RefPosition) : Prop :=
  placedArgRegs s' = placedArgRegs s
  /\ numPlacedArgLocals s' = numPlacedArgLocals s
  /\ regNumByIdx s' = regNumByIdx s.

(** The delay-free flag does not change. *)
Definition keepsDelayFree (s s' : LinearScan) (l : list RefPosition) : Prop :=
  setInternalRegsDelayFree s' = setInternalRegsDelayFree s.

(** Every RefPosition created satisfies [P]. *)
Definition createsOnly (P : RefPosition -> Prop)
  (s s' : LinearScan) (l : list RefPosition) : Prop :=
  Forall P l.

(** The kinds of RefPosition each builder may create for its node. *)
Definition indirRecord (node : GenTree) (r : RefPosition) : Prop :=
  match r with
  | RefTypeUse _ _ _ | RefTypeInternalUse _ _ _ => True
  | RefTypeInternalDef IntRegisterType t c => t = node /\ c = RBM_NONE
  | RefTypeDef t c => t = node /\ c = RBM_NONE
  | _ => False
  end.

Definition callRecord (node : GenTree) (r : RefPosition) : Prop :=
  match r with
  | RefTypeUse _ _ _ | RefTypeInternalUse _ _ _ | RefTypeFixedReg _ _ => True
  | RefTypeInternalDef IntRegisterType t _ => t = node
  | RefTypeKill t _ | RefTypeDefWithKills t _ _
  | RefTypeCallDefsWithKills t _ _ _
  | RefAsyncContinuationBusy t | RefSwiftErrorBusy t => t = node
  | _ => False
  end.

Definition putArgStkRecord (r : RefPosition) : Prop :=
  match r with
  | RefTypeUse _ _ _ | RefTypeInternalUse _ _ _ => True
  | RefTypeInternalDef IntRegisterType _ c => c = RBM_NONE
  | _ => False
  end.

Definition putArgSplitRecord (node : GenTree) (r : RefPosition) : Prop :=
  match r with
  | RefTypeUse _ _ _ | RefTypeInternalUse _ _ _ => True
  | RefTypeInternalDef IntRegisterType t _ => t = node
  | RefTypeDefs t _ _ => t = node
  | _ => False
  end.

Definition blockStoreRecord (node : GenTree) (r : RefPosition) : Prop :=
  match r with
  | RefTypeUse _ _ _ | RefTypeInternalUse _ _ _ => True
  | RefTypeInternalDef _ t _ => t = node
  | RefTypeKill t _ => t = node
  | _ => False
  end.

Definition castRecord (node : GenTree) (r : RefPosition) : Prop :=
  match r with
  | RefTypeUse _ _ _ | RefTypeInternalUse _ _ _ => True
  | RefTypeInternalDef FloatRegisterType t _ => t = node
  | RefTypeDef t c => t = node /\ c = RBM_NONE
  | _ => False
  end.

Definition selectRecord (node : GenTree) (r : RefPosition) : Prop :=
  match r with
  | RefTypeUse _ _ _ => True
  | RefTypeDef t c => t = node /\ c = RBM_NONE
  | _ => False
  end.

(** Nothing created is the use of a scratch register. *)
Definition beforeInternalUses (s s' : LinearScan) (l : list RefPosition)
  : Prop :=
  Forall (fun r => isInternalUse r = false) l.

(** After the uses of the scratch registers: no such use is created any more,
    no register is reserved, and the delay-free flag stays. *)
Definition afterInternalUses (s s' : LinearScan) (l : list RefPosition)
  : Prop :=
  Forall (fun r => isInternalUse r = false) l
  /\ internalDefs s' = internalDefs s
  /\ setInternalRegsDelayFree s' = setInternalRegsDelayFree s.

(** The uses of scratch registers a run creates are those of
    [buildInternalRegisterUses] in its final state. *)
Definition usesInternalOnce {A} (m : M A) : Prop :=
  forall s a s' l,
    m s = Some (a, s', l) -> filter isInternalUse l = internalUsesOf s'.

(** ** When a build completes *)

(** What [BuildIndir] asserts of its node, and what its casts require. *)
Definition BuildIndir_assertions (tgt : TargetDesc) (indirTree : GenTree)
  : Prop :=
  TypeIs indirTree TYP_STRUCT = false
  /\ exists addr,
      gtOp1 indirTree = Some addr
      /\ (isArm (TARGET tgt) = true ->
          hasFlag indirTree GTF_IND_UNALIGNED = true ->
          OperIs indirTree GT_STOREIND = true -> gtOp2 indirTree <> None)
      /\ (isContained addr = true -> OperIs addr GT_LEA = true ->
          AsAddrMode addr <> None)
      /\ (FEATURE_SIMD tgt = true -> TypeIs indirTree TYP_SIMD12 = true ->
          isContained addr = false).

(** ** The records of a call *)

Definition isFixedReg (r : RefPosition) : bool :=
  match r with RefTypeFixedReg _ _ => true | _ => false end.

Definition isSwiftErrorBusy (r : RefPosition) : bool :=
  match r with RefSwiftErrorBusy _ => true | _ => false end.

(** The scratch registers of a call: one to stage the target when there is
    no target expression, one for the ARM null check. *)
Definition callScratch (tgt : TargetDesc) (c : CallFields GenTree)
  (s : LinearScan) : list (RegisterType * SingleTypeRegSet) :=
  (match callTarget c with
   | Some _ => []
   | None =>
       if IsR2ROrVirtualStubRelativeIndir c && IsFastTailCall c then
         [(IntRegisterType,
           Z.land (allRegs s IntRegisterType)
                  (getLow (RBM_INT_CALLEE_TRASH tgt)))]
       else if isArm (TARGET tgt) then [(IntRegisterType, RBM_NONE)]
       else []
   end)
  ++ (if isArm (TARGET tgt) && NeedsNullCheck c
      then [(IntRegisterType,
             if IsFastTailCall c then SRBM_LR tgt else RBM_NONE)]
      else []).

(** The NativeAOT TLS sequence applies to the call. *)
Definition callIsTlsGetAddr (tgt : TargetDesc) (compiler : Compiler)
  (c : CallFields GenTree) : bool :=
  match callTarget c with
  | Some e => isTlsGetAddrSequence tgt compiler c e
  | None => false
  end.

(** ** The records of a stack argument *)

(** What one field of a field list passed on the stack creates. *)
Definition putArgStkField (tgt : TargetDesc) (use : GenTree * var_types)
  : list RefPosition :=
  RefTypeUse (fst use) RBM_NONE 0
  :: (if FEATURE_SIMD tgt && var_types_eqb (snd use) TYP_SIMD12
      then [RefTypeInternalDef IntRegisterType (fst use) RBM_NONE]
      else []).

(** The scratch registers of a struct copied to the stack: two for a
    load/store pair on ARM64, one on ARM. *)
Definition putArgStkStructScratch (tgt : TargetDesc) (argNode : GenTree)
  : list RefPosition :=
  RefTypeInternalDef IntRegisterType argNode RBM_NONE
  :: (if isArm64 (TARGET tgt)
      then [RefTypeInternalDef IntRegisterType argNode RBM_NONE]
      else []).

(** ** The annotation of a split argument *)

(** The registers recorded on a split argument do not change. *)
Definition keepsRegNumByIdx (s s' : LinearScan) (l : list RefPosition)
  : Prop :=
  regNumByIdx s' = regNumByIdx s.

(** ** The records of a block store *)

(** A scratch register reserved for [node]. *)
Definition isScratchOf (node : GenTree) (r : RefPosition) : Prop :=
  exists t c, r = RefTypeInternalDef t node c.

(** What the initialization of a block reserves. *)
Definition initScratch (tgt : TargetDesc) (compiler : Compiler)
  (dstAddr : GenTree) (size : Z) (kind : BlkOpKind) (s : LinearScan)
  : list (RegisterType * SingleTypeRegSet) :=
  match kind with
  | BlkOpKindUnroll =>
      if isArm64 (TARGET tgt) then
        (if isContained dstAddr then [(IntRegisterType, RBM_NONE)] else [])
        ++ (if FP_REGSIZE_BYTES (TARGET tgt) <? size
            then [(FloatRegisterType, internalFloatRegCandidates compiler)]
            else [])
      else []
  | BlkOpKindLoop => [(IntRegisterType, availableIntRegs s)]
  | _ => []
  end.

(** The fill value of an initialization: the operand of a [GT_INIT_VAL]. *)
Definition initFill (src : GenTree) : option GenTree :=
  if OperIs src GT_INIT_VAL then gtOp1 src else Some src.

(** An address whose casts succeed: a contained address mode has its
    offset and its base. *)
Definition addrWellFormed (addr : GenTree) : Prop :=
  isContained addr = true -> OperIsAddrMode addr = true ->
  AsAddrMode addr <> None /\ gtOp1 addr <> None.

(** What [BuildBlockStore] asserts of its node, and what its casts
    require. *)
Definition BuildBlockStore_assertions (tgt : TargetDesc) (blkNode : GenTree)
  : Prop :=
  exists size kind init dstAddr src,
    AsBlk blkNode = Some (size, kind, init)
    /\ gtOp1 blkNode = Some dstAddr
    /\ gtOp2 blkNode = Some src
    /\ addrWellFormed dstAddr
    /\ if init : bool then
         (OperIs src GT_INIT_VAL = true ->
          isContained src = true /\ gtOp1 src <> None)
         /\ (kind = BlkOpKindUnroll \/ kind = BlkOpKindLoop)
         /\ (forall fill, initFill src = Some fill -> addrWellFormed fill)
       else
         (OperIs src GT_IND = true ->
          isContained src = true /\ gtOp1 src <> None)
         /\ match kind with
            | BlkOpKindCpObjUnroll =>
                forall sa, copySrcAddr src = Some sa -> isContained sa = false
            | BlkOpKindUnroll => True
            | BlkOpKindUnrollMemmove =>
                TARGET tgt = TARGET_ARM64 /\ 0 < size
            | _ => False
            end
         /\ (forall sa, copySrcAddr src = Some sa -> addrWellFormed sa).

(** ** More nodes for the examples *)

(** A NativeAOT compiler on linux, and one for the Apple ARM64 ABI. *)
Definition nativeAotCompiler : Compiler :=
  mkCompiler false false true true false true 0xFFFF00FF00000000
    (fun _ => 0x4003FFFF) (fun _ => 0).

Definition appleCompiler : Compiler :=
  mkCompiler false false false true true true 0xFFFF00FF00000000
    (fun _ => 0x4003FFFF) (fun _ => 0).

(** The TLS address call of NativeAOT: no argument, the target a TLS handle
    constant. *)
Definition exTlsHandle : GenTree :=
  mkGenTree GT_CNS_INT TYP_LONG GTF_ICON_TLS_HDL false 0 None None ExtNone.

Definition exTlsCallFields : CallFields GenTree :=
  mkCallFields (Some exTlsHandle) None CT_USER_FUNC []
    false 0 0 false false false false false false.

Definition exTlsCall : GenTree :=
  mkGenTree GT_CALL TYP_LONG GTF_TLS_GET_ADDR false 0 None None
    (ExtCall exTlsCallFields).

(** A fast tail call on ARM through a stub cell, with a null check. *)
Definition exStubTailCallFields : CallFields GenTree :=
  mkCallFields None None CT_USER_FUNC [exLeaf GT_LCL_VAR TYP_INT false 0]
    false 0 0 true true true false false false.

Definition exStubTailCall : GenTree :=
  mkGenTree GT_CALL TYP_VOID 0 false 0 None None
    (ExtCall exStubTailCallFields).

(** An allocator state for ARM: r0-r10, r12 and lr are available. *)
Definition exampleArmLinearScan : LinearScan :=
  mkLinearScan 0x57FF 0xFFFFFFFF0000 [] false 0 0 [].

(** [(int)f] of a float local. *)
Definition exFloatToIntCast : GenTree :=
  mkGenTree GT_CAST TYP_INT 0 false 0
    (Some (exLeaf GT_LCL_VAR TYP_FLOAT false 0)) None (ExtCast TYP_INT).

(** [c ? a : b] over three locals. *)
Definition exSelect : GenTree :=
  mkGenTree GT_SELECT TYP_INT 0 false 0
    (Some (exLeaf GT_LCL_VAR TYP_INT false 1))
    (Some (exLeaf GT_LCL_VAR TYP_INT false 2))
    (ExtConditional (exLeaf GT_LCL_VAR TYP_INT false 0)).

(** A struct on the stack, given as a Vector3 field and an int field. *)
Definition exStkFields : list (GenTree * var_types) :=
  [(exLeaf GT_LCL_VAR TYP_SIMD12 false 0, TYP_SIMD12);
   (exLeaf GT_LCL_VAR TYP_INT false 1, TYP_INT)].

Definition exStkFieldList : GenTree :=
  mkGenTree GT_FIELD_LIST TYP_STRUCT 0 true 0 None None
    (ExtFieldList exStkFields).

Definition exStkFieldListArg : GenTree :=
  mkGenTree GT_PUTARG_STK TYP_STRUCT 0 false 0 (Some exStkFieldList) None
    (ExtPutArgStk 24).

(** A 16-byte struct read from memory through an address in a register. *)
Definition exBlkSrc : GenTree :=
  mkGenTree GT_BLK TYP_STRUCT 0 true 0
    (Some (exLeaf GT_LCL_VAR TYP_BYREF false 0)) None
    (ExtBlk 16 BlkOpKindInvalid false).

Definition exStkStructArg : GenTree :=
  mkGenTree GT_PUTARG_STK TYP_STRUCT 0 false 0 (Some exBlkSrc) None
    (ExtPutArgStk 16).

(** A Vector3 in a register, passed in a 12-byte stack slot. *)
Definition exStkVector3Arg : GenTree :=
  mkGenTree GT_PUTARG_STK TYP_SIMD12 0 false 0
    (Some (exLeaf GT_LCL_VAR TYP_SIMD12 false 0)) None (ExtPutArgStk 12).

(** The same struct split between r3 and the stack. *)
Definition exSplitBlkArg : GenTree :=
  mkGenTree GT_PUTARG_SPLIT TYP_STRUCT 0 false 3 (Some exBlkSrc) None
    (ExtPutArgSplit 1).

(** A 32-byte initialization through a contained address mode, the fill
    value in a register. *)
Definition exInitBlock : GenTree :=
  mkGenTree GT_STORE_BLK TYP_STRUCT 0 false 0
    (Some (exLea (Some (exLeaf GT_LCL_VAR TYP_BYREF false 0)) None 8))
    (Some (mkGenTree GT_INIT_VAL TYP_INT 0 true 0
             (Some (exLeaf GT_LCL_VAR TYP_INT false 1)) None ExtNone))
    (ExtBlk 32 BlkOpKindUnroll true).

(** The placement state only grows: no placed register is removed, and the
    count of placed locals stays. *)
Definition growsPlacement (s s' : LinearScan) (l : list RefPosition) : Prop :=
  (forall b, 0 <= b ->
     Z.testbit (placedArgRegs s) b = true ->
     Z.testbit (placedArgRegs s') b = true)
  /\ numPlacedArgLocals s' = numPlacedArgLocals s.

(** [srcAddrOrFill] of a block store. *)
Definition blockSrcAddrOrFill (init : bool) (src : GenTree) : option GenTree :=
  if init then initFill src else copySrcAddr src.

(** An ARM allocator state in which an earlier argument placed r0 and r1. *)
Definition exampleArmPlacedState : LinearScan :=
  mkLinearScan 0x57FF 0xFFFFFFFF0000 [] false 3 2 [].

(** What [BuildCast] asserts of its node, and what its casts require. *)
Definition BuildCast_assertions (tgt : TargetDesc) (cast : GenTree) : Prop :=
  exists castType src,
    AsCast cast = Some castType
    /\ gtOp1 cast = Some src
    /\ (isArm (TARGET tgt) = true ->
        varTypeIsLong (genActualType (TypeGet src)) = true ->
        OperIs src GT_LONG = true /\ isContained src = true).

(** What [BuildSelect] asserts of its node, and what its casts require. *)
Definition BuildSelect_assertions (select : GenTree) : Prop :=
  (OperIs select GT_SELECT = true \/ OperIs select GT_SELECTCC = true)
  /\ (OperIs select GT_SELECT = true -> AsConditional select <> None)
  /\ gtOp1 select <> None
  /\ gtOp2 select <> None.

(** What [BuildPutArgStk] asserts of its node, and what its casts require. *)
Definition BuildPutArgStk_assertions (argNode : GenTree) : Prop :=
  AsPutArgStk argNode <> None
  /\ OperIs argNode GT_PUTARG_STK = true
  /\ exists src,
      gtOp1 argNode = Some src
      /\ if TypeIs src TYP_STRUCT then
           isContained src = true
           /\ if OperIs src GT_FIELD_LIST then AsFieldList src <> None
              else if OperIs src GT_BLK
                   then AsBlk src <> None /\ gtOp1 src <> None
                   else (OperIs src GT_LCL_VAR || OperIs src GT_LCL_FLD) = true
         else isContained src = false.

(** [argMask] of a split argument: the registers [argReg + i], [i < k]. *)
Definition splitArgMask (argReg : regNumber) (k : Z) : SingleTypeRegSet :=
  fold_left (fun m i => Z.lor m (genSingleTypeRegMask (regAdd argReg i)))
            (indices k) RBM_NONE.

(** A field a split argument can consume: not contained, and multi-register
    only as an ARM multi-register operation. *)
Definition splitFieldOk (tgt : TargetDesc) (use : GenTree * var_types) : Prop :=
  isContained (fst use) = false
  /\ (isArm (TARGET tgt) && OperIsMultiRegOp (fst use) = false ->
      IsMultiRegNode (fst use) = false).

(** What [BuildPutArgSplit] asserts of its node in state [s], and what its
    casts require. *)
Definition BuildPutArgSplit_assertions (tgt : TargetDesc) (argNode : GenTree)
  (s : LinearScan) : Prop :=
  exists k src,
    AsPutArgSplit argNode = Some k
    /\ OperIs argNode GT_PUTARG_SPLIT = true
    /\ gtOp1 argNode = Some src
    /\ (let argMask := splitArgMask (GetRegNum argNode) k in
        argMask = RBM_NONE
        \/ Z.land argMask (availableIntRegs s) <> RBM_NONE
        \/ Z.land argMask (availableFloatRegs s) <> RBM_NONE)
    /\ if OperIs src GT_FIELD_LIST then
         isContained src = true
         /\ exists uses,
             AsFieldList src = Some uses /\ Forall (splitFieldOk tgt) uses
       else
         TypeIs src TYP_STRUCT = true
         /\ isContained src = true
         /\ if OperIs src GT_BLK then AsBlk src <> None /\ gtOp1 src <> None
            else OperIsLocalRead src = true.

(** ** Reasoning about the build monad *)

Lemma bind_inv {A B} (m : M A) (f : A -> M B) s b s2 l :
  bind m f s = Some (b, s2, l) ->
  exists a s1 l1 l2,
    m s = Some (a, s1, l1) /\ f a s1 = Some (b, s2, l2) /\ l = l1 ++ l2.
Proof.
  unfold bind. destruct (m s) as [[[a s1] l1]|]; [|discriminate].
  destruct (f a s1) as [[[b' s2'] l2]|] eqn:E; [|discriminate].
  intros H. inversion H; subst. exists a, s1, l1, l2. auto.
Qed.

Lemma ret_inv {A} (a : A) s b s' l :
  ret a s = Some (b, s', l) -> b = a /\ s' = s /\ l = [].
Proof. unfold ret. intros H. inversion H. auto. Qed.

Lemma assert_inv b s u s' l :
  assert b s = Some (u, s', l) -> b = true /\ s' = s /\ l = [].
Proof.
  unfold assert, ret, abort. destruct b; [|discriminate].
  intros H. inversion H. auto.
Qed.

Lemma emit_inv r s u s' l :
  emit r s = Some (u, s', l) -> s' = s /\ l = [r].
Proof. unfold emit. intros H. inversion H. auto. Qed.

Lemma modify_inv f s u s' l :
  modify f s = Some (u, s', l) -> s' = f s /\ l = [].
Proof. unfold modify. intros H. inversion H. auto. Qed.

Lemma getState_inv s a s' l :
  getState s = Some (a, s', l) -> a = s /\ s' = s /\ l = [].
Proof. unfold getState. intros H. inversion H. auto. Qed.

Lemma deref_inv {A} (o : option A) s a s' l :
  deref o s = Some (a, s', l) -> o = Some a /\ s' = s /\ l = [].
Proof.
  unfold deref, ret, abort. destruct o; [|discriminate].
  intros H. inversion H. auto.
Qed.

Lemma runUses_inv h s n s' l :
  runUses h s = Some (n, s', l) ->
  exists us, h s = Some (n, us) /\ s' = s /\ l = map useRef us.
Proof.
  unfold runUses. destruct (h s) as [[n' us]|]; [|discriminate].
  intros H. inversion H. eauto.
Qed.

Lemma internalUses_inv s u s' l :
  buildInternalRegisterUses s = Some (u, s', l) ->
  s' = s /\
  l = map (fun d => RefTypeInternalUse (fst d) (snd d)
                      (setInternalRegsDelayFree s)) (internalDefs s).
Proof. unfold buildInternalRegisterUses. intros H. inversion H. auto. Qed.

Lemma internalDef_inv t tree c s u s' l :
  (modify (addInternalDef t c) ;; emit (RefTypeInternalDef t tree c)) s
    = Some (u, s', l) ->
  s' = addInternalDef t c s /\ l = [RefTypeInternalDef t tree c].
Proof. unfold bind, modify, emit. intros H. inversion H. auto. Qed.

(** One step of symbolic execution of a completed run. *)
Ltac mstep :=
  match goal with
  | H : abort _ = Some _ |- _ => discriminate H
  | H : unreached _ = Some _ |- _ => discriminate H
  | H : None = Some _ |- _ => discriminate H
  | H : ret _ _ = Some _ |- _ =>
      apply ret_inv in H; destruct H as (? & ? & ?)
  | H : assert _ _ = Some _ |- _ =>
      apply assert_inv in H; destruct H as (? & ? & ?)
  | H : emit _ _ = Some _ |- _ =>
      apply emit_inv in H; destruct H as (? & ?)
  | H : modify _ _ = Some _ |- _ =>
      apply modify_inv in H; destruct H as (? & ?)
  | H : getState _ = Some _ |- _ =>
      apply getState_inv in H; destruct H as (? & ? & ?)
  | H : deref _ _ = Some _ |- _ =>
      apply deref_inv in H; destruct H as (? & ? & ?)
  | H : runUses _ _ = Some _ |- _ =>
      apply runUses_inv in H; destruct H as (? & ? & ? & ?)
  | H : buildInternalRegisterUses _ = Some _ |- _ =>
      apply internalUses_inv in H; destruct H as (? & ?)
  | H : buildInternalIntRegisterDefForNode _ _ _ = Some _ |- _ =>
      apply internalDef_inv in H; destruct H as (? & ?)
  | H : buildInternalFloatRegisterDefForNode _ _ _ = Some _ |- _ =>
      apply internalDef_inv in H; destruct H as (? & ?)
  | H : bind _ _ _ = Some _ |- _ =>
      apply bind_inv in H; destruct H as (? & ? & ? & ? & ? & ? & ?)
  | H : when ?b _ _ = Some _ |- _ =>
      unfold when in H; destruct b eqn:?; try discriminate
  | H : (if ?b then _ else _) _ = Some _ |- _ =>
      destruct b eqn:?; try discriminate
  | H : (match ?o with Some _ => _ | None => _ end) _ = Some _ |- _ =>
      destruct o eqn:?; try discriminate
  | H : BuildUse _ _ _ _ = Some _ |- _ => unfold BuildUse in H
  | H : BuildDef _ _ = Some _ |- _ => unfold BuildDef in H
  | H : BuildDefs _ _ _ _ = Some _ |- _ => unfold BuildDefs in H
  | H : BuildKills _ _ _ = Some _ |- _ => unfold BuildKills in H
  | H : BuildDefWithKills _ _ _ _ = Some _ |- _ => unfold BuildDefWithKills in H
  | H : BuildCallDefsWithKills _ _ _ _ _ = Some _ |- _ =>
      unfold BuildCallDefsWithKills in H
  | H : newFixedRegRefPosition _ _ _ = Some _ |- _ =>
      unfold newFixedRegRefPosition in H
  | H : MarkAsyncContinuationBusyForCall _ _ = Some _ |- _ =>
      unfold MarkAsyncContinuationBusyForCall in H
  | H : MarkSwiftErrorBusyForCall _ _ = Some _ |- _ =>
      unfold MarkSwiftErrorBusyForCall in H
  end; cbv beta in *.

Ltac mrun := repeat (mstep; subst).

(** The measures distribute over what a run appends. *)
Lemma count_app p l1 l2 : count p (l1 ++ l2) = count p l1 + count p l2.
Proof. unfold count. rewrite filter_app, length_app. lia. Qed.

Lemma count_nil p : count p [] = 0.
Proof. reflexivity. Qed.

Lemma count_cons p r l :
  count p (r :: l) = (if p r then 1 else 0) + count p l.
Proof. unfold count. simpl. destruct (p r); simpl length; lia. Qed.

Lemma useCountOf_uses us : useCountOf (map useRef us) = Z.of_nat (length us).
Proof.
  unfold useCountOf, count. induction us as [|u us IH]; simpl; [reflexivity|].
  simpl length. lia.
Qed.

Lemma internalCountOf_uses t us : internalCountOf t (map useRef us) = 0.
Proof.
  unfold internalCountOf, count. induction us as [|u us IH]; simpl; auto.
Qed.

Lemma useCountOf_internalUses b l :
  useCountOf
    (map (fun d : RegisterType * SingleTypeRegSet =>
            RefTypeInternalUse (fst d) (snd d) b) l) = 0.
Proof. unfold useCountOf, count. induction l; simpl; auto. Qed.

Lemma internalCountOf_internalUses t b l :
  internalCountOf t
    (map (fun d : RegisterType * SingleTypeRegSet =>
            RefTypeInternalUse (fst d) (snd d) b) l) = 0.
Proof. unfold internalCountOf, count. induction l; simpl; auto. Qed.

Ltac count_simpl :=
  unfold useCountOf, internalCountOf in *;
  repeat (rewrite ?count_app, ?count_cons, ?count_nil;
          fold (useCountOf) (internalCountOf) in *;
          rewrite ?useCountOf_uses, ?internalCountOf_uses,
            ?internalCountOf_internalUses, ?useCountOf_internalUses;
          unfold useCountOf, internalCountOf in *);
  cbn [isUse isInternalDef].

(** What a loop appends is what its iterations append. *)
Lemma foldM_useCount {A} (body : Z -> A -> M Z) :
  (forall acc x s a s' l,
      body acc x s = Some (a, s', l) -> useCountOf l = a - acc) ->
  forall xs acc s a s' l,
    foldM body xs acc s = Some (a, s', l) -> useCountOf l = a - acc.
Proof.
  intros Hbody. induction xs as [|x xs IH]; simpl; intros acc s a s' l H.
  - mrun. count_simpl. lia.
  - mrun. apply Hbody in H. apply IH in H0. count_simpl.
    unfold useCountOf in *. lia.
Qed.

Lemma foldM_noUses {A S} (body : S -> A -> M S) :
  (forall acc x s a s' l,
      body acc x s = Some (a, s', l) -> useCountOf l = 0) ->
  forall xs acc s a s' l,
    foldM body xs acc s = Some (a, s', l) -> useCountOf l = 0.
Proof.
  intros Hbody. induction xs as [|x xs IH]; simpl; intros acc s a s' l H.
  - mrun. reflexivity.
  - mrun. apply Hbody in H. apply IH in H0. count_simpl.
    unfold useCountOf in *. lia.
Qed.

Lemma forEach_noUses {A} (body : A -> M unit) :
  (forall x s a s' l, body x s = Some (a, s', l) -> useCountOf l = 0) ->
  forall xs s a s' l,
    forEach xs body s = Some (a, s', l) -> useCountOf l = 0.
Proof.
  intros Hbody. induction xs as [|x xs IH]; simpl; intros s a s' l H.
  - mrun. reflexivity.
  - mrun. apply Hbody in H. apply IH in H0. count_simpl.
    unfold useCountOf in *. lia.
Qed.

(** Register sets as bit vectors. *)
Ltac zbits :=
  apply Z.bits_inj'; intros ?n ?Hn;
  repeat (rewrite ?Z.land_spec, ?Z.lor_spec, ?Z.bits_0;
          rewrite ?Z.lnot_spec by assumption);
  repeat match goal with
    | |- context [Z.testbit ?a ?n] => destruct (Z.testbit a n)
    end; reflexivity.

Lemma regset_diff_disjoint_l a b c :
  Z.land (Z.land a (Z.lnot (Z.lor b c))) b = 0.
Proof. zbits. Qed.

Lemma regset_diff_disjoint_r a b c :
  Z.land (Z.land a (Z.lnot (Z.lor b c))) c = 0.
Proof. zbits. Qed.

Lemma genSingleTypeRegMask_nonzero r :
  0 <= r -> genSingleTypeRegMask r <> RBM_NONE.
Proof.
  intros Hr. unfold genSingleTypeRegMask, RBM_NONE.
  rewrite Z.shiftl_1_l. pose proof (Z.pow_pos_nonneg 2 r). lia.
Qed.

Lemma count_uses p us :
  (forall u, p (useRef u) = false) -> count p (map useRef us) = 0.
Proof.
  intros Hp. unfold count. induction us as [|u us IH]; simpl; auto.
  rewrite Hp. exact IH.
Qed.

Lemma count_internalUses p b l :
  (forall t c, p (RefTypeInternalUse t c b) = false) ->
  count p (map (fun d : RegisterType * SingleTypeRegSet =>
                  RefTypeInternalUse (fst d) (snd d) b) l) = 0.
Proof.
  intros Hp. unfold count. induction l as [|d l IH]; simpl; auto.
  rewrite Hp. exact IH.
Qed.

Section BuilderFacts.

Variable tgt : TargetDesc.
Variable compiler : Compiler.
Variable shared : SharedBuilders.

(** *** The blocks that only reserve registers create no use *)

Ltac no_uses := intros; mrun; count_simpl; try reflexivity; try lia.

Lemma BuildIndir_unaligned_noUses t s a s' l :
  BuildIndir_unaligned t s = Some (a, s', l) -> useCountOf l = 0.
Proof. unfold BuildIndir_unaligned. no_uses. Qed.

Lemma BuildIndir_addrMode_noUses t addr s a s' l :
  BuildIndir_addrMode tgt t addr s = Some (a, s', l) -> useCountOf l = 0.
Proof. unfold BuildIndir_addrMode. no_uses. Qed.

Lemma BuildIndir_simd12_noUses t addr s a s' l :
  BuildIndir_simd12 t addr s = Some (a, s', l) -> useCountOf l = 0.
Proof. unfold BuildIndir_simd12. no_uses. Qed.

Lemma BuildCall_ctrlExpr_inv c s e s' l :
  BuildCall_ctrlExpr c s = Some (e, s', l) ->
  s' = s /\ l = [] /\
  e = (if gtCallTypes_eqb (gtCallType c) CT_INDIRECT
       then gtCallAddr c else gtControlExpr c).
Proof.
  unfold BuildCall_ctrlExpr. intros H.
  destruct (gtCallTypes_eqb (gtCallType c) CT_INDIRECT); mrun; auto.
Qed.

Lemma BuildCall_target_noUses call c e s a s' l :
  BuildCall_target tgt compiler call c e s = Some (a, s', l) ->
  useCountOf l = 0.
Proof. unfold BuildCall_target. no_uses. Qed.

Lemma BuildCall_ctrlExprUse_useCount call c e cands n0 s n s' l :
  BuildCall_ctrlExprUse tgt compiler call c e cands n0 s = Some (n, s', l) ->
  useCountOf l = n - n0.
Proof. unfold BuildCall_ctrlExprUse. no_uses. Qed.

Lemma BuildCall_defsAndKills_noUses call c s a s' l :
  BuildCall_defsAndKills tgt compiler call c s = Some (a, s', l) ->
  useCountOf l = 0.
Proof. unfold BuildCall_defsAndKills. no_uses. Qed.

Lemma BuildPutArgStk_field_useCount acc use s a s' l :
  BuildPutArgStk_field tgt acc use s = Some (a, s', l) ->
  useCountOf l = a - acc.
Proof. unfold BuildPutArgStk_field. no_uses. Qed.

Lemma BuildPutArgSplit_argMask_noUses argReg k s a s' l :
  BuildPutArgSplit_argMask argReg k s = Some (a, s', l) -> useCountOf l = 0.
Proof.
  unfold BuildPutArgSplit_argMask. apply foldM_noUses. no_uses.
Qed.

Lemma BuildPutArgSplit_reg_useCount argReg k node acc i s a s' l :
  BuildPutArgSplit_reg argReg k node acc i s = Some (a, s', l) ->
  useCountOf l = a - acc.
Proof. unfold BuildPutArgSplit_reg. no_uses. Qed.

Lemma BuildPutArgSplit_field_useCount argReg k acc use s a s' l :
  BuildPutArgSplit_field tgt argReg k acc use s = Some (a, s', l) ->
  useCountOf l = a - acc.
Proof.
  unfold BuildPutArgSplit_field, BuildPutArgSplit_regCount. intros H. mrun.
  all: match goal with
       | H : foldM _ _ _ _ = Some _ |- _ =>
           apply (foldM_useCount _ (BuildPutArgSplit_reg_useCount _ _ _)) in H
       end; count_simpl; unfold useCountOf in *; lia.
Qed.

Lemma BuildBlockStore_init_noUses blk dst src sz k s a s' l :
  BuildBlockStore_init tgt compiler blk dst src sz k s = Some (a, s', l) ->
  useCountOf l = 0.
Proof. unfold BuildBlockStore_init. destruct k; no_uses. Qed.

Lemma BuildBlockStore_copy_noUses blk dst src sz k s a s' l :
  BuildBlockStore_copy tgt compiler blk dst src sz k s = Some (a, s', l) ->
  useCountOf l = 0.
Proof.
  unfold BuildBlockStore_copy, BuildBlockStore_CpObjUnroll,
    BuildBlockStore_Unroll, BuildBlockStore_UnrollMemmove, forUpTo.
  destruct k; intros H; mrun; count_simpl; try reflexivity; try lia.
  all: match goal with
       | H : forEach _ _ _ = Some _ |- _ =>
           apply forEach_noUses in H; [unfold useCountOf in *; lia|]
       end; no_uses.
Qed.

Lemma BuildBlockStore_addrUse_useCount
  (Hcount : SharedBuildersCountUses shared) addr m n0 s n s' l :
  BuildBlockStore_addrUse shared addr m n0 s = Some (n, s', l) ->
  useCountOf l = n - n0.
Proof.
  destruct Hcount as (_ & _ & HA & _ & _).
  unfold BuildBlockStore_addrUse. intros H. mrun; count_simpl; try lia.
  match goal with H : BuildAddrUses _ _ _ _ = Some _ |- _ =>
    apply HA in H end. lia.
Qed.

(** *** Each builder returns the number of uses it created *)

Hypothesis helpersCount : SharedBuildersCountUses shared.

Ltac helper_counts :=
  destruct helpersCount as (HI & HO & HA & HC & HCA);
  repeat match goal with
    | H : BuildIndirUses _ _ _ _ = Some _ |- _ => apply HI in H
    | H : BuildOperandUses _ _ _ _ = Some _ |- _ => apply HO in H
    | H : BuildAddrUses _ _ _ _ = Some _ |- _ => apply HA in H
    | H : BuildCastUses _ _ _ _ = Some _ |- _ => apply HC in H
    | H : BuildCallArgUses _ _ _ = Some _ |- _ => apply HCA in H
    end.

Ltac phase_counts :=
  repeat match goal with
    | H : BuildIndir_unaligned _ _ = Some _ |- _ =>
        apply BuildIndir_unaligned_noUses in H
    | H : BuildIndir_addrMode _ _ _ _ = Some _ |- _ =>
        apply BuildIndir_addrMode_noUses in H
    | H : BuildIndir_simd12 _ _ _ = Some _ |- _ =>
        apply BuildIndir_simd12_noUses in H
    | H : BuildCall_target _ _ _ _ _ _ = Some _ |- _ =>
        apply BuildCall_target_noUses in H
    | H : BuildCall_ctrlExprUse _ _ _ _ _ _ _ _ = Some _ |- _ =>
        apply BuildCall_ctrlExprUse_useCount in H
    | H : BuildCall_defsAndKills _ _ _ _ _ = Some _ |- _ =>
        apply BuildCall_defsAndKills_noUses in H
    | H : BuildCall_ctrlExpr _ _ = Some _ |- _ =>
        apply BuildCall_ctrlExpr_inv in H; destruct H as (? & ? & ?)
    | H : foldM (BuildPutArgStk_field _) _ _ _ = Some _ |- _ =>
        apply (foldM_useCount _ (BuildPutArgStk_field_useCount)) in H
    | H : foldM (BuildPutArgSplit_field _ _ _) _ _ _ = Some _ |- _ =>
        apply (foldM_useCount _ (BuildPutArgSplit_field_useCount _ _)) in H
    | H : BuildPutArgSplit_argMask _ _ _ = Some _ |- _ =>
        apply BuildPutArgSplit_argMask_noUses in H
    | H : BuildBlockStore_init _ _ _ _ _ _ _ _ = Some _ |- _ =>
        apply BuildBlockStore_init_noUses in H
    | H : BuildBlockStore_copy _ _ _ _ _ _ _ _ = Some _ |- _ =>
        apply BuildBlockStore_copy_noUses in H
    | H : BuildBlockStore_addrUse _ _ _ _ _ = Some _ |- _ =>
        apply (BuildBlockStore_addrUse_useCount helpersCount) in H
    end.

Ltac builder_count :=
  intros H; mrun; phase_counts; subst; helper_counts; count_simpl;
  unfold useCountOf in *; lia.

Lemma BuildIndir_useCount t s n s' evs :
  BuildIndir tgt shared t s = Some (n, s', evs) -> useCountOf evs = n.
Proof. unfold BuildIndir. builder_count. Qed.

Lemma BuildCall_useCount t s n s' evs :
  BuildCall tgt compiler shared t s = Some (n, s', evs) -> useCountOf evs = n.
Proof. unfold BuildCall. builder_count. Qed.

Lemma BuildPutArgStk_useCount t s n s' evs :
  BuildPutArgStk tgt compiler shared t s = Some (n, s', evs) ->
  useCountOf evs = n.
Proof. unfold BuildPutArgStk. builder_count. Qed.

Lemma BuildPutArgSplit_useCount t s n s' evs :
  BuildPutArgSplit tgt shared t s = Some (n, s', evs) -> useCountOf evs = n.
Proof. unfold BuildPutArgSplit. builder_count. Qed.

Lemma BuildBlockStore_useCount t s n s' evs :
  BuildBlockStore tgt compiler shared t s = Some (n, s', evs) ->
  useCountOf evs = n.
Proof. unfold BuildBlockStore. builder_count. Qed.

Lemma BuildCast_useCount t s n s' evs :
  BuildCast tgt shared t s = Some (n, s', evs) -> useCountOf evs = n.
Proof. unfold BuildCast. builder_count. Qed.

Lemma BuildSelect_useCount t s n s' evs :
  BuildSelect shared t s = Some (n, s', evs) -> useCountOf evs = n.
Proof. unfold BuildSelect. builder_count. Qed.

(** *** The phases of BuildCall *)

Lemma BuildCall_target_fastTail call c e s cands s' l :
  BuildCall_target tgt compiler call c (Some e) s = Some (cands, s', l) ->
  IsFastTailCall c = true ->
  cands = fastTailCallCandidates tgt compiler s /\ cands <> RBM_NONE.
Proof.
  unfold BuildCall_target. intros H Hfast. rewrite Hfast in H. mrun.
  all: split; [reflexivity|];
    match goal with
    | H : negb (_ =? _) = true |- _ =>
        apply negb_true_iff, Z.eqb_neq in H; exact H
    end.
Qed.

Lemma BuildCall_target_footprint call c e s cands s' l :
  BuildCall_target tgt compiler call c e s = Some (cands, s', l) ->
  availableIntRegs s' = availableIntRegs s
  /\ count isDefOrKill l = 0 /\ count isAsyncContinuationBusy l = 0.
Proof.
  unfold BuildCall_target. intros H. mrun; count_simpl; auto.
Qed.

Lemma BuildCall_ctrlExprUse_some call c e cands n0 s n s' l :
  BuildCall_ctrlExprUse tgt compiler call c (Some e) cands n0 s
    = Some (n, s', l) ->
  s' = s /\ n = n0 + 1 /\
  l = (if isTlsGetAddrSequence tgt compiler c e
       then [RefTypeFixedReg REG_R0 (genSingleTypeRegMask REG_R0);
             RefTypeFixedReg REG_R1 (genSingleTypeRegMask REG_R1)]
       else [])
      ++ [RefTypeUse e (if isTlsGetAddrSequence tgt compiler c e
                        then genSingleTypeRegMask REG_R2 else cands) 0].
Proof.
  unfold BuildCall_ctrlExprUse. intros H.
  destruct (isTlsGetAddrSequence tgt compiler c e); mrun; auto.
Qed.

Lemma BuildCall_ctrlExprUse_footprint call c e cands n0 s n s' l :
  BuildCall_ctrlExprUse tgt compiler call c e cands n0 s = Some (n, s', l) ->
  s' = s /\ count isDefOrKill l = 0 /\ count isAsyncContinuationBusy l = 0.
Proof.
  unfold BuildCall_ctrlExprUse. intros H. mrun; count_simpl; auto.
Qed.

Lemma BuildCall_defsAndKills_inv call c s a s' l :
  BuildCall_defsAndKills tgt compiler call c s = Some (a, s', l) ->
  s' = s /\ l = [callDefsAndKills tgt compiler call c].
Proof.
  unfold BuildCall_defsAndKills, callDefsAndKills. intros H.
  destruct (0 <? BuildCall_dstCount call c);
    [destruct (BuildCall_hasMultiRegRetVal call c)|]; mrun; auto.
Qed.

(** A completed [BuildCall], phase by phase. *)
Lemma BuildCall_inv call s n s' evs :
  BuildCall tgt compiler shared call s = Some (n, s', evs) ->
  exists c cands s1 l1 argN argUses l2,
    AsCall call = Some c
    /\ BuildCall_target tgt compiler call c (callTarget c) s
        = Some (cands, s1, l1)
    /\ BuildCallArgUses shared call s1 = Some (argN, argUses)
    /\ BuildCall_ctrlExprUse tgt compiler call c (callTarget c) cands argN s1
        = Some (n, s1, l2)
    /\ evs = l1 ++ map useRef argUses ++ l2
             ++ map (fun d => RefTypeInternalUse (fst d) (snd d)
                                (setInternalRegsDelayFree s1))
                    (internalDefs s1)
             ++ (if markAsyncCondition compiler c
                 then [RefAsyncContinuationBusy call] else [])
             ++ [callDefsAndKills tgt compiler call c]
             ++ (if SWIFT_SUPPORT tgt && HasSwiftErrorHandling c
                 then [RefSwiftErrorBusy call] else [])
    /\ s' = withNumPlacedArgLocals 0 (withPlacedArgRegs RBM_NONE s1).
Proof.
  unfold BuildCall. intros H.
  apply bind_inv in H. destruct H as (c & s0 & l0 & lr & Hc & H & ->).
  apply deref_inv in Hc. destruct Hc as (Hc & -> & ->).
  apply bind_inv in H. destruct H as (e & s0 & l0 & lr0 & He & H & ->).
  apply BuildCall_ctrlExpr_inv in He. destruct He as (-> & -> & He).
  fold (callTarget c) in He. subst e.
  apply bind_inv in H. destruct H as (cands & s1 & l1 & lr1 & Ht & H & ->).
  apply bind_inv in H. destruct H as (argN & s2 & l2 & lr2 & Ha & H & ->).
  apply runUses_inv in Ha. destruct Ha as (argUses & Ha & -> & ->).
  apply bind_inv in H. destruct H as (n' & s3 & l3 & lr3 & Hu & H & ->).
  pose proof (BuildCall_ctrlExprUse_footprint _ _ _ _ _ _ _ _ _ Hu) as (-> & _).
  exists c, cands, s1, l1, argN, argUses, l3.
  fold (markAsyncCondition compiler c) in H.
  destruct (markAsyncCondition compiler c), (SWIFT_SUPPORT tgt),
    (HasSwiftErrorHandling c); mrun;
    repeat match goal with
      | H : BuildCall_defsAndKills _ _ _ _ _ = Some _ |- _ =>
          apply BuildCall_defsAndKills_inv in H; destruct H as (-> & ->)
      end;
    repeat split; auto; simpl; rewrite ?app_nil_r; reflexivity.
Qed.

(** C2.  When the build of a call node completes -- whatever the call type,
    tail call or not, and on every path through the builder -- the cross-call
    placement state is empty: [placedArgRegs] holds no register and
    [numPlacedArgLocals] is zero. *)
Theorem BuildCall_clears_placement_state call s n s' evs :
  BuildCall tgt compiler shared call s = Some (n, s', evs) ->
  placedArgRegs s' = RBM_NONE /\ numPlacedArgLocals s' = 0.
Proof.
  intros H. apply BuildCall_inv in H.
  destruct H as (c & cands & s1 & l1 & argN & argUses & l2 & _ & _ & _ & _ & _ & ->).
  split; reflexivity.
Qed.

(** C10.  [MarkAsyncContinuationBusyForCall] is performed by a completed
    [BuildCall] exactly when the call is async, the method is compiled as
    async and the call is not a fast tail call (once in that case, never
    otherwise); for a fast tail call it is never performed. *)
Theorem BuildCall_async_mark call c s n s' evs :
  BuildCall tgt compiler shared call s = Some (n, s', evs) ->
  AsCall call = Some c ->
  count isAsyncContinuationBusy evs
    = (if IsAsync c && compIsAsync compiler && negb (IsFastTailCall c)
       then 1 else 0)
  /\ (IsFastTailCall c = true -> count isAsyncContinuationBusy evs = 0)
  /\ (0 < count isAsyncContinuationBusy evs ->
      IsAsync c = true /\ compIsAsync compiler = true
      /\ IsFastTailCall c = false).
Proof.
  intros H Hc. apply BuildCall_inv in H.
  destruct H as (c' & cands & s1 & l1 & argN & argUses & l2
                 & Hc' & Ht & Ha & Hu & -> & ->).
  rewrite Hc in Hc'. inversion Hc'; subst c'. clear Hc'.
  apply BuildCall_target_footprint in Ht. destruct Ht as (_ & _ & Ht).
  apply BuildCall_ctrlExprUse_footprint in Hu. destruct Hu as (_ & _ & Hu).
  assert (Hcount :
    count isAsyncContinuationBusy
      (l1 ++ map useRef argUses ++ l2
       ++ map (fun d => RefTypeInternalUse (fst d) (snd d)
                          (setInternalRegsDelayFree s1)) (internalDefs s1)
       ++ (if markAsyncCondition compiler c then [RefAsyncContinuationBusy call] else [])
       ++ [callDefsAndKills tgt compiler call c]
       ++ (if SWIFT_SUPPORT tgt && HasSwiftErrorHandling c
           then [RefSwiftErrorBusy call] else []))
    = if markAsyncCondition compiler c then 1 else 0).
  { rewrite !count_app, Ht, Hu.
    rewrite count_uses, count_internalUses by reflexivity.
    assert (Hd : isAsyncContinuationBusy (callDefsAndKills tgt compiler call c) = false).
    { unfold callDefsAndKills.
      destruct (0 <? BuildCall_dstCount call c);
        [destruct (BuildCall_hasMultiRegRetVal call c)|]; reflexivity. }
    rewrite count_cons, Hd, count_nil.
    destruct (markAsyncCondition compiler c), (SWIFT_SUPPORT tgt && HasSwiftErrorHandling c);
      reflexivity. }
  rewrite Hcount. unfold markAsyncCondition.
  split; [reflexivity|]. split.
  - intros ->. rewrite andb_false_r. reflexivity.
  - destruct (IsAsync c), (compIsAsync compiler), (IsFastTailCall c);
      simpl; intros; auto; lia.
Qed.

(** C7.  The destination count of a call is the return descriptor's register
    count for a multi-register return value, 1 for any other non-void value
    and 0 for a void call.  In the RefPositions of a completed [BuildCall]
    one record carries the kill set: it comes after every use and every
    internal-register record (only the Swift error mark may follow it), it is
    a definition combined with the kills when the destination count is
    positive, and the kills alone when the count is zero. *)
Theorem BuildCall_defs_and_kills call c s n s' evs :
  BuildCall tgt compiler shared call s = Some (n, s', evs) ->
  AsCall call = Some c ->
  let dstCount := BuildCall_dstCount call c in
  let killMask := getKillSetForCall compiler call in
  (TypeIs call TYP_VOID = true -> dstCount = 0)
  /\ (TypeIs call TYP_VOID = false -> HasMultiRegRetVal c = true ->
      dstCount = GetReturnRegCount c)
  /\ (TypeIs call TYP_VOID = false -> HasMultiRegRetVal c = false ->
      dstCount = 1)
  /\ exists before r after,
      evs = before ++ [r] ++ after
      /\ count isDefOrKill before = 0
      /\ (after = [] \/ after = [RefSwiftErrorBusy call])
      /\ (0 < dstCount ->
          (HasMultiRegRetVal c = true ->
           r = RefTypeCallDefsWithKills call dstCount (GetABIReturnRegs c)
                 killMask)
          /\ (HasMultiRegRetVal c = false ->
              r = RefTypeDefWithKills call
                    (BuildCall_singleDstCandidates tgt call c) killMask))
      /\ (dstCount = 0 -> r = RefTypeKill call killMask).
Proof.
  intros H Hc dstCount killMask. apply BuildCall_inv in H.
  destruct H as (c' & cands & s1 & l1 & argN & argUses & l2
                 & Hc' & Ht & Ha & Hu & -> & ->).
  rewrite Hc in Hc'. inversion Hc'; subst c'. clear Hc'.
  apply BuildCall_target_footprint in Ht. destruct Ht as (_ & Ht & _).
  apply BuildCall_ctrlExprUse_footprint in Hu. destruct Hu as (_ & Hu & _).
  subst dstCount. unfold BuildCall_dstCount.
  split; [intros ->; reflexivity|].
  split; [intros -> ->; reflexivity|].
  split; [intros -> ->; reflexivity|].
  exists (l1 ++ map useRef argUses ++ l2
          ++ map (fun d => RefTypeInternalUse (fst d) (snd d)
                             (setInternalRegsDelayFree s1)) (internalDefs s1)
          ++ (if markAsyncCondition compiler c
              then [RefAsyncContinuationBusy call] else [])),
    (callDefsAndKills tgt compiler call c),
    (if SWIFT_SUPPORT tgt && HasSwiftErrorHandling c
     then [RefSwiftErrorBusy call] else []).
  split; [rewrite <- !app_assoc; reflexivity|].
  split.
  { rewrite !count_app, Ht, Hu.
    rewrite count_uses, count_internalUses by reflexivity.
    destruct (markAsyncCondition compiler c); reflexivity. }
  split; [destruct (SWIFT_SUPPORT tgt && HasSwiftErrorHandling c); auto|].
  unfold callDefsAndKills, BuildCall_hasMultiRegRetVal, BuildCall_dstCount.
  fold killMask.
  split.
  - intros Hpos. apply Z.ltb_lt in Hpos. rewrite Hpos.
    destruct (negb (TypeIs call TYP_VOID)); [|discriminate Hpos].
    split; intros ->; reflexivity.
  - intros ->. reflexivity.
Qed.

Lemma fastTailCallCandidates_volatile s :
  let cands := fastTailCallCandidates tgt compiler s in
  Z.land cands (Z.lnot (GetIntRegSet (RBM_INT_CALLEE_TRASH tgt))) = 0
  /\ Z.land cands (SRBM_LR tgt) = 0
  /\ (getNeedsGSSecurityCookie compiler = true ->
      Z.land cands (genSingleTypeRegMask (REG_GSCOOKIE_TMP_0 tgt)) = 0
      /\ Z.land cands (genSingleTypeRegMask (REG_GSCOOKIE_TMP_1 tgt)) = 0).
Proof.
  unfold fastTailCallCandidates, GetIntRegSet, getLow.
  destruct (getNeedsGSSecurityCookie compiler).
  - repeat split; try (intros _; split); zbits.
  - repeat split; try discriminate; zbits.
Qed.

(** C6.  When a completed [BuildCall] has a call target (control expression,
    or call address of an indirect call) and the call is a fast tail call,
    the use created for the target -- the last use of the node -- has
    candidates inside the integer caller-trashed registers, without the link
    register, without both stack-cookie temporaries when the GS cookie is
    needed, and never empty.  Outside the NativeAOT TLS sequence the
    candidates are exactly
    [allRegs(TYP_INT) & RBM_INT_CALLEE_TRASH & ~SRBM_LR] less the cookie
    temporaries; in that sequence (ARM64 only) they are the one register x2,
    of which the target description is assumed to say that it is such a
    register. *)
Theorem BuildCall_fast_tail_call_target call c e s n s' evs :
  (isArm64 (TARGET tgt) = true -> tlsTargetRegIsVolatile tgt) ->
  BuildCall tgt compiler shared call s = Some (n, s', evs) ->
  AsCall call = Some c ->
  callTarget c = Some e ->
  IsFastTailCall c = true ->
  exists before cands after,
    evs = before ++ [RefTypeUse e cands 0] ++ after
    /\ useCountOf after = 0
    /\ (isTlsGetAddrSequence tgt compiler c e = false ->
        cands = fastTailCallCandidates tgt compiler s)
    /\ Z.land cands (Z.lnot (GetIntRegSet (RBM_INT_CALLEE_TRASH tgt))) = 0
    /\ Z.land cands (SRBM_LR tgt) = 0
    /\ (getNeedsGSSecurityCookie compiler = true ->
        Z.land cands (genSingleTypeRegMask (REG_GSCOOKIE_TMP_0 tgt)) = 0
        /\ Z.land cands (genSingleTypeRegMask (REG_GSCOOKIE_TMP_1 tgt)) = 0)
    /\ cands <> RBM_NONE.
Proof.
  intros Htls H Hc He Hfast. apply BuildCall_inv in H.
  destruct H as (c' & cands & s1 & l1 & argN & argUses & l2
                 & Hc' & Ht & Ha & Hu & -> & ->).
  rewrite Hc in Hc'. inversion Hc'; subst c'. clear Hc'.
  rewrite He in Ht, Hu.
  apply BuildCall_target_fastTail in Ht; [|exact Hfast].
  destruct Ht as (-> & Hne).
  apply BuildCall_ctrlExprUse_some in Hu. destruct Hu as (_ & _ & ->).
  pose proof (fastTailCallCandidates_volatile s) as (Hsub & Hlr & Hgs).
  exists (l1 ++ map useRef argUses
          ++ (if isTlsGetAddrSequence tgt compiler c e
              then [RefTypeFixedReg REG_R0 (genSingleTypeRegMask REG_R0);
                    RefTypeFixedReg REG_R1 (genSingleTypeRegMask REG_R1)]
              else [])),
    (if isTlsGetAddrSequence tgt compiler c e
     then genSingleTypeRegMask REG_R2
     else fastTailCallCandidates tgt compiler s),
    (map (fun d => RefTypeInternalUse (fst d) (snd d)
                     (setInternalRegsDelayFree s1)) (internalDefs s1)
     ++ (if markAsyncCondition compiler c then [RefAsyncContinuationBusy call] else [])
     ++ [callDefsAndKills tgt compiler call c]
     ++ (if SWIFT_SUPPORT tgt && HasSwiftErrorHandling c
         then [RefSwiftErrorBusy call] else [])).
  split; [rewrite <- !app_assoc; reflexivity|].
  split.
  { assert (Hd : isUse (callDefsAndKills tgt compiler call c) = false).
    { unfold callDefsAndKills.
      destruct (0 <? BuildCall_dstCount call c);
        [destruct (BuildCall_hasMultiRegRetVal call c)|]; reflexivity. }
    unfold useCountOf. rewrite !count_app, count_cons, Hd.
    rewrite count_internalUses by reflexivity.
    destruct (markAsyncCondition compiler c),
      (SWIFT_SUPPORT tgt && HasSwiftErrorHandling c); reflexivity. }
  destruct (isTlsGetAddrSequence tgt compiler c e) eqn:Etls.
  - unfold isTlsGetAddrSequence in Etls. apply andb_true_iff in Etls.
    destruct Etls as (Harm64 & _).
    destruct (Htls Harm64) as (H1 & H2 & H3 & H4).
    split; [discriminate|]. repeat split; auto.
    apply genSingleTypeRegMask_nonzero. unfold REG_R2. lia.
  - split; [reflexivity|]. repeat split; auto; apply Hgs; assumption.
Qed.

(** *** BuildIndir: the scratch register of a contained address mode *)

Lemma BuildIndir_addrMode_lea indirTree addr offset s a s' l :
  BuildIndir_addrMode tgt indirTree addr s = Some (a, s', l) ->
  isContained addr = true ->
  OperIs addr GT_LEA = true ->
  AsAddrMode addr = Some offset ->
  l = if (isSome (gtOp2 addr) && negb (toInt32 offset =? 0))
         || negb (emitIns_valid_imm_for_ldst_offset tgt (toInt32 offset)
                    (emitTypeSize tgt (TypeGet indirTree)))
      then [RefTypeInternalDef IntRegisterType indirTree RBM_NONE]
      else [].
Proof.
  unfold BuildIndir_addrMode. intros H Hc Hlea Hoff.
  rewrite Hc, Hlea in H. unfold when in H.
  apply bind_inv in H. destruct H as (o & s0 & l0 & lr & Ho & H & ->).
  apply deref_inv in Ho. destruct Ho as (Ho & -> & ->).
  rewrite Hoff in Ho. inversion Ho; subst o. clear Ho.
  destruct (isSome (gtOp2 addr) && negb (toInt32 offset =? 0)); simpl.
  - mrun. reflexivity.
  - destruct (negb (emitIns_valid_imm_for_ldst_offset tgt (toInt32 offset)
                      (emitTypeSize tgt (TypeGet indirTree)))); mrun; reflexivity.
Qed.

(** C3.  In a completed [BuildIndir] whose address is a contained [GT_LEA]
    with index [index] and offset [cns], the RefPositions are
    [before ++ rule ++ after], where [before] comes from the unaligned-access
    block, and [rule], what the address-mode block creates, is at most one
    scratch integer register: exactly one when the index is present and the
    offset is nonzero; when at most one of the two is present, one exactly
    when the offset is not a valid load/store immediate for the access size,
    none otherwise; and none when there is neither index nor offset, zero
    being encodable. *)
Theorem BuildIndir_addr_mode_scratch indirTree addr offset s n s' evs :
  BuildIndir tgt shared indirTree s = Some (n, s', evs) ->
  gtOp1 indirTree = Some addr ->
  isContained addr = true ->
  OperIs addr GT_LEA = true ->
  AsAddrMode addr = Some offset ->
  let index := gtOp2 addr in
  let cns := toInt32 offset in
  let encodable :=
    emitIns_valid_imm_for_ldst_offset tgt cns
      (emitTypeSize tgt (TypeGet indirTree)) in
  let scratch := RefTypeInternalDef IntRegisterType indirTree RBM_NONE in
  exists s0 before s1 rule after,
    when (isArm (TARGET tgt)) (BuildIndir_unaligned indirTree) s
      = Some (tt, s0, before)
    /\ BuildIndir_addrMode tgt indirTree addr s0 = Some (tt, s1, rule)
    /\ evs = before ++ rule ++ after
    /\ (rule = [] \/ rule = [scratch])
    /\ internalCountOf IntRegisterType rule <= 1
    /\ (index <> None -> cns <> 0 -> rule = [scratch])
    /\ (index = None \/ cns = 0 -> (rule = [scratch] <-> encodable = false))
    /\ (index = None -> cns = 0 ->
        emitIns_valid_imm_for_ldst_offset tgt 0
          (emitTypeSize tgt (TypeGet indirTree)) = true ->
        rule = []).
Proof.
  intros H Haddr Hc Hlea Hoff index cns encodable scratch.
  unfold BuildIndir in H.
  apply bind_inv in H. destruct H as (u & s00 & l00 & lr & Ha & H & ->).
  apply assert_inv in Ha. destruct Ha as (_ & -> & ->).
  apply bind_inv in H. destruct H as (addr' & s00 & l00 & lr0 & Ha & H & ->).
  apply deref_inv in Ha. destruct Ha as (Ha & -> & ->).
  rewrite Haddr in Ha. inversion Ha; subst addr'. clear Ha.
  apply bind_inv in H. destruct H as ([] & s0 & before & lr1 & Hb & H & ->).
  apply bind_inv in H. destruct H as ([] & s1 & rule & after & Hr & H & ->).
  exists s0, before, s1, rule, after.
  split; [exact Hb|]. split; [exact Hr|]. split; [reflexivity|].
  pose proof (BuildIndir_addrMode_lea _ _ _ _ _ _ _ Hr Hc Hlea Hoff) as Hrule.
  fold index cns encodable scratch in Hrule.
  assert (Hidx : isSome index = true <-> index <> None).
  { destruct index; simpl; split; congruence. }
  assert (Hcns : negb (cns =? 0) = true <-> cns <> 0).
  { rewrite negb_true_iff. apply Z.eqb_neq. }
  assert (Hboth : isSome index && negb (cns =? 0) = true
                  <-> index <> None /\ cns <> 0).
  { rewrite andb_true_iff, Hidx, Hcns. reflexivity. }
  clear Hidx Hcns.
  split.
  { rewrite Hrule.
    destruct (orb (isSome index && negb (cns =? 0)) (negb encodable)); auto. }
  split.
  { rewrite Hrule.
    destruct (orb (isSome index && negb (cns =? 0)) (negb encodable));
      unfold internalCountOf.
    - rewrite count_cons, count_nil. subst scratch. simpl. lia.
    - rewrite count_nil. lia. }
  split.
  { intros Hi Hn. rewrite Hrule.
    replace (isSome index && negb (cns =? 0)) with true; [reflexivity|].
    symmetry. apply Hboth. auto. }
  assert (Hone : index = None \/ cns = 0 ->
                 isSome index && negb (cns =? 0) = false).
  { intros Hor. apply not_true_is_false. intros E.
    apply Hboth in E. destruct E as (Hi & Hn). destruct Hor; contradiction. }
  split.
  { intros Hor. rewrite Hrule, (Hone Hor). simpl.
    destruct encodable; simpl; split; congruence. }
  intros Hi Hn Hz. rewrite Hrule, (Hone (or_introl Hi)). simpl.
  subst encodable. rewrite Hn, Hz. reflexivity.
Qed.

(** *** The phases of BuildBlockStore *)

Lemma BuildBlockStore_addrUse_footprint addr m n0 s n s' l :
  BuildBlockStore_addrUse shared addr m n0 s = Some (n, s', l) ->
  s' = s /\
  forall p, (forall t c i, p (RefTypeUse t c i) = false) -> count p l = 0.
Proof.
  unfold BuildBlockStore_addrUse. intros H. mrun; split; auto; intros p Hp.
  all: rewrite ?count_app, ?count_cons, ?count_nil, ?Hp; auto.
  rewrite count_uses; [reflexivity|]. intros u. apply Hp.
Qed.

Lemma BuildBlockStore_addrUse_notContained addr m n0 s n s' l :
  BuildBlockStore_addrUse shared addr m n0 s = Some (n, s', l) ->
  isContained addr = false ->
  l = [RefTypeUse addr m 0].
Proof.
  unfold BuildBlockStore_addrUse. intros H Hc. rewrite Hc in H. simpl in H.
  mrun. reflexivity.
Qed.

Lemma BuildBlockStore_addrUse_contained addr m n0 s n s' l :
  BuildBlockStore_addrUse shared addr m n0 s = Some (n, s', l) ->
  isContained addr = true ->
  l = [] \/
  exists base k us,
    gtOp1 addr = Some base
    /\ BuildAddrUses shared base RBM_NONE s = Some (k, us)
    /\ l = map useRef us.
Proof.
  unfold BuildBlockStore_addrUse. intros H Hc. rewrite Hc in H. simpl in H.
  mrun; [right|left; reflexivity].
  do 3 eexists. repeat split; try eassumption.
  simpl. rewrite app_nil_r. reflexivity.
Qed.

Lemma BuildBlockStore_init_locals blk dst src sz k s locals s' l :
  BuildBlockStore_init tgt compiler blk dst src sz k s = Some (locals, s', l) ->
  sizeRegMask locals = RBM_NONE.
Proof. unfold BuildBlockStore_init. intros H. destruct k; mrun; reflexivity. Qed.

Lemma repeat_forEach {A} (xs : list A) (m : M unit) (r : RefPosition) :
  (forall s a s' l, m s = Some (a, s', l) -> l = [r]) ->
  forall s a s' l,
    forEach xs (fun _ => m) s = Some (a, s', l) -> l = repeat r (length xs).
Proof.
  intros Hm. induction xs as [|x xs IH]; simpl; intros s a s' l H.
  - mrun. reflexivity.
  - mrun. apply Hm in H. apply IH in H0. subst. reflexivity.
Qed.

Lemma count_repeat p r k :
  count p (repeat r k) = if p r then Z.of_nat k else 0.
Proof.
  induction k as [|k IH]; simpl repeat.
  - rewrite count_nil. destruct (p r); reflexivity.
  - rewrite count_cons, IH. destruct (p r); lia.
Qed.

Lemma BuildBlockStore_UnrollMemmove_inv blk sz sa s locals s' l :
  BuildBlockStore_UnrollMemmove tgt compiler blk sz sa s
    = Some (locals, s', l) ->
  TARGET tgt = TARGET_ARM64 /\ 0 < sz
  /\ locals = mkBlockStoreLocals sa RBM_NONE RBM_NONE RBM_NONE
  /\ l = memmoveScratch compiler blk sz s.
Proof.
  unfold BuildBlockStore_UnrollMemmove, memmoveScratch, forUpTo. intros H.
  destruct (TARGET tgt) eqn:Et; simpl in H; [mrun|].
  apply bind_inv in H. destruct H as ([] & s0 & l0 & lr & H & Hr & ->).
  apply ret_inv in Hr. destruct Hr as (-> & -> & ->).
  apply bind_inv in H. destruct H as ([] & s1 & l1 & lr1 & Ha & H & ->).
  apply assert_inv in Ha. destruct Ha as (Hpos & -> & ->).
  apply Z.ltb_lt in Hpos.
  repeat split; auto. simpl. rewrite app_nil_r.
  destruct (16 <=? sz).
  - apply (repeat_forEach _ _ (RefTypeInternalDef FloatRegisterType blk
                                 (internalFloatRegCandidates compiler))) in H.
    + rewrite H, length_map, length_seq. reflexivity.
    + intros. mrun. reflexivity.
  - destruct (isPow2 sz); mrun; reflexivity.
Qed.

Lemma BuildBlockStore_CpObjUnroll_inv blk sz sa s locals s' l :
  BuildBlockStore_CpObjUnroll tgt compiler blk sz sa s
    = Some (locals, s', l) ->
  locals = mkBlockStoreLocals sa
             (GetIntRegSet (RBM_WRITE_BARRIER_DST_BYREF tgt))
             (match sa with
              | Some _ => GetIntRegSet (RBM_WRITE_BARRIER_SRC_BYREF tgt)
              | None => RBM_NONE
              end) RBM_NONE
  /\ (forall a, sa = Some a -> isContained a = false)
  /\ l = cpObjScratch tgt compiler blk sz s.
Proof.
  unfold BuildBlockStore_CpObjUnroll, cpObjScratch, cpObjIntCandidates.
  intros H.
  destruct (2 * REGSIZE_BYTES (TARGET tgt) <=? sz),
    ((4 * REGSIZE_BYTES (TARGET tgt) <=? sz)
     && IsBaselineSimdIsaSupported compiler), sa; mrun.
  all: repeat split; auto; try discriminate.
  all: intros a Ha; inversion Ha; subst;
    match goal with
    | H : negb _ = true |- _ => apply negb_true_iff in H; exact H
    end.
Qed.

Lemma BuildBlockStore_Unroll_inv blk dst src sz s locals s' l :
  BuildBlockStore_Unroll tgt compiler blk dst src sz (copySrcAddr src) s
    = Some (locals, s', l) ->
  locals = mkBlockStoreLocals (copySrcAddr src) RBM_NONE RBM_NONE RBM_NONE
  /\ l = unrollScratch tgt compiler blk dst src sz.
Proof.
  unfold BuildBlockStore_Unroll, unrollScratch. intros H.
  destruct (isArm64 (TARGET tgt)),
    (2 * REGSIZE_BYTES (TARGET tgt) <=? sz),
    (2 * FP_REGSIZE_BYTES (TARGET tgt) <=? sz),
    (srcAddrMayNeedReg src (copySrcAddr src) && dstAddrMayNeedReg dst);
    mrun; split; reflexivity.
Qed.

Lemma BuildBlockStore_copy_inv blk dst src sz k s locals s' l :
  BuildBlockStore_copy tgt compiler blk dst src sz k s
    = Some (locals, s', l) ->
  match k with
  | BlkOpKindCpObjUnroll =>
      BuildBlockStore_CpObjUnroll tgt compiler blk sz (copySrcAddr src) s
  | BlkOpKindUnroll =>
      BuildBlockStore_Unroll tgt compiler blk dst src sz (copySrcAddr src) s
  | BlkOpKindUnrollMemmove =>
      BuildBlockStore_UnrollMemmove tgt compiler blk sz (copySrcAddr src) s
  | _ => None
  end = Some (locals, s', l).
Proof.
  unfold BuildBlockStore_copy, copySrcAddr. intros H.
  apply bind_inv in H. destruct H as (sa & s0 & l0 & lr & Hs & H & ->).
  destruct (OperIs src GT_IND).
  - mrun. destruct k; try discriminate H; simpl;
      match goal with E : gtOp1 src = Some _ |- _ => rewrite E end; exact H.
  - mrun. destruct k; try discriminate H; exact H.
Qed.

Lemma BuildBlockStore_copy_locals blk dst src sz k s locals s' l :
  BuildBlockStore_copy tgt compiler blk dst src sz k s
    = Some (locals, s', l) ->
  sizeRegMask locals = RBM_NONE /\ srcAddrOrFill locals = copySrcAddr src.
Proof.
  intros H. apply BuildBlockStore_copy_inv in H. destruct k; try discriminate.
  - apply BuildBlockStore_CpObjUnroll_inv in H. destruct H as (-> & _).
    split; reflexivity.
  - apply BuildBlockStore_Unroll_inv in H. destruct H as (-> & _).
    split; reflexivity.
  - apply BuildBlockStore_UnrollMemmove_inv in H.
    destruct H as (_ & _ & -> & _). split; reflexivity.
Qed.

(** A completed [BuildBlockStore], phase by phase. *)
Lemma BuildBlockStore_inv blkNode s n s' evs :
  BuildBlockStore tgt compiler shared blkNode s = Some (n, s', evs) ->
  exists size kind init dstAddr src locals l1 n1 ldst lsrc,
    AsBlk blkNode = Some (size, kind, init)
    /\ gtOp1 blkNode = Some dstAddr
    /\ gtOp2 blkNode = Some src
    /\ (if init
        then BuildBlockStore_init tgt compiler blkNode dstAddr src size kind
        else BuildBlockStore_copy tgt compiler blkNode dstAddr src size kind) s
       = Some (locals, s', l1)
    /\ BuildBlockStore_addrUse shared dstAddr (dstAddrRegMask locals) 0 s'
       = Some (n1, s', ldst)
    /\ match srcAddrOrFill locals with
       | Some sa =>
           BuildBlockStore_addrUse shared sa (srcRegMask locals) n1 s'
           = Some (n, s', lsrc)
       | None => n = n1 /\ lsrc = []
       end
    /\ evs = l1 ++ ldst ++ lsrc ++ internalUsesOf s'
             ++ [RefTypeKill blkNode (getKillSetForBlockStore compiler blkNode)].
Proof.
  unfold BuildBlockStore. intros H.
  apply bind_inv in H. destruct H as (blk & s0 & l0 & lr & Hb & H & ->).
  apply deref_inv in Hb. destruct Hb as (Hb & -> & ->).
  destruct blk as [[size kind] init]. simpl fst in H. simpl snd in H.
  apply bind_inv in H. destruct H as (dstAddr & s0 & l0 & lr0 & Hd & H & ->).
  apply deref_inv in Hd. destruct Hd as (Hd & -> & ->).
  apply bind_inv in H. destruct H as (src & s0 & l0 & lr1 & Hs & H & ->).
  apply deref_inv in Hs. destruct Hs as (Hs & -> & ->).
  apply bind_inv in H. destruct H as (locals & s1 & l1 & lr2 & Hl & H & ->).
  assert (Hsz : sizeRegMask locals = RBM_NONE).
  { destruct init.
    - eapply BuildBlockStore_init_locals; eassumption.
    - eapply BuildBlockStore_copy_locals; eassumption. }
  rewrite Hsz in H. simpl in H.
  apply bind_inv in H. destruct H as ([] & s2 & l2 & lr3 & Hw & H & ->).
  apply ret_inv in Hw. destruct Hw as (_ & -> & ->).
  apply bind_inv in H. destruct H as (n1 & s2 & ldst & lr4 & Hdst & H & ->).
  pose proof (BuildBlockStore_addrUse_footprint _ _ _ _ _ _ _ Hdst) as (-> & _).
  apply bind_inv in H. destruct H as (n2 & s2 & lsrc & lr5 & Hsrc & H & ->).
  assert (Hs2 : s2 = s1).
  { destruct (srcAddrOrFill locals).
    - apply BuildBlockStore_addrUse_footprint in Hsrc. tauto.
    - apply ret_inv in Hsrc. tauto. }
  subst s2. revert Hl Hdst Hsrc. mrun. intros Hl Hdst Hsrc.
  exists size, kind, init, dstAddr, src, locals, l1, n1, ldst, lsrc.
  repeat split; auto.
  destruct (srcAddrOrFill locals); [exact Hsrc|].
  apply ret_inv in Hsrc. destruct Hsrc as (-> & _ & ->). auto.
Qed.

(** What follows the strategy's reservations holds no scratch register. *)
Lemma BuildBlockStore_copy_split blkNode size kind dstAddr src s n s' evs :
  BuildBlockStore tgt compiler shared blkNode s = Some (n, s', evs) ->
  AsBlk blkNode = Some (size, kind, false) ->
  gtOp1 blkNode = Some dstAddr ->
  gtOp2 blkNode = Some src ->
  exists locals l1 ldst lsrc n1,
    BuildBlockStore_copy tgt compiler blkNode dstAddr src size kind s
      = Some (locals, s', l1)
    /\ BuildBlockStore_addrUse shared dstAddr (dstAddrRegMask locals) 0 s'
       = Some (n1, s', ldst)
    /\ match copySrcAddr src with
       | Some sa =>
           BuildBlockStore_addrUse shared sa (srcRegMask locals) n1 s'
           = Some (n, s', lsrc)
       | None => n = n1 /\ lsrc = []
       end
    /\ evs = l1 ++ ldst ++ lsrc ++ internalUsesOf s'
             ++ [RefTypeKill blkNode (getKillSetForBlockStore compiler blkNode)]
    /\ (forall t, internalCountOf t
                    (ldst ++ lsrc ++ internalUsesOf s'
                     ++ [RefTypeKill blkNode
                           (getKillSetForBlockStore compiler blkNode)]) = 0).
Proof.
  intros H Hb Hd Hs. apply BuildBlockStore_inv in H.
  destruct H as (size' & kind' & init & dstAddr' & src' & locals & l1 & n1
                 & ldst & lsrc & Hb' & Hd' & Hs' & Hl & Hdst & Hsrc & ->).
  rewrite Hb in Hb'. inversion Hb'; subst size' kind' init. clear Hb'.
  rewrite Hd in Hd'. inversion Hd'; subst dstAddr'. clear Hd'.
  rewrite Hs in Hs'. inversion Hs'; subst src'. clear Hs'.
  pose proof (BuildBlockStore_copy_locals _ _ _ _ _ _ _ _ _ Hl) as (_ & Hsa).
  rewrite Hsa in Hsrc.
  exists locals, l1, ldst, lsrc, n1.
  repeat split; auto.
  intros t. unfold internalCountOf, internalUsesOf.
  rewrite !count_app, count_cons, count_nil.
  rewrite count_internalUses by (intros; destruct t; reflexivity).
  pose proof (BuildBlockStore_addrUse_footprint _ _ _ _ _ _ _ Hdst) as (_ & Hp).
  rewrite (Hp (isInternalDef t)) by (intros; destruct t; reflexivity).
  assert (Hq : count (isInternalDef t) lsrc = 0).
  { destruct (copySrcAddr src).
    - pose proof (BuildBlockStore_addrUse_footprint _ _ _ _ _ _ _ Hsrc)
        as (_ & Hq).
      apply Hq. intros; destruct t; reflexivity.
    - destruct Hsrc as (_ & ->). reflexivity. }
  rewrite Hq. destruct t; reflexivity.
Qed.

Lemma isPow2_below_16 size :
  0 < size < 16 ->
  (isPow2 size = true <-> exists k, 0 <= k /\ size = 2 ^ k).
Proof.
  intros Hsz.
  assert (Hcases : size = 1 \/ size = 2 \/ size = 3 \/ size = 4
                   \/ size = 5 \/ size = 6 \/ size = 7 \/ size = 8
                   \/ size = 9 \/ size = 10 \/ size = 11 \/ size = 12
                   \/ size = 13 \/ size = 14 \/ size = 15) by lia.
  split.
  - intros Hp.
    repeat (destruct Hcases as [-> | Hcases]); try subst size;
      try discriminate Hp;
      [exists 0|exists 1|exists 2|exists 3]; split; try lia; reflexivity.
  - intros (k & Hk & Hsize).
    assert (Hk4 : k < 4).
    { destruct (Z_lt_ge_dec k 4) as [Hlt|Hge]; [exact Hlt|].
      pose proof (Z.pow_le_mono_r 2 4 k ltac:(lia) ltac:(lia)) as Hle.
      change (2 ^ 4) with 16 in Hle. lia. }
    assert (Hkc : k = 0 \/ k = 1 \/ k = 2 \/ k = 3) by lia.
    destruct Hkc as [-> | [-> | [-> | ->]]]; subst size; reflexivity.
Qed.

Lemma ceil_div_16 size :
  0 <= size ->
  (if negb (size mod 16 =? 0) then size / 16 + 1 else size / 16)
  = (size + 15) / 16.
Proof.
  intros Hsz. destruct (size mod 16 =? 0) eqn:E; simpl.
  - apply Z.eqb_eq in E. Z.div_mod_to_equations. lia.
  - apply Z.eqb_neq in E. Z.div_mod_to_equations. lia.
Qed.

(** C4.  A completed [BuildBlockStore] of an overlap-safe move
    ([BlkOpKindUnrollMemmove]) has [size > 0] and reserves: when
    [size >= 16], exactly the ceiling of [size / 16] scratch vector registers
    and no scratch integer register; otherwise one scratch integer register
    when [size] is a power of two, and two when it is not.  (The strategy
    exists on ARM64 only, where a vector register has 16 bytes.) *)
Theorem BuildBlockStore_memmove_scratch blkNode size init s n s' evs :
  BuildBlockStore tgt compiler shared blkNode s = Some (n, s', evs) ->
  AsBlk blkNode = Some (size, BlkOpKindUnrollMemmove, init) ->
  0 < size
  /\ FP_REGSIZE_BYTES (TARGET tgt) = 16
  /\ (16 <= size ->
      internalCountOf FloatRegisterType evs = (size + 15) / 16
      /\ internalCountOf IntRegisterType evs = 0)
  /\ (size < 16 ->
      (isPow2 size = true <-> exists k, 0 <= k /\ size = 2 ^ k))
  /\ (size < 16 -> isPow2 size = true ->
      internalCountOf IntRegisterType evs = 1
      /\ internalCountOf FloatRegisterType evs = 0)
  /\ (size < 16 -> isPow2 size = false ->
      internalCountOf IntRegisterType evs = 2
      /\ internalCountOf FloatRegisterType evs = 0).
Proof.
  intros H Hb.
  assert (Hinit : init = false).
  { pose proof H as H'. apply BuildBlockStore_inv in H'.
    destruct H' as (size' & kind' & init' & dstAddr & src & locals & l1 & n1
                    & ldst & lsrc & Hb' & _ & _ & Hl & _).
    rewrite Hb in Hb'. inversion Hb'; subst size' kind' init'.
    destruct init; [|reflexivity].
    unfold BuildBlockStore_init in Hl. mrun. }
  subst init.
  destruct (gtOp1 blkNode) as [dstAddr|] eqn:Hd;
    [|unfold BuildBlockStore in H; rewrite Hb, Hd in H; discriminate H].
  destruct (gtOp2 blkNode) as [src|] eqn:Hs;
    [|unfold BuildBlockStore in H; rewrite Hb, Hd, Hs in H; discriminate H].
  destruct (BuildBlockStore_copy_split _ _ _ _ _ _ _ _ _ H Hb Hd Hs)
    as (locals & l1 & ldst & lsrc & n1 & Hl & _ & _ & -> & Htail).
  apply BuildBlockStore_copy_inv in Hl.
  apply BuildBlockStore_UnrollMemmove_inv in Hl.
  destruct Hl as (Harch & Hpos & _ & ->).
  split; [exact Hpos|]. split; [rewrite Harch; reflexivity|].
  assert (Hcount : forall t,
    internalCountOf t
      (memmoveScratch compiler blkNode size s ++ ldst ++ lsrc ++ internalUsesOf s'
       ++ [RefTypeKill blkNode (getKillSetForBlockStore compiler blkNode)])
    = internalCountOf t (memmoveScratch compiler blkNode size s)).
  { intros t. unfold internalCountOf in *. rewrite count_app, Htail. lia. }
  rewrite !Hcount. unfold memmoveScratch.
  split.
  { intros Hge. apply Z.leb_le in Hge. rewrite Hge.
    unfold internalCountOf. rewrite !count_repeat. simpl.
    rewrite ceil_div_16 by lia. split; [|reflexivity].
    rewrite Z2Nat.id; [reflexivity|]. apply Z.div_pos; lia. }
  split; [intros Hlt; apply isPow2_below_16; lia|].
  split.
  - intros Hlt Hp. apply Z.leb_gt in Hlt. rewrite Hlt, Hp.
    split; reflexivity.
  - intros Hlt Hp. apply Z.leb_gt in Hlt. rewrite Hlt, Hp.
    split; reflexivity.
Qed.

(** C9 (amended).  A completed [BuildBlockStore] of a general unrolled copy
    ([BlkOpKindUnroll], not an init) reserves one scratch integer register
    always; on the 64-bit target a second one exactly when the size is at
    least two machine words, two scratch vector registers exactly when the
    size is at least two vector-register widths -- whatever the two addresses
    are -- and one more scratch integer register exactly when both the source
    and the destination address may need a register. *)
Theorem BuildBlockStore_unroll_copy_scratch blkNode size dstAddr src s n s' evs :
  BuildBlockStore tgt compiler shared blkNode s = Some (n, s', evs) ->
  AsBlk blkNode = Some (size, BlkOpKindUnroll, false) ->
  gtOp1 blkNode = Some dstAddr ->
  gtOp2 blkNode = Some src ->
  let is64 := isArm64 (TARGET tgt) in
  internalCountOf IntRegisterType evs
    = 1
      + (if is64 && (2 * REGSIZE_BYTES (TARGET tgt) <=? size) then 1 else 0)
      + (if is64 && (srcAddrMayNeedReg src (copySrcAddr src)
                     && dstAddrMayNeedReg dstAddr) then 1 else 0)
  /\ internalCountOf FloatRegisterType evs
     = (if is64 && (2 * FP_REGSIZE_BYTES (TARGET tgt) <=? size) then 2 else 0).
Proof.
  intros H Hb Hd Hs is64.
  destruct (BuildBlockStore_copy_split _ _ _ _ _ _ _ _ _ H Hb Hd Hs)
    as (locals & l1 & ldst & lsrc & n1 & Hl & _ & _ & -> & Htail).
  apply BuildBlockStore_copy_inv in Hl.
  apply BuildBlockStore_Unroll_inv in Hl. destruct Hl as (_ & ->).
  unfold internalCountOf in *.
  rewrite 2!(count_app _ (unrollScratch tgt compiler blkNode dstAddr src size)), !Htail.
  unfold unrollScratch. subst is64.
  destruct (isArm64 (TARGET tgt)),
    (2 * REGSIZE_BYTES (TARGET tgt) <=? size),
    (2 * FP_REGSIZE_BYTES (TARGET tgt) <=? size),
    (srcAddrMayNeedReg src (copySrcAddr src) && dstAddrMayNeedReg dstAddr);
    split; reflexivity.
Qed.

(** C5 (amended).  A completed [BuildBlockStore] of a write-barrier object
    copy ([BlkOpKindCpObjUnroll]) creates, after its scratch registers, the
    uses of the destination, then those of the source.  When the destination
    address is not contained its use is created with exactly the
    write-barrier destination register as candidates (a contained destination
    gets no use of its own: at most the helper's uses of the base of a
    contained address mode).  When there is a source address it is not
    contained and its use has exactly the write-barrier source register as
    candidates; a local source gets no use.  Every scratch integer register of
    the node has the candidates [allRegs(TYP_INT)] less both write-barrier
    registers. *)
Theorem BuildBlockStore_cpobj_write_barrier_regs
  blkNode size dstAddr src s n s' evs :
  BuildBlockStore tgt compiler shared blkNode s = Some (n, s', evs) ->
  AsBlk blkNode = Some (size, BlkOpKindCpObjUnroll, false) ->
  gtOp1 blkNode = Some dstAddr ->
  gtOp2 blkNode = Some src ->
  let dstReg := genSingleTypeRegMask (REG_WRITE_BARRIER_DST_BYREF tgt) in
  let srcReg := genSingleTypeRegMask (REG_WRITE_BARRIER_SRC_BYREF tgt) in
  exists dstUses srcUses,
    evs = cpObjScratch tgt compiler blkNode size s ++ dstUses ++ srcUses
          ++ internalUsesOf s'
          ++ [RefTypeKill blkNode (getKillSetForBlockStore compiler blkNode)]
    /\ (isContained dstAddr = false ->
        dstUses = [RefTypeUse dstAddr dstReg 0])
    /\ (isContained dstAddr = true ->
        dstUses = [] \/
        exists base k us,
          gtOp1 dstAddr = Some base
          /\ BuildAddrUses shared base RBM_NONE s' = Some (k, us)
          /\ dstUses = map useRef us)
    /\ match copySrcAddr src with
       | Some srcAddr =>
           isContained srcAddr = false
           /\ srcUses = [RefTypeUse srcAddr srcReg 0]
       | None => srcUses = []
       end
    /\ (forall tree cands,
          In (RefTypeInternalDef IntRegisterType tree cands) evs ->
          cands = Z.land (allRegs s IntRegisterType)
                    (Z.lnot (Z.lor dstReg srcReg))
          /\ Z.land cands dstReg = 0
          /\ Z.land cands srcReg = 0).
Proof.
  intros H Hb Hd Hs dstReg srcReg.
  destruct (BuildBlockStore_copy_split _ _ _ _ _ _ _ _ _ H Hb Hd Hs)
    as (locals & l1 & ldst & lsrc & n1 & Hl & Hdst & Hsrc & -> & Htail).
  apply BuildBlockStore_copy_inv in Hl.
  apply BuildBlockStore_CpObjUnroll_inv in Hl.
  destruct Hl as (-> & Hnc & ->). simpl in Hdst, Hsrc.
  exists ldst, lsrc.
  split; [reflexivity|].
  split; [intros Hc; eapply BuildBlockStore_addrUse_notContained; eassumption|].
  split; [intros Hc; eapply BuildBlockStore_addrUse_contained; eassumption|].
  split.
  { destruct (copySrcAddr src) as [sa|]; [|tauto].
    split; [apply Hnc; reflexivity|].
    eapply BuildBlockStore_addrUse_notContained;
      [eassumption|apply Hnc; reflexivity]. }
  intros tree cands Hin.
  assert (Hscratch :
    In (RefTypeInternalDef IntRegisterType tree cands)
       (cpObjScratch tgt compiler blkNode size s)).
  { apply in_app_or in Hin. destruct Hin as [Hin|Hin]; [exact Hin|].
    exfalso. specialize (Htail IntRegisterType).
    unfold internalCountOf, count in Htail.
    assert (Hf : In (RefTypeInternalDef IntRegisterType tree cands)
                    (filter (isInternalDef IntRegisterType)
                       (ldst ++ lsrc ++ internalUsesOf s'
                        ++ [RefTypeKill blkNode
                              (getKillSetForBlockStore compiler blkNode)]))).
    { apply filter_In. split; [exact Hin|reflexivity]. }
    destruct (filter _ _); [contradiction|discriminate]. }
  assert (Hc : cands = cpObjIntCandidates tgt s).
  { unfold cpObjScratch in Hscratch.
    repeat (apply in_app_or in Hscratch; destruct Hscratch as [Hscratch|Hscratch]).
    - destruct Hscratch as [E|[]]. inversion E. reflexivity.
    - destruct (2 * REGSIZE_BYTES (TARGET tgt) <=? size);
        [destruct Hscratch as [E|[]]; inversion E; reflexivity|contradiction].
    - destruct ((4 * REGSIZE_BYTES (TARGET tgt) <=? size)
                && IsBaselineSimdIsaSupported compiler);
        [destruct Hscratch as [E|[E|[]]]; discriminate E|contradiction]. }
  subst cands. unfold cpObjIntCandidates, GetRegSetForType, getLow,
    RBM_WRITE_BARRIER_DST_BYREF, RBM_WRITE_BARRIER_SRC_BYREF, genRegMask.
  fold (genSingleTypeRegMask (REG_WRITE_BARRIER_DST_BYREF tgt)).
  fold (genSingleTypeRegMask (REG_WRITE_BARRIER_SRC_BYREF tgt)).
  fold dstReg srcReg.
  split; [reflexivity|].
  split; [apply regset_diff_disjoint_l|apply regset_diff_disjoint_r].
Qed.

(** *** BuildPutArgSplit: the loops over the field list *)

Lemma slotUses_app argReg k ord a b :
  slotUses argReg k ord (a ++ b)
  = slotUses argReg k ord a
    ++ slotUses argReg k (ord + Z.of_nat (length a)) b.
Proof.
  revert ord. induction a as [|x a IH]; intros ord; simpl.
  - rewrite Z.add_0_r. reflexivity.
  - rewrite IH. f_equal. f_equal. f_equal. lia.
Qed.

Lemma placeSlots_app argReg k ord a b placed :
  placeSlots argReg k ord (a ++ b) placed
  = placeSlots argReg k (ord + Z.of_nat (length a)) b
      (placeSlots argReg k ord a placed).
Proof.
  revert ord placed. induction a as [|x a IH]; intros ord placed; simpl.
  - rewrite Z.add_0_r. reflexivity.
  - rewrite IH. f_equal. lia.
Qed.

Lemma BuildPutArgSplit_regs argReg k node idxs :
  forall ord s ord' s' l,
    foldM (BuildPutArgSplit_reg argReg k node) idxs ord s
      = Some (ord', s', l) ->
    let slots := map (fun i => (node, i)) idxs in
    ord' = ord + Z.of_nat (length slots)
    /\ l = slotUses argReg k ord slots
    /\ placedArgRegs s' = placeSlots argReg k ord slots (placedArgRegs s)
    /\ internalDefs s' = internalDefs s
    /\ setInternalRegsDelayFree s' = setInternalRegsDelayFree s.
Proof.
  induction idxs as [|i idxs IH]; intros ord s ord' s' l H; simpl in H.
  - mrun. simpl. repeat split; auto. lia.
  - apply bind_inv in H. destruct H as (o1 & s1 & l1 & l2 & H1 & H2 & ->).
    apply IH in H2. destruct H2 as (-> & -> & Hp & Hi & Hd).
    unfold BuildPutArgSplit_reg in H1.
    cbn [map slotUses placeSlots length]. rewrite Hp, Hi, Hd.
    unfold slotUse. cbn [fst snd].
    destruct (ord <? k); mrun; simpl; repeat split; auto; lia.
Qed.

Lemma BuildPutArgSplit_regCount_inv node s c s' l :
  BuildPutArgSplit_regCount tgt node s = Some (c, s', l) ->
  c = splitRegCount tgt node /\ s' = s /\ l = [].
Proof.
  unfold BuildPutArgSplit_regCount, splitRegCount. intros H.
  destruct (isArm (TARGET tgt) && OperIsMultiRegOp node); mrun.
  - match goal with E : AsMultiRegOp node = Some _ |- _ => rewrite E end. auto.
  - auto.
Qed.

Lemma BuildPutArgSplit_fields argReg k uses :
  forall ord s ord' s' l,
    foldM (BuildPutArgSplit_field tgt argReg k) uses ord s
      = Some (ord', s', l) ->
    let slots := splitSlots tgt uses in
    ord' = ord + Z.of_nat (length slots)
    /\ l = slotUses argReg k ord slots
    /\ placedArgRegs s' = placeSlots argReg k ord slots (placedArgRegs s)
    /\ internalDefs s' = internalDefs s
    /\ setInternalRegsDelayFree s' = setInternalRegsDelayFree s.
Proof.
  induction uses as [|use uses IH]; intros ord s ord' s' l H; simpl in H.
  - mrun. simpl. repeat split; auto. lia.
  - apply bind_inv in H. destruct H as (o1 & s1 & l1 & l2 & H1 & H2 & ->).
    apply IH in H2. destruct H2 as (-> & -> & Hp & Hi & Hd).
    unfold BuildPutArgSplit_field in H1.
    apply bind_inv in H1. destruct H1 as ([] & s0 & l0 & lr & Ha & H1 & ->).
    apply assert_inv in Ha. destruct Ha as (_ & -> & ->).
    apply bind_inv in H1. destruct H1 as (c & s0 & l0 & lr0 & Hc & H1 & ->).
    apply BuildPutArgSplit_regCount_inv in Hc. destruct Hc as (-> & -> & ->).
    apply BuildPutArgSplit_regs in H1.
    destruct H1 as (-> & -> & Hp1 & Hi1 & Hd1).
    unfold splitSlots. cbn [flat_map]. fold (splitSlots tgt uses).
    rewrite slotUses_app, placeSlots_app, length_app.
    rewrite Hp, Hp1, Hi, Hi1, Hd, Hd1. simpl.
    repeat split; auto. lia.
Qed.

Lemma BuildPutArgSplit_argMask_inv argReg k s m s' l :
  BuildPutArgSplit_argMask argReg k s = Some (m, s', l) ->
  l = [] /\ placedArgRegs s' = placedArgRegs s
  /\ internalDefs s' = internalDefs s
  /\ setInternalRegsDelayFree s' = setInternalRegsDelayFree s.
Proof.
  unfold BuildPutArgSplit_argMask. generalize (indices k) RBM_NONE.
  intros idxs. revert s m s' l.
  induction idxs as [|i idxs IH]; intros s m s' l m0 H; simpl in H.
  - mrun. auto.
  - apply bind_inv in H. destruct H as (m1 & s1 & l1 & l2 & H1 & H2 & ->).
    apply IH in H2. destruct H2 as (-> & Hp & Hi & Hd).
    mrun. rewrite Hp, Hi, Hd. auto.
Qed.

(** A slot's use and what placing does to one register. *)
Lemma slotUses_nth argReg k slots :
  forall ord j slot,
    nth_error slots j = Some slot ->
    nth_error (slotUses argReg k ord slots) j
    = Some (slotUse argReg k (ord + Z.of_nat j) slot).
Proof.
  induction slots as [|x slots IH]; intros ord j slot H.
  - destruct j; discriminate H.
  - destruct j as [|j]; simpl in *.
    + inversion H. rewrite Z.add_0_r. reflexivity.
    + rewrite (IH _ _ _ H). do 2 f_equal. lia.
Qed.

Lemma testbit_AddRegNumInMask placed r b :
  0 <= r -> 0 <= b ->
  Z.testbit (AddRegNumInMask placed r) b
  = Z.testbit placed b || (b =? r).
Proof.
  intros Hr Hb. unfold AddRegNumInMask, genRegMask.
  rewrite Z.lor_spec, Z.shiftl_spec by assumption. f_equal.
  destruct (b =? r) eqn:E.
  - apply Z.eqb_eq in E. subst. rewrite Z.sub_diag. reflexivity.
  - apply Z.eqb_neq in E. destruct (Z_lt_ge_dec b r).
    + apply Z.testbit_neg_r. lia.
    + replace (b - r) with (Z.succ (b - r - 1)) by lia.
      change 1 with (2 * 0 + 1). rewrite Z.testbit_odd_succ by lia.
      apply Z.bits_0.
Qed.

Lemma regAdd_nonneg argReg i : 0 <= regAdd argReg i.
Proof. unfold regAdd. apply Z.mod_pos_bound. reflexivity. Qed.

Lemma placeSlots_testbit argReg k slots :
  forall ord placed b,
    0 <= b ->
    Z.testbit (placeSlots argReg k ord slots placed) b = true <->
    Z.testbit placed b = true
    \/ exists j, (j < length slots)%nat
                 /\ ord + Z.of_nat j < k
                 /\ b = regAdd argReg (ord + Z.of_nat j).
Proof.
  induction slots as [|x slots IH]; intros ord placed b Hb; simpl.
  - split; [auto|]. intros [H|(j & Hj & _)]; [exact H|inversion Hj].
  - rewrite IH by assumption. split.
    + intros [H|(j & Hj & Hk & ->)].
      * destruct (ord <? k) eqn:E; [|auto].
        rewrite testbit_AddRegNumInMask in H
          by (try apply regAdd_nonneg; assumption).
        apply orb_true_iff in H. destruct H as [H|H]; [auto|].
        apply Z.eqb_eq in H. right. exists 0%nat. apply Z.ltb_lt in E.
        rewrite Z.add_0_r. repeat split; auto. lia.
      * right. exists (S j). rewrite Nat2Z.inj_succ.
        replace (ord + Z.succ (Z.of_nat j)) with (ord + 1 + Z.of_nat j) by lia.
        repeat split; auto. lia.
    + intros [H|(j & Hj & Hk & ->)].
      * left. destruct (ord <? k); [|exact H].
        rewrite testbit_AddRegNumInMask
          by (try apply regAdd_nonneg; assumption).
        rewrite H. reflexivity.
      * destruct j as [|j].
        -- left. rewrite Z.add_0_r in *. apply Z.ltb_lt in Hk. rewrite Hk.
           rewrite testbit_AddRegNumInMask by apply regAdd_nonneg.
           rewrite Z.eqb_refl. apply orb_true_r.
        -- right. exists j. rewrite Nat2Z.inj_succ in *.
           replace (ord + 1 + Z.of_nat j) with (ord + Z.succ (Z.of_nat j))
             by lia.
           repeat split; auto. lia.
Qed.

(** A completed [BuildPutArgSplit] over a field list. *)
Lemma BuildPutArgSplit_fieldList_inv argNode gtNumRegs src uses s n s' evs :
  BuildPutArgSplit tgt shared argNode s = Some (n, s', evs) ->
  AsPutArgSplit argNode = Some gtNumRegs ->
  gtOp1 argNode = Some src ->
  OperIs src GT_FIELD_LIST = true ->
  AsFieldList src = Some uses ->
  let argReg := GetRegNum argNode in
  let slots := splitSlots tgt uses in
  exists argMask,
    evs = slotUses argReg gtNumRegs 0 slots ++ internalUsesOf s'
          ++ [RefTypeDefs argNode gtNumRegs argMask]
    /\ n = Z.of_nat (length slots)
    /\ placedArgRegs s'
       = placeSlots argReg gtNumRegs 0 slots (placedArgRegs s).
Proof.
  intros H Hn Hsrc Hfl Huses argReg slots. unfold BuildPutArgSplit in H.
  rewrite Hn, Hsrc in H.
  apply bind_inv in H. destruct H as (k & s0 & l0 & lr & Hk & H & ->).
  apply deref_inv in Hk. destruct Hk as (Hk & -> & ->). inversion Hk; subst k.
  apply bind_inv in H. destruct H as ([] & s0 & l0 & lr0 & Ha & H & ->).
  apply assert_inv in Ha. destruct Ha as (_ & -> & ->).
  apply bind_inv in H. destruct H as (src' & s0 & l0 & lr1 & Hd & H & ->).
  apply deref_inv in Hd. destruct Hd as (Hd & -> & ->). inversion Hd; subst src'.
  apply bind_inv in H. destruct H as (argMask & s1 & l1 & lr2 & Hm & H & ->).
  apply BuildPutArgSplit_argMask_inv in Hm. destruct Hm as (-> & Hp1 & _ & _).
  apply bind_inv in H. destruct H as (s1' & s2 & l2 & lr3 & Hg & H & ->).
  apply getState_inv in Hg. destruct Hg as (-> & -> & ->).
  apply bind_inv in H. destruct H as ([] & s2 & l2 & lr4 & Ha & H & ->).
  apply assert_inv in Ha. destruct Ha as (_ & -> & ->).
  rewrite Hfl, Huses in H.
  apply bind_inv in H. destruct H as (cnt & s2 & l2 & lr5 & Hc & H & ->).
  apply bind_inv in Hc. destruct Hc as (us & s3 & l3 & lr6 & Hu & Hc & ->).
  apply deref_inv in Hu. destruct Hu as (Hu & -> & ->). inversion Hu; subst us.
  apply bind_inv in Hc. destruct Hc as (k & s3 & l3 & lr7 & Hf & Hc & ->).
  apply BuildPutArgSplit_fields in Hf. destruct Hf as (-> & -> & Hp & _ & _).
  mrun. exists argMask. fold argReg slots. simpl. rewrite !app_nil_r.
  repeat split; auto. rewrite Hp, Hp1. reflexivity.
Qed.

(** C8.  A completed [BuildPutArgSplit] over a field list first creates one
    use per produced sub-register slot, in order, and returns their number.
    The slot with ordinal [j] below [gtNumRegs] gets a use bound to the one
    register [argReg + j] (as a 32-bit unsigned sum), and that register is in
    [placedArgRegs] afterwards; a slot with ordinal at or beyond [gtNumRegs]
    gets a use without candidates; and [placedArgRegs] gains no register
    other than those of the slots below [gtNumRegs]. *)
Theorem BuildPutArgSplit_field_list_slots
  argNode gtNumRegs src uses s n s' evs :
  BuildPutArgSplit tgt shared argNode s = Some (n, s', evs) ->
  AsPutArgSplit argNode = Some gtNumRegs ->
  gtOp1 argNode = Some src ->
  OperIs src GT_FIELD_LIST = true ->
  AsFieldList src = Some uses ->
  let argReg := GetRegNum argNode in
  let slots := splitSlots tgt uses in
  (exists rest,
      evs = slotUses argReg gtNumRegs 0 slots ++ rest /\ useCountOf rest = 0)
  /\ n = Z.of_nat (length slots)
  /\ (forall j node regIndex,
        nth_error slots j = Some (node, regIndex) ->
        (Z.of_nat j < gtNumRegs ->
         nth_error evs j
         = Some (RefTypeUse node
                   (genSingleTypeRegMask (regAdd argReg (Z.of_nat j)))
                   regIndex)
         /\ Z.testbit (placedArgRegs s') (regAdd argReg (Z.of_nat j)) = true)
        /\ (gtNumRegs <= Z.of_nat j ->
            nth_error evs j = Some (RefTypeUse node RBM_NONE regIndex)))
  /\ (forall b, 0 <= b ->
        Z.testbit (placedArgRegs s') b = true ->
        Z.testbit (placedArgRegs s) b = true
        \/ exists j, (j < length slots)%nat
                     /\ Z.of_nat j < gtNumRegs
                     /\ b = regAdd argReg (Z.of_nat j))
  /\ (forall j, 0 <= argReg + j < 2 ^ 32 -> regAdd argReg j = argReg + j).
Proof.
  intros H Hn Hsrc Hfl Huses argReg slots.
  destruct (BuildPutArgSplit_fieldList_inv _ _ _ _ _ _ _ _ H Hn Hsrc Hfl Huses)
    as (argMask & -> & -> & Hplaced).
  fold argReg slots in Hplaced |- *.
  split.
  { eexists. split; [reflexivity|].
    unfold useCountOf, internalUsesOf.
    rewrite count_app, count_internalUses by reflexivity. reflexivity. }
  split; [reflexivity|].
  split.
  { intros j node regIndex Hj.
    assert (Hlt : (j < length (slotUses argReg gtNumRegs 0 slots))%nat).
    { apply nth_error_Some.
      rewrite (slotUses_nth _ _ _ 0 _ _ Hj). discriminate. }
    rewrite nth_error_app1 by exact Hlt.
    rewrite (slotUses_nth _ _ _ 0 _ _ Hj). unfold slotUse. cbn [fst snd].
    rewrite Z.add_0_l.
    split.
    - intros Hk. pose proof Hk as Hk'. apply Z.ltb_lt in Hk'. rewrite Hk'.
      split; [reflexivity|].
      rewrite Hplaced. apply placeSlots_testbit; [apply regAdd_nonneg|].
      right. exists j. rewrite Z.add_0_l. repeat split; auto.
      apply nth_error_Some. rewrite Hj. discriminate.
    - intros Hk. apply Z.ltb_ge in Hk. rewrite Hk. reflexivity. }
  split.
  { intros b Hb Hbit. rewrite Hplaced in Hbit.
    apply placeSlots_testbit in Hbit; [|exact Hb].
    destruct Hbit as [Hbit|(j & Hj & Hk & ->)]; [auto|].
    right. exists j. rewrite Z.add_0_l in *. auto. }
  intros j Hj. unfold regAdd. apply Z.mod_small. exact Hj.
Qed.

(** C1.  For every builder of the file -- indirection, call, stack argument,
    split argument, block store, cast and select -- the value a completed
    build returns is the number of operand uses among the RefPositions it
    created: the definitions, uses and kills of scratch registers are never
    counted, and no use is left out.  The operand-use helpers of the shared
    builder are taken to return the number of uses they create. *)
Theorem builders_return_their_use_count node s n s' evs :
  BuildIndir tgt shared node s = Some (n, s', evs)
  \/ BuildCall tgt compiler shared node s = Some (n, s', evs)
  \/ BuildPutArgStk tgt compiler shared node s = Some (n, s', evs)
  \/ BuildPutArgSplit tgt shared node s = Some (n, s', evs)
  \/ BuildBlockStore tgt compiler shared node s = Some (n, s', evs)
  \/ BuildCast tgt shared node s = Some (n, s', evs)
  \/ BuildSelect shared node s = Some (n, s', evs) ->
  useCountOf evs = n.
Proof.
  intros [H|[H|[H|[H|[H|[H|H]]]]]].
  - eapply BuildIndir_useCount; eassumption.
  - eapply BuildCall_useCount; eassumption.
  - eapply BuildPutArgStk_useCount; eassumption.
  - eapply BuildPutArgSplit_useCount; eassumption.
  - eapply BuildBlockStore_useCount; eassumption.
  - eapply BuildCast_useCount; eassumption.
  - eapply BuildSelect_useCount; eassumption.
Qed.

(** *** When BuildCall completes

    The build of a call completes as soon as the node is a call, the
    conditions the source asserts hold, and the argument helper returns. *)

Lemma bind_run {A B} (m : M A) (f : A -> M B) s a s1 l1 :
  m s = Some (a, s1, l1) ->
  bind m f s
  = match f a s1 with
    | Some (b, s2, l2) => Some (b, s2, l1 ++ l2)
    | None => None
    end.
Proof. intros H. unfold bind. rewrite H. reflexivity. Qed.

Lemma BuildCall_ctrlExpr_completes call c s :
  BuildCall_assertions tgt compiler call c s ->
  BuildCall_ctrlExpr c s = Some (callTarget c, s, []).
Proof.
  intros (Hind & _). unfold BuildCall_ctrlExpr, callTarget.
  destruct (gtCallTypes_eqb (gtCallType c) CT_INDIRECT); [|reflexivity].
  destruct (Hind eq_refl) as (Hce & Hca). rewrite Hce.
  destruct (gtCallAddr c); [reflexivity|contradiction].
Qed.

Lemma BuildCall_target_completes call c s :
  BuildCall_assertions tgt compiler call c s ->
  exists cands s1 l1,
    BuildCall_target tgt compiler call c (callTarget c) s
      = Some (cands, s1, l1)
    /\ availableIntRegs s1 = availableIntRegs s.
Proof.
  intros (_ & Htarget & Hr2r & _). unfold BuildCall_target.
  destruct (callTarget c) as [e|].
  - destruct (Htarget e eq_refl) as (Hvoid & Hfast & _). rewrite Hvoid.
    destruct (IsFastTailCall c) eqn:Ef.
    + specialize (Hfast eq_refl). apply Z.eqb_neq in Hfast.
      unfold bind, assert, getState, ret, when. simpl. simpl in Hfast.
      rewrite Hfast. simpl.
      destruct (isArm (TARGET tgt)), (NeedsNullCheck c); simpl;
        do 3 eexists; split; reflexivity.
    + destruct (isArm (TARGET tgt)), (NeedsNullCheck c); simpl;
        do 3 eexists; split; reflexivity.
  - destruct (IsR2ROrVirtualStubRelativeIndir c) eqn:Er,
      (IsFastTailCall c) eqn:Ef.
    + specialize (Hr2r eq_refl eq_refl eq_refl). apply Z.eqb_neq in Hr2r.
      unfold bind, assert, getState, ret, when. simpl. simpl in Hr2r.
      rewrite Hr2r. simpl.
      destruct (isArm (TARGET tgt)), (NeedsNullCheck c); simpl;
        do 3 eexists; split; reflexivity.
    + destruct (isArm (TARGET tgt)), (NeedsNullCheck c); simpl;
        do 3 eexists; split; reflexivity.
    + destruct (isArm (TARGET tgt)), (NeedsNullCheck c); simpl;
        do 3 eexists; split; reflexivity.
    + destruct (isArm (TARGET tgt)), (NeedsNullCheck c); simpl;
        do 3 eexists; split; reflexivity.
Qed.

Lemma BuildCall_ctrlExprUse_completes call c s cands n0 s1 :
  BuildCall_assertions tgt compiler call c s ->
  exists n l,
    BuildCall_ctrlExprUse tgt compiler call c (callTarget c) cands n0 s1
    = Some (n, s1, l).
Proof.
  intros (_ & Htarget & _). unfold BuildCall_ctrlExprUse.
  destruct (callTarget c) as [e|]; [|do 2 eexists; reflexivity].
  destruct (Htarget e eq_refl) as (_ & _ & Htls).
  destruct (isTlsGetAddrSequence tgt compiler c e).
  - rewrite (Htls eq_refl). do 2 eexists. reflexivity.
  - do 2 eexists. reflexivity.
Qed.

Lemma BuildCall_defsAndKills_completes call c s s1 :
  BuildCall_assertions tgt compiler call c s ->
  BuildCall_defsAndKills tgt compiler call c s1
  = Some (tt, s1, [callDefsAndKills tgt compiler call c]).
Proof.
  intros (_ & _ & _ & Hbits).
  unfold BuildCall_defsAndKills, callDefsAndKills.
  destruct (0 <? BuildCall_dstCount call c) eqn:Ed; [|reflexivity].
  apply Z.ltb_lt in Ed.
  destruct (BuildCall_hasMultiRegRetVal call c) eqn:Em.
  - specialize (Hbits Ed eq_refl). apply Z.ltb_lt in Hbits.
    unfold bind. simpl. rewrite Hbits. reflexivity.
  - assert (Hone : BuildCall_dstCount call c = 1).
    { unfold BuildCall_dstCount, BuildCall_hasMultiRegRetVal in *.
      destruct (negb (TypeIs call TYP_VOID)); [|lia].
      rewrite Em. reflexivity. }
    rewrite Hone. reflexivity.
Qed.

(** The build of a call node completes under the asserted conditions. *)
Lemma BuildCall_completes call c s :
  AsCall call = Some c ->
  BuildCall_assertions tgt compiler call c s ->
  (forall s1, BuildCallArgUses shared call s1 <> None) ->
  exists n s' evs, BuildCall tgt compiler shared call s = Some (n, s', evs).
Proof.
  intros Hc Hassert Hargs. unfold BuildCall.
  rewrite (bind_run _ _ _ c s []) by (unfold deref; rewrite Hc; reflexivity).
  rewrite (bind_run _ _ _ _ _ _ (BuildCall_ctrlExpr_completes _ _ _ Hassert)).
  destruct (BuildCall_target_completes _ _ _ Hassert)
    as (cands & s1 & l1 & Ht & _).
  rewrite (bind_run _ _ _ _ _ _ Ht).
  destruct (BuildCallArgUses shared call s1) as [[argN argUses]|] eqn:Ea;
    [|exfalso; eapply Hargs; eassumption].
  rewrite (bind_run _ _ _ argN s1 (map useRef argUses))
    by (unfold runUses; rewrite Ea; reflexivity).
  destruct (BuildCall_ctrlExprUse_completes call c s cands argN s1 Hassert)
    as (n & l2 & Hu).
  rewrite (bind_run _ _ _ _ _ _ Hu).
  rewrite (bind_run _ _ _ tt s1 (internalUsesOf s1)) by reflexivity.
  set (mark := when _ _).
  assert (Hmark : exists lm, mark s1 = Some (tt, s1, lm)).
  { subst mark. destruct (_ && _); eexists; reflexivity. }
  destruct Hmark as (lm & Hmark). rewrite (bind_run _ _ _ _ _ _ Hmark).
  rewrite (bind_run _ _ _ _ _ _
             (BuildCall_defsAndKills_completes _ _ _ s1 Hassert)).
  destruct (SWIFT_SUPPORT tgt), (HasSwiftErrorHandling c); simpl;
    do 3 eexists; reflexivity.
Qed.

(** *** When BuildBlockStore completes on a copy *)

Lemma forEach_completes {A} (xs : list A) (m : M unit) :
  (forall s, exists s' l, m s = Some (tt, s', l)) ->
  forall s, exists s' l, forEach xs (fun _ => m) s = Some (tt, s', l).
Proof.
  intros Hm. induction xs as [|x xs IH]; intros s; simpl.
  - do 2 eexists. reflexivity.
  - destruct (Hm s) as (s1 & l1 & H1). destruct (IH s1) as (s2 & l2 & H2).
    rewrite (bind_run _ _ _ _ _ _ H1), H2. do 2 eexists. reflexivity.
Qed.

Lemma BuildBlockStore_copy_completes blkNode dstAddr src size kind s :
  BuildBlockStore_copy_assertions tgt shared dstAddr src size kind ->
  exists locals s1 l1,
    BuildBlockStore_copy tgt compiler blkNode dstAddr src size kind s
    = Some (locals, s1, l1).
Proof.
  intros (Hind & Hkind & _). unfold BuildBlockStore_copy.
  assert (Hsa : (if OperIs src GT_IND
                 then assert (isContained src) ;;
                      addr <- deref (gtOp1 src) ;; ret (Some addr)
                 else ret None) s
                = Some (copySrcAddr src, s, [])).
  { unfold copySrcAddr. destruct (OperIs src GT_IND); [|reflexivity].
    destruct (Hind eq_refl) as (Hc & Ha). rewrite Hc.
    destruct (gtOp1 src); [reflexivity|contradiction]. }
  rewrite (bind_run _ _ _ _ _ _ Hsa).
  assert (Hphase : exists locals s1 l1,
    match kind with
    | BlkOpKindCpObjUnroll =>
        BuildBlockStore_CpObjUnroll tgt compiler blkNode size (copySrcAddr src)
    | BlkOpKindUnroll =>
        BuildBlockStore_Unroll tgt compiler blkNode dstAddr src size
          (copySrcAddr src)
    | BlkOpKindUnrollMemmove =>
        BuildBlockStore_UnrollMemmove tgt compiler blkNode size
          (copySrcAddr src)
    | _ => unreached
    end s = Some (locals, s1, l1)).
  { destruct kind; try contradiction.
    - unfold BuildBlockStore_CpObjUnroll.
      destruct (copySrcAddr src) as [sa|] eqn:Esa.
      + rewrite (Hkind sa eq_refl).
        destruct (2 * REGSIZE_BYTES (TARGET tgt) <=? size),
          ((4 * REGSIZE_BYTES (TARGET tgt) <=? size)
           && IsBaselineSimdIsaSupported compiler);
          do 3 eexists; reflexivity.
      + destruct (2 * REGSIZE_BYTES (TARGET tgt) <=? size),
          ((4 * REGSIZE_BYTES (TARGET tgt) <=? size)
           && IsBaselineSimdIsaSupported compiler);
          do 3 eexists; reflexivity.
    - unfold BuildBlockStore_Unroll.
      destruct (isArm64 (TARGET tgt)),
        (2 * REGSIZE_BYTES (TARGET tgt) <=? size),
        (2 * FP_REGSIZE_BYTES (TARGET tgt) <=? size),
        (srcAddrMayNeedReg src (copySrcAddr src) && dstAddrMayNeedReg dstAddr);
        do 3 eexists; reflexivity.
    - destruct Hkind as (Harch & Hpos). apply Z.ltb_lt in Hpos.
      unfold BuildBlockStore_UnrollMemmove, forUpTo. rewrite Harch.
      cbn [isArm64 FP_REGSIZE_BYTES].
      match goal with
      | |- exists _ _ _, bind ?inner _ s = _ =>
          assert (Hinner : exists s1 l1, inner s = Some (tt, s1, l1))
      end.
      { rewrite (bind_run _ _ _ tt s [])
          by (unfold assert; rewrite Hpos; reflexivity).
        destruct (16 <=? size); [|destruct (isPow2 size)].
        - match goal with
          | |- context [forEach ?xs (fun _ => ?m) s] =>
              destruct (forEach_completes xs m
                          ltac:(intros; do 2 eexists; reflexivity) s)
                as (s1 & l1 & Hloop)
          end.
          rewrite Hloop. do 2 eexists. reflexivity.
        - do 2 eexists. reflexivity.
        - do 2 eexists. reflexivity. }
      destruct Hinner as (s1 & l1 & Hinner).
      rewrite (bind_run _ _ _ _ _ _ Hinner). do 3 eexists. reflexivity. }
  destruct Hphase as (locals & s1 & l1 & Hphase).
  exists locals, s1, l1. destruct kind; rewrite Hphase; reflexivity.
Qed.

Lemma BuildBlockStore_addrUse_completes addr m n0 s :
  addrUsesBuildable shared addr ->
  exists n l, BuildBlockStore_addrUse shared addr m n0 s = Some (n, s, l).
Proof.
  intros Hb. unfold BuildBlockStore_addrUse.
  destruct (isContained addr) eqn:Ec; simpl; [|do 2 eexists; reflexivity].
  destruct (OperIsAddrMode addr) eqn:Em; [|do 2 eexists; reflexivity].
  destruct (Hb Ec Em) as (Hmode & base & Hbase & Huses).
  destruct (AsAddrMode addr) as [off|]; [|contradiction].
  rewrite Hbase. specialize (Huses s).
  destruct (BuildAddrUses shared base RBM_NONE s) as [[k us]|] eqn:Eu;
    [|contradiction].
  unfold bind, deref, ret, runUses. rewrite Eu. do 2 eexists. reflexivity.
Qed.

(** The build of a block copy completes under the asserted conditions. *)
Lemma BuildBlockStore_copy_run_completes blkNode size kind dstAddr src s :
  AsBlk blkNode = Some (size, kind, false) ->
  gtOp1 blkNode = Some dstAddr ->
  gtOp2 blkNode = Some src ->
  BuildBlockStore_copy_assertions tgt shared dstAddr src size kind ->
  exists n s' evs,
    BuildBlockStore tgt compiler shared blkNode s = Some (n, s', evs).
Proof.
  intros Hb Hd Hs Hassert. unfold BuildBlockStore.
  rewrite Hb, Hd, Hs.
  rewrite (bind_run _ _ _ (size, kind, false) s []) by reflexivity.
  rewrite (bind_run _ _ _ dstAddr s []) by reflexivity.
  rewrite (bind_run _ _ _ src s []) by reflexivity.
  cbn [fst snd].
  destruct (BuildBlockStore_copy_completes blkNode dstAddr src size kind s
              Hassert) as (locals & s1 & l1 & Hl).
  rewrite (bind_run _ _ _ _ _ _ Hl).
  destruct (BuildBlockStore_copy_locals _ _ _ _ _ _ _ _ _ Hl) as (Hsz & Hsa).
  rewrite Hsz, Hsa. cbn [Z.eqb RBM_NONE negb when].
  rewrite (bind_run _ _ _ tt s1 []) by reflexivity.
  destruct Hassert as (_ & _ & Hdst & Hsrc).
  destruct (BuildBlockStore_addrUse_completes dstAddr (dstAddrRegMask locals)
              0 s1 Hdst) as (n1 & ldst & Hdu).
  rewrite (bind_run _ _ _ _ _ _ Hdu).
  assert (Hsu : exists n lsrc,
    match copySrcAddr src with
    | Some sa => BuildBlockStore_addrUse shared sa (srcRegMask locals) n1
    | None => ret n1
    end s1 = Some (n, s1, lsrc)).
  { destruct (copySrcAddr src) as [sa|].
    - apply BuildBlockStore_addrUse_completes. apply Hsrc. reflexivity.
    - do 2 eexists. reflexivity. }
  destruct Hsu as (n & lsrc & Hsu). rewrite (bind_run _ _ _ _ _ _ Hsu).
  do 3 eexists. reflexivity.
Qed.

End BuilderFacts.

(** ** Relations every step of a build keeps *)

Lemma reservedOf_app l1 l2 : reservedOf (l1 ++ l2) = reservedOf l1 ++ reservedOf l2.
Proof.
  induction l1 as [|r l1 IH]; simpl; [reflexivity|].
  destruct r; simpl; rewrite ?IH; reflexivity.
Qed.

Lemma reservedOf_uses us : reservedOf (map useRef us) = [].
Proof. induction us as [|u us IH]; simpl; auto. Qed.

Lemma reservedOf_internalUses b l :
  reservedOf
    (map (fun d : RegisterType * SingleTypeRegSet =>
            RefTypeInternalUse (fst d) (snd d) b) l) = [].
Proof. induction l as [|d l IH]; simpl; auto. Qed.

Lemma Forall_uses (P : RefPosition -> Prop) us :
  (forall t c i, P (RefTypeUse t c i)) -> Forall P (map useRef us).
Proof.
  intros HP. induction us as [|u us IH]; simpl; constructor; auto. apply HP.
Qed.

Lemma Forall_internalUses (P : RefPosition -> Prop) b l :
  (forall t c, P (RefTypeInternalUse t c b)) ->
  Forall P (map (fun d : RegisterType * SingleTypeRegSet =>
                   RefTypeInternalUse (fst d) (snd d) b) l).
Proof.
  intros HP. induction l as [|d l IH]; simpl; constructor; auto.
Qed.

Section Respects.

Variable R : LinearScan -> LinearScan -> list RefPosition -> Prop.
Hypothesis R_nil : forall s, R s s [].
Hypothesis R_app :
  forall s s1 s2 l1 l2, R s s1 l1 -> R s1 s2 l2 -> R s s2 (l1 ++ l2).

Lemma respects_ret {A} (a : A) : respects R (ret a).
Proof. intros s b s' l H. mrun. apply R_nil. Qed.

Lemma respects_abort {A} : respects R (@abort A).
Proof. intros s b s' l H. discriminate H. Qed.

Lemma respects_bind {A B} (m : M A) (f : A -> M B) :
  respects R m -> (forall a, respects R (f a)) -> respects R (bind m f).
Proof.
  intros Hm Hf s b s' l H. apply bind_inv in H.
  destruct H as (a & s1 & l1 & l2 & H1 & H2 & ->).
  eapply R_app; [eapply Hm|eapply Hf]; eassumption.
Qed.

Lemma respects_assert b : respects R (assert b).
Proof. intros s a s' l H. mrun. apply R_nil. Qed.

Lemma respects_deref {A} (o : option A) : respects R (deref o).
Proof. intros s a s' l H. mrun. apply R_nil. Qed.

Lemma respects_getState : respects R getState.
Proof. intros s a s' l H. mrun. apply R_nil. Qed.

Lemma respects_when b m : respects R m -> respects R (when b m).
Proof. intros Hm. destruct b; simpl; [exact Hm|apply respects_ret]. Qed.

Lemma respects_foldM {A S} (body : S -> A -> M S) xs :
  (forall acc x, respects R (body acc x)) ->
  forall acc, respects R (foldM body xs acc).
Proof.
  intros Hbody. induction xs as [|x xs IH]; intros acc; simpl.
  - apply respects_ret.
  - apply respects_bind; [apply Hbody|exact IH].
Qed.

Lemma respects_forEach {A} (body : A -> M unit) xs :
  (forall x, respects R (body x)) -> respects R (forEach xs body).
Proof.
  intros Hbody. induction xs as [|x xs IH]; simpl.
  - apply respects_ret.
  - apply respects_bind; [apply Hbody|intros _; exact IH].
Qed.

End Respects.

Ltac unfold_builders :=
  unfold BuildIndir, BuildIndir_unaligned, BuildIndir_addrMode,
    BuildIndir_simd12, BuildCall, BuildCall_ctrlExpr, BuildCall_target,
    BuildCall_ctrlExprUse, BuildCall_defsAndKills, BuildPutArgStk,
    BuildPutArgStk_field, BuildPutArgSplit, BuildPutArgSplit_argMask,
    BuildPutArgSplit_field, BuildPutArgSplit_regCount, BuildPutArgSplit_reg,
    BuildBlockStore, BuildBlockStore_init, BuildBlockStore_copy,
    BuildBlockStore_CpObjUnroll, BuildBlockStore_Unroll,
    BuildBlockStore_UnrollMemmove, BuildBlockStore_addrUse, BuildCast,
    BuildSelect, forUpTo.

(** Walks the structure of a builder down to the requirement primitives,
    which [prim] settles; [nilp] and [appp] are the two laws of the
    relation. *)
Ltac respects_walk nilp appp prim :=
  repeat
    (cbv beta zeta;
     lazymatch goal with
     | |- respects _ (ret _) => apply respects_ret; exact nilp
     | |- respects _ abort => apply respects_abort
     | |- respects _ unreached => apply respects_abort
     | |- respects _ (assert _) => apply respects_assert; exact nilp
     | |- respects _ (deref _) => apply respects_deref; exact nilp
     | |- respects _ getState => apply respects_getState; exact nilp
     | |- respects _ (when _ _) => apply respects_when; [exact nilp|]
     | |- respects _ (bind _ _) => apply respects_bind; [exact appp| |intro]
     | |- respects _ (foldM _ _ _) =>
         apply respects_foldM; [exact nilp|exact appp|intros ? ?]
     | |- respects _ (forEach _ _) =>
         apply respects_forEach; [exact nilp|exact appp|intro]
     | |- respects _ (if ?b then _ else _) => destruct b
     | |- respects _ (match ?x with _ => _ end) => destruct x
     | |- respects _ _ => prim
     end).

Ltac prim_run := intros ?s ?a ?s' ?l ?H; mrun.

Lemma keepsRegisters_nil s : keepsRegisters s s [].
Proof. unfold keepsRegisters. rewrite app_nil_r. auto. Qed.

Lemma keepsRegisters_app s s1 s2 l1 l2 :
  keepsRegisters s s1 l1 -> keepsRegisters s1 s2 l2 ->
  keepsRegisters s s2 (l1 ++ l2).
Proof.
  unfold keepsRegisters. intros (A1 & F1 & D1) (A2 & F2 & D2).
  rewrite reservedOf_app, app_assoc, <- D1. repeat split; congruence.
Qed.

Ltac keepsRegisters_prim :=
  prim_run; unfold keepsRegisters; simpl;
  rewrite ?reservedOf_uses, ?reservedOf_internalUses, ?app_nil_r; auto.

Ltac keepsRegisters_walk :=
  unfold_builders;
  respects_walk keepsRegisters_nil keepsRegisters_app keepsRegisters_prim.

Lemma keepsPlacement_nil s : keepsPlacement s s [].
Proof. unfold keepsPlacement. auto. Qed.

Lemma keepsPlacement_app s s1 s2 l1 l2 :
  keepsPlacement s s1 l1 -> keepsPlacement s1 s2 l2 ->
  keepsPlacement s s2 (l1 ++ l2).
Proof. unfold keepsPlacement. intuition congruence. Qed.

Ltac keepsPlacement_walk :=
  unfold_builders;
  respects_walk keepsPlacement_nil keepsPlacement_app
    ltac:(prim_run; unfold keepsPlacement; simpl; auto).

Lemma keepsDelayFree_nil s : keepsDelayFree s s [].
Proof. reflexivity. Qed.

Lemma keepsDelayFree_app s s1 s2 l1 l2 :
  keepsDelayFree s s1 l1 -> keepsDelayFree s1 s2 l2 ->
  keepsDelayFree s s2 (l1 ++ l2).
Proof. unfold keepsDelayFree. congruence. Qed.

Ltac keepsDelayFree_walk :=
  unfold_builders;
  respects_walk keepsDelayFree_nil keepsDelayFree_app
    ltac:(prim_run; unfold keepsDelayFree; simpl; auto).

Lemma createsOnly_nil P s : createsOnly P s s [].
Proof. constructor. Qed.

Lemma createsOnly_app P s s1 s2 l1 l2 :
  createsOnly P s s1 l1 -> createsOnly P s1 s2 l2 ->
  createsOnly P s s2 (l1 ++ l2).
Proof. unfold createsOnly. intros H1 H2. apply Forall_app. auto. Qed.

Ltac createsOnly_prim :=
  prim_run; unfold createsOnly; simpl; rewrite ?app_nil_r;
  repeat first
    [ apply Forall_nil
    | apply Forall_cons
    | apply Forall_uses; intros; exact I
    | apply Forall_internalUses; intros; exact I ];
  simpl; auto.

Ltac createsOnly_walk P :=
  unfold_builders;
  respects_walk (createsOnly_nil P) (createsOnly_app P) createsOnly_prim.

Lemma filter_none (p : RefPosition -> bool) l :
  Forall (fun r => p r = false) l -> filter p l = [].
Proof.
  induction 1 as [|r l Hr _ IH]; simpl; [reflexivity|].
  rewrite Hr. exact IH.
Qed.

Lemma filter_internalUses s : filter isInternalUse (internalUsesOf s) = internalUsesOf s.
Proof.
  unfold internalUsesOf. induction (internalDefs s) as [|d l IH]; simpl;
    [reflexivity|]. rewrite IH. reflexivity.
Qed.

Lemma beforeInternalUses_nil s : beforeInternalUses s s [].
Proof. constructor. Qed.

Lemma beforeInternalUses_app s s1 s2 l1 l2 :
  beforeInternalUses s s1 l1 -> beforeInternalUses s1 s2 l2 ->
  beforeInternalUses s s2 (l1 ++ l2).
Proof. unfold beforeInternalUses. intros H1 H2. apply Forall_app. auto. Qed.

Lemma afterInternalUses_nil s : afterInternalUses s s [].
Proof. unfold afterInternalUses. auto. Qed.

Lemma afterInternalUses_app s s1 s2 l1 l2 :
  afterInternalUses s s1 l1 -> afterInternalUses s1 s2 l2 ->
  afterInternalUses s s2 (l1 ++ l2).
Proof.
  unfold afterInternalUses. intros (F1 & D1 & E1) (F2 & D2 & E2).
  repeat split; [apply Forall_app; auto|congruence|congruence].
Qed.

Ltac forall_prim :=
  simpl; rewrite ?app_nil_r;
  repeat first
    [ apply Forall_nil
    | apply Forall_cons
    | apply Forall_uses; intros; simpl; auto ];
  simpl; auto.

Ltac beforeInternalUses_walk :=
  respects_walk beforeInternalUses_nil beforeInternalUses_app
    ltac:(prim_run; unfold beforeInternalUses; forall_prim).

Ltac afterInternalUses_walk :=
  respects_walk afterInternalUses_nil afterInternalUses_app
    ltac:(prim_run; unfold afterInternalUses; repeat split; forall_prim).

Lemma usesInternalOnce_before {A B} (m : M A) (f : A -> M B) :
  respects beforeInternalUses m ->
  (forall a, usesInternalOnce (f a)) ->
  usesInternalOnce (bind m f).
Proof.
  intros Hm Hf s b s' l H. apply bind_inv in H.
  destruct H as (a & s1 & l1 & l2 & H1 & H2 & ->).
  rewrite filter_app, (filter_none _ _ (Hm _ _ _ _ H1)). simpl.
  eapply Hf. eassumption.
Qed.

Lemma usesInternalOnce_here {B} (f : unit -> M B) :
  (forall a, respects afterInternalUses (f a)) ->
  usesInternalOnce (bind buildInternalRegisterUses f).
Proof.
  intros Hf s b s' l H. apply bind_inv in H.
  destruct H as (a & s1 & l1 & l2 & H1 & H2 & ->).
  apply internalUses_inv in H1. destruct H1 as (-> & ->).
  destruct (Hf _ _ _ _ _ H2) as (Hnone & Hd & He).
  fold (internalUsesOf s).
  rewrite filter_app, filter_internalUses, (filter_none _ _ Hnone), app_nil_r.
  unfold internalUsesOf. rewrite Hd, He. reflexivity.
Qed.

Lemma usesInternalOnce_abort {A} : usesInternalOnce (@abort A).
Proof. intros s a s' l H. discriminate H. Qed.

Ltac usesInternalOnce_walk :=
  unfold_builders;
  repeat
    (cbv beta zeta;
     lazymatch goal with
     | |- usesInternalOnce (bind buildInternalRegisterUses _) =>
         apply usesInternalOnce_here; intro; afterInternalUses_walk
     | |- usesInternalOnce (bind _ _) =>
         apply usesInternalOnce_before; [beforeInternalUses_walk|intro]
     | |- usesInternalOnce (if ?b then _ else _) => destruct b
     | |- usesInternalOnce (match ?x with _ => _ end) => destruct x
     | |- usesInternalOnce abort => apply usesInternalOnce_abort
     | |- usesInternalOnce unreached => apply usesInternalOnce_abort
     end).

Section BuilderInvariants.

Variable tgt : TargetDesc.
Variable compiler : Compiler.
Variable shared : SharedBuilders.

Lemma BuildIndir_keepsRegisters t :
  respects keepsRegisters (BuildIndir tgt shared t).
Proof. keepsRegisters_walk. Qed.

Lemma BuildCall_keepsRegisters t :
  respects keepsRegisters (BuildCall tgt compiler shared t).
Proof. keepsRegisters_walk. Qed.

Lemma BuildPutArgStk_keepsRegisters t :
  respects keepsRegisters (BuildPutArgStk tgt compiler shared t).
Proof. keepsRegisters_walk. Qed.

Lemma BuildPutArgSplit_keepsRegisters t :
  respects keepsRegisters (BuildPutArgSplit tgt shared t).
Proof. keepsRegisters_walk. Qed.

Lemma BuildBlockStore_keepsRegisters t :
  respects keepsRegisters (BuildBlockStore tgt compiler shared t).
Proof. keepsRegisters_walk. Qed.

Lemma BuildCast_keepsRegisters t :
  respects keepsRegisters (BuildCast tgt shared t).
Proof. keepsRegisters_walk. Qed.

Lemma BuildSelect_keepsRegisters t :
  respects keepsRegisters (BuildSelect shared t).
Proof. keepsRegisters_walk. Qed.

Lemma BuildIndir_keepsPlacement t :
  respects keepsPlacement (BuildIndir tgt shared t).
Proof. keepsPlacement_walk. Qed.

Lemma BuildPutArgStk_keepsPlacement t :
  respects keepsPlacement (BuildPutArgStk tgt compiler shared t).
Proof. keepsPlacement_walk. Qed.

Lemma BuildBlockStore_keepsPlacement t :
  respects keepsPlacement (BuildBlockStore tgt compiler shared t).
Proof. keepsPlacement_walk. Qed.

Lemma BuildCast_keepsPlacement t :
  respects keepsPlacement (BuildCast tgt shared t).
Proof. keepsPlacement_walk. Qed.

Lemma BuildSelect_keepsPlacement t :
  respects keepsPlacement (BuildSelect shared t).
Proof. keepsPlacement_walk. Qed.

Lemma BuildIndir_keepsDelayFree t :
  respects keepsDelayFree (BuildIndir tgt shared t).
Proof. keepsDelayFree_walk. Qed.

Lemma BuildCall_keepsDelayFree t :
  respects keepsDelayFree (BuildCall tgt compiler shared t).
Proof. keepsDelayFree_walk. Qed.

Lemma BuildPutArgStk_keepsDelayFree t :
  respects keepsDelayFree (BuildPutArgStk tgt compiler shared t).
Proof. keepsDelayFree_walk. Qed.

Lemma BuildPutArgSplit_keepsDelayFree t :
  respects keepsDelayFree (BuildPutArgSplit tgt shared t).
Proof. keepsDelayFree_walk. Qed.

Lemma BuildBlockStore_keepsDelayFree t :
  respects keepsDelayFree (BuildBlockStore tgt compiler shared t).
Proof. keepsDelayFree_walk. Qed.

Lemma BuildSelect_keepsDelayFree t :
  respects keepsDelayFree (BuildSelect shared t).
Proof. keepsDelayFree_walk. Qed.

Lemma BuildIndir_createsOnly t :
  respects (createsOnly (indirRecord t)) (BuildIndir tgt shared t).
Proof. createsOnly_walk (indirRecord t). Qed.

Lemma BuildCall_createsOnly t :
  respects (createsOnly (callRecord t)) (BuildCall tgt compiler shared t).
Proof. createsOnly_walk (callRecord t). Qed.

Lemma BuildPutArgStk_createsOnly t :
  respects (createsOnly putArgStkRecord) (BuildPutArgStk tgt compiler shared t).
Proof. createsOnly_walk putArgStkRecord. Qed.

Lemma BuildPutArgSplit_createsOnly t :
  respects (createsOnly (putArgSplitRecord t)) (BuildPutArgSplit tgt shared t).
Proof. createsOnly_walk (putArgSplitRecord t). Qed.

Lemma BuildBlockStore_createsOnly t :
  respects (createsOnly (blockStoreRecord t))
    (BuildBlockStore tgt compiler shared t).
Proof. createsOnly_walk (blockStoreRecord t). Qed.

Lemma BuildCast_createsOnly t :
  respects (createsOnly (castRecord t)) (BuildCast tgt shared t).
Proof. createsOnly_walk (castRecord t). Qed.

Lemma BuildSelect_createsOnly t :
  respects (createsOnly (selectRecord t)) (BuildSelect shared t).
Proof. createsOnly_walk (selectRecord t). Qed.

Lemma BuildIndir_usesInternalOnce t :
  usesInternalOnce (BuildIndir tgt shared t).
Proof. usesInternalOnce_walk. Qed.

Lemma BuildCall_usesInternalOnce t :
  usesInternalOnce (BuildCall tgt compiler shared t).
Proof. usesInternalOnce_walk. Qed.

Lemma BuildPutArgStk_usesInternalOnce t :
  usesInternalOnce (BuildPutArgStk tgt compiler shared t).
Proof. usesInternalOnce_walk. Qed.

Lemma BuildPutArgSplit_usesInternalOnce t :
  usesInternalOnce (BuildPutArgSplit tgt shared t).
Proof. usesInternalOnce_walk. Qed.

Lemma BuildBlockStore_usesInternalOnce t :
  usesInternalOnce (BuildBlockStore tgt compiler shared t).
Proof. usesInternalOnce_walk. Qed.

Lemma BuildCast_usesInternalOnce t :
  usesInternalOnce (BuildCast tgt shared t).
Proof. usesInternalOnce_walk. Qed.

(** X1.  No builder of the file changes the registers available to the
    allocator, and after a completed build the pending scratch registers are
    those pending before followed by exactly the ones the node's RefPositions
    reserve, in order. *)
Theorem builders_keep_registers node s n s' evs :
  BuildIndir tgt shared node s = Some (n, s', evs)
  \/ BuildCall tgt compiler shared node s = Some (n, s', evs)
  \/ BuildPutArgStk tgt compiler shared node s = Some (n, s', evs)
  \/ BuildPutArgSplit tgt shared node s = Some (n, s', evs)
  \/ BuildBlockStore tgt compiler shared node s = Some (n, s', evs)
  \/ BuildCast tgt shared node s = Some (n, s', evs)
  \/ BuildSelect shared node s = Some (n, s', evs) ->
  availableIntRegs s' = availableIntRegs s
  /\ availableFloatRegs s' = availableFloatRegs s
  /\ internalDefs s' = internalDefs s ++ reservedOf evs.
Proof.
  intros [H|[H|[H|[H|[H|[H|H]]]]]].
  - exact (BuildIndir_keepsRegisters _ _ _ _ _ H).
  - exact (BuildCall_keepsRegisters _ _ _ _ _ H).
  - exact (BuildPutArgStk_keepsRegisters _ _ _ _ _ H).
  - exact (BuildPutArgSplit_keepsRegisters _ _ _ _ _ H).
  - exact (BuildBlockStore_keepsRegisters _ _ _ _ _ H).
  - exact (BuildCast_keepsRegisters _ _ _ _ _ H).
  - exact (BuildSelect_keepsRegisters _ _ _ _ _ H).
Qed.

(** X2.  The builders of an indirection, a stack argument, a block store, a
    cast and a select never touch the cross-call placement state
    ([placedArgRegs], [numPlacedArgLocals]) nor the register annotation of a
    split argument: what a split argument placed survives them until the
    call is built. *)
Theorem builders_keep_placement_state node s n s' evs :
  BuildIndir tgt shared node s = Some (n, s', evs)
  \/ BuildPutArgStk tgt compiler shared node s = Some (n, s', evs)
  \/ BuildBlockStore tgt compiler shared node s = Some (n, s', evs)
  \/ BuildCast tgt shared node s = Some (n, s', evs)
  \/ BuildSelect shared node s = Some (n, s', evs) ->
  placedArgRegs s' = placedArgRegs s
  /\ numPlacedArgLocals s' = numPlacedArgLocals s
  /\ regNumByIdx s' = regNumByIdx s.
Proof.
  intros [H|[H|[H|[H|H]]]].
  - exact (BuildIndir_keepsPlacement _ _ _ _ _ H).
  - exact (BuildPutArgStk_keepsPlacement _ _ _ _ _ H).
  - exact (BuildBlockStore_keepsPlacement _ _ _ _ _ H).
  - exact (BuildCast_keepsPlacement _ _ _ _ _ H).
  - exact (BuildSelect_keepsPlacement _ _ _ _ _ H).
Qed.

(** X3.  Every builder but the cast builder leaves [setInternalRegsDelayFree]
    as it found it. *)
Theorem builders_keep_delay_free_flag node s n s' evs :
  BuildIndir tgt shared node s = Some (n, s', evs)
  \/ BuildCall tgt compiler shared node s = Some (n, s', evs)
  \/ BuildPutArgStk tgt compiler shared node s = Some (n, s', evs)
  \/ BuildPutArgSplit tgt shared node s = Some (n, s', evs)
  \/ BuildBlockStore tgt compiler shared node s = Some (n, s', evs)
  \/ BuildSelect shared node s = Some (n, s', evs) ->
  setInternalRegsDelayFree s' = setInternalRegsDelayFree s.
Proof.
  intros [H|[H|[H|[H|[H|H]]]]].
  - exact (BuildIndir_keepsDelayFree _ _ _ _ _ H).
  - exact (BuildCall_keepsDelayFree _ _ _ _ _ H).
  - exact (BuildPutArgStk_keepsDelayFree _ _ _ _ _ H).
  - exact (BuildPutArgSplit_keepsDelayFree _ _ _ _ _ H).
  - exact (BuildBlockStore_keepsDelayFree _ _ _ _ _ H).
  - exact (BuildSelect_keepsDelayFree _ _ _ _ _ H).
Qed.

(** X4.  Each builder creates only the kinds of RefPosition of its node
    category: an indirection never kills and never reserves a vector
    register; a call never reserves a vector register and defines only
    together with its kills; a stack argument never defines or kills; a split
    argument defines only through [BuildDefs]; a block store never defines;
    a cast reserves only a vector register; a select creates uses and its
    definition only.  Scratch registers, definitions and kills are those of
    the node itself. *)
Theorem builders_create_only_their_records node s n s' evs :
  (BuildIndir tgt shared node s = Some (n, s', evs) ->
   Forall (indirRecord node) evs)
  /\ (BuildCall tgt compiler shared node s = Some (n, s', evs) ->
      Forall (callRecord node) evs)
  /\ (BuildPutArgStk tgt compiler shared node s = Some (n, s', evs) ->
      Forall putArgStkRecord evs)
  /\ (BuildPutArgSplit tgt shared node s = Some (n, s', evs) ->
      Forall (putArgSplitRecord node) evs)
  /\ (BuildBlockStore tgt compiler shared node s = Some (n, s', evs) ->
      Forall (blockStoreRecord node) evs)
  /\ (BuildCast tgt shared node s = Some (n, s', evs) ->
      Forall (castRecord node) evs)
  /\ (BuildSelect shared node s = Some (n, s', evs) ->
      Forall (selectRecord node) evs).
Proof.
  repeat split; intros H.
  - exact (BuildIndir_createsOnly _ _ _ _ _ H).
  - exact (BuildCall_createsOnly _ _ _ _ _ H).
  - exact (BuildPutArgStk_createsOnly _ _ _ _ _ H).
  - exact (BuildPutArgSplit_createsOnly _ _ _ _ _ H).
  - exact (BuildBlockStore_createsOnly _ _ _ _ _ H).
  - exact (BuildCast_createsOnly _ _ _ _ _ H).
  - exact (BuildSelect_createsOnly _ _ _ _ _ H).
Qed.

(** X5.  In every builder that reserves scratch registers (all but select),
    the uses of scratch registers a completed build creates are exactly one
    per scratch register pending at entry or reserved by the node, in the
    order of reservation, each flagged with the final delay-free flag. *)
Theorem scratch_registers_are_used_once node s n s' evs :
  BuildIndir tgt shared node s = Some (n, s', evs)
  \/ BuildCall tgt compiler shared node s = Some (n, s', evs)
  \/ BuildPutArgStk tgt compiler shared node s = Some (n, s', evs)
  \/ BuildPutArgSplit tgt shared node s = Some (n, s', evs)
  \/ BuildBlockStore tgt compiler shared node s = Some (n, s', evs)
  \/ BuildCast tgt shared node s = Some (n, s', evs) ->
  filter isInternalUse evs
  = map (fun d => RefTypeInternalUse (fst d) (snd d)
                    (setInternalRegsDelayFree s'))
        (internalDefs s ++ reservedOf evs).
Proof.
  intros H.
  assert (Hu : filter isInternalUse evs = internalUsesOf s').
  { destruct H as [H|[H|[H|[H|[H|H]]]]].
    - exact (BuildIndir_usesInternalOnce _ _ _ _ _ H).
    - exact (BuildCall_usesInternalOnce _ _ _ _ _ H).
    - exact (BuildPutArgStk_usesInternalOnce _ _ _ _ _ H).
    - exact (BuildPutArgSplit_usesInternalOnce _ _ _ _ _ H).
    - exact (BuildBlockStore_usesInternalOnce _ _ _ _ _ H).
    - exact (BuildCast_usesInternalOnce _ _ _ _ _ H). }
  assert (Hd : internalDefs s' = internalDefs s ++ reservedOf evs).
  { destruct H as [H|[H|[H|[H|[H|H]]]]].
    - exact (proj2 (proj2 (BuildIndir_keepsRegisters _ _ _ _ _ H))).
    - exact (proj2 (proj2 (BuildCall_keepsRegisters _ _ _ _ _ H))).
    - exact (proj2 (proj2 (BuildPutArgStk_keepsRegisters _ _ _ _ _ H))).
    - exact (proj2 (proj2 (BuildPutArgSplit_keepsRegisters _ _ _ _ _ H))).
    - exact (proj2 (proj2 (BuildBlockStore_keepsRegisters _ _ _ _ _ H))).
    - exact (proj2 (proj2 (BuildCast_keepsRegisters _ _ _ _ _ H))). }
  rewrite Hu. unfold internalUsesOf. rewrite Hd. reflexivity.
Qed.

End BuilderInvariants.

(** ** What each builder creates *)

Section BuilderShapes.

Variable tgt : TargetDesc.
Variable compiler : Compiler.
Variable shared : SharedBuilders.

(** *** BuildIndir *)

Lemma BuildIndir_unaligned_reserves indirTree s u s' l :
  when (isArm (TARGET tgt)) (BuildIndir_unaligned indirTree) s
    = Some (u, s', l) ->
  exists k,
    l = repeat (RefTypeInternalDef IntRegisterType indirTree RBM_NONE) k
    /\ (k <= 2)%nat
    /\ (isArm (TARGET tgt) = false \/ hasFlag indirTree GTF_IND_UNALIGNED = false
        -> k = 0%nat).
Proof.
  unfold BuildIndir_unaligned. intros H. mrun.
  all: try (exists 0%nat; repeat split; auto; lia).
  all: try (exists 1%nat; repeat split; auto;
            intros [?|?]; congruence).
  all: try (exists 2%nat; repeat split; auto;
            intros [?|?]; congruence).
Qed.

Lemma BuildIndir_addrMode_reserves indirTree addr s u s' l :
  BuildIndir_addrMode tgt indirTree addr s = Some (u, s', l) ->
  exists k,
    l = repeat (RefTypeInternalDef IntRegisterType indirTree RBM_NONE) k
    /\ (k <= 1)%nat
    /\ (isContained addr = false -> k = 0%nat).
Proof.
  unfold BuildIndir_addrMode. intros H. mrun.
  all: try (exists 0%nat; repeat split; auto; lia).
  all: try (exists 1%nat; repeat split; auto; congruence).
Qed.

Lemma BuildIndir_simd12_reserves indirTree addr s u s' l :
  when (FEATURE_SIMD tgt) (BuildIndir_simd12 indirTree addr) s
    = Some (u, s', l) ->
  exists k,
    l = repeat (RefTypeInternalDef IntRegisterType indirTree RBM_NONE) k
    /\ (k <= 1)%nat
    /\ (isContained addr = true \/ TypeIs indirTree TYP_SIMD12 = false
        -> k = 0%nat).
Proof.
  unfold BuildIndir_simd12. intros H. mrun.
  all: try (exists 0%nat; repeat split; auto; lia).
  all: try (exists 1%nat; repeat split; auto;
            intros [?|?]; try congruence).
  all: match goal with
       | H : negb _ = true |- _ => apply negb_true_iff in H; congruence
       end.
Qed.

(** X6.  A completed [BuildIndir] creates, in this order: its scratch
    integer registers (all for the indirection, without candidates), the uses
    [BuildIndirUses] returns, one use per pending scratch register, and then
    the definition of the node -- unless the node is a [GT_STOREIND] or a
    [GT_NULLCHECK], which define nothing.  It returns the helper's count.  At
    most three scratch registers are reserved, at most one off ARM, and none
    for an access that is not flagged unaligned (or is off ARM), goes through
    an address that is not contained and is not of type [TYP_SIMD12]. *)
Theorem BuildIndir_scratch_uses_definition indirTree s n s' evs :
  BuildIndir tgt shared indirTree s = Some (n, s', evs) ->
  exists addr k us,
    gtOp1 indirTree = Some addr
    /\ TypeIs indirTree TYP_STRUCT = false
    /\ BuildIndirUses shared indirTree RBM_NONE s' = Some (n, us)
    /\ evs = repeat (RefTypeInternalDef IntRegisterType indirTree RBM_NONE) k
             ++ map useRef us
             ++ internalUsesOf s'
             ++ (if OperIs indirTree GT_STOREIND
                    || OperIs indirTree GT_NULLCHECK
                 then [] else [RefTypeDef indirTree RBM_NONE])
    /\ (k <= 3)%nat
    /\ (isArm (TARGET tgt) = false -> (k <= 1)%nat)
    /\ (isArm (TARGET tgt) = false
        \/ hasFlag indirTree GTF_IND_UNALIGNED = false ->
        isContained addr = false ->
        TypeIs indirTree TYP_SIMD12 = false ->
        k = 0%nat).
Proof.
  unfold BuildIndir. intros H.
  apply bind_inv in H. destruct H as ([] & s0 & l0 & lr & Ha & H & ->).
  apply assert_inv in Ha. destruct Ha as (Hstruct & -> & ->).
  apply negb_true_iff in Hstruct.
  apply bind_inv in H. destruct H as (addr & s0 & l0 & lr0 & Ha & H & ->).
  apply deref_inv in Ha. destruct Ha as (Haddr & -> & ->).
  apply bind_inv in H. destruct H as ([] & s1 & l1 & lr1 & H1 & H & ->).
  apply bind_inv in H. destruct H as ([] & s2 & l2 & lr2 & H2 & H & ->).
  apply bind_inv in H. destruct H as ([] & s3 & l3 & lr3 & H3 & H & ->).
  apply BuildIndir_unaligned_reserves in H1. destruct H1 as (k1 & -> & Hk1 & Hz1).
  apply BuildIndir_addrMode_reserves in H2. destruct H2 as (k2 & -> & Hk2 & Hz2).
  apply BuildIndir_simd12_reserves in H3. destruct H3 as (k3 & -> & Hk3 & Hz3).
  apply bind_inv in H. destruct H as (n' & s4 & l4 & lr4 & H4 & H & ->).
  apply runUses_inv in H4. destruct H4 as (us & Hus & -> & ->).
  apply bind_inv in H. destruct H as ([] & s4 & l4 & lr5 & H5 & H & ->).
  apply internalUses_inv in H5. destruct H5 as (-> & ->).
  exists addr, (k1 + (k2 + k3))%nat, us.
  assert (Hlast : s' = s3 /\ n = n'
                  /\ lr5 = (if OperIs indirTree GT_STOREIND
                               || OperIs indirTree GT_NULLCHECK
                            then [] else [RefTypeDef indirTree RBM_NONE])).
  { destruct (OperIs indirTree GT_STOREIND || OperIs indirTree GT_NULLCHECK);
      simpl in H; mrun; auto. }
  destruct Hlast as (-> & -> & ->).
  repeat split; auto.
  - simpl. rewrite !repeat_app, <- !app_assoc. reflexivity.
  - assert (k2 = 0 \/ k3 = 0)%nat.
    { destruct (isContained addr) eqn:Ec; [right|left]; auto. }
    lia.
  - intros Harm. rewrite (Hz1 (or_introl Harm)).
    assert (k2 = 0 \/ k3 = 0)%nat.
    { destruct (isContained addr) eqn:Ec; [right|left]; auto. }
    lia.
  - intros Hu Hc Hs. rewrite (Hz1 Hu), (Hz2 Hc), (Hz3 (or_intror Hs)).
    reflexivity.
Qed.

Lemma BuildIndir_unaligned_completes indirTree s :
  (isArm (TARGET tgt) = true ->
   hasFlag indirTree GTF_IND_UNALIGNED = true ->
   OperIs indirTree GT_STOREIND = true -> gtOp2 indirTree <> None) ->
  exists s1 l1,
    when (isArm (TARGET tgt)) (BuildIndir_unaligned indirTree) s
    = Some (tt, s1, l1).
Proof.
  intros Hd. unfold BuildIndir_unaligned, when.
  destruct (isArm (TARGET tgt)); [|do 2 eexists; reflexivity].
  destruct (hasFlag indirTree GTF_IND_UNALIGNED); [|do 2 eexists; reflexivity].
  destruct (OperIs indirTree GT_STOREIND).
  - destruct (gtOp2 indirTree) as [data|] eqn:Ed;
      [|exfalso; apply Hd; reflexivity].
    unfold bind at 1. unfold bind at 1. simpl.
    destruct (var_types_eqb (TypeGet data) TYP_FLOAT);
      [do 2 eexists; reflexivity|].
    destruct (var_types_eqb (TypeGet data) TYP_DOUBLE);
      do 2 eexists; reflexivity.
  - destruct (OperIs indirTree GT_IND); unfold bind at 1; simpl.
    + destruct (var_types_eqb (TypeGet indirTree) TYP_FLOAT);
        [do 2 eexists; reflexivity|].
      destruct (var_types_eqb (TypeGet indirTree) TYP_DOUBLE);
        do 2 eexists; reflexivity.
    + do 2 eexists; reflexivity.
Qed.

Lemma BuildIndir_addrMode_completes indirTree addr s :
  (isContained addr = true -> OperIs addr GT_LEA = true ->
   AsAddrMode addr <> None) ->
  exists s1 l1, BuildIndir_addrMode tgt indirTree addr s = Some (tt, s1, l1).
Proof.
  intros Hd. unfold BuildIndir_addrMode, when.
  destruct (isContained addr); [|do 2 eexists; reflexivity].
  destruct (OperIs addr GT_LEA); [|do 2 eexists; reflexivity].
  destruct (AsAddrMode addr) as [offset|]; [|exfalso; apply Hd; reflexivity].
  unfold bind at 1. simpl.
  destruct (isSome (gtOp2 addr) && negb (toInt32 offset =? 0));
    [do 2 eexists; reflexivity|].
  destruct (negb (emitIns_valid_imm_for_ldst_offset tgt (toInt32 offset)
                    (emitTypeSize tgt (TypeGet indirTree))));
    do 2 eexists; reflexivity.
Qed.

Lemma BuildIndir_simd12_completes indirTree addr s :
  (FEATURE_SIMD tgt = true -> TypeIs indirTree TYP_SIMD12 = true ->
   isContained addr = false) ->
  exists s1 l1,
    when (FEATURE_SIMD tgt) (BuildIndir_simd12 indirTree addr) s
    = Some (tt, s1, l1).
Proof.
  intros Hd. unfold BuildIndir_simd12, when.
  destruct (FEATURE_SIMD tgt); [|do 2 eexists; reflexivity].
  destruct (TypeIs indirTree TYP_SIMD12); [|do 2 eexists; reflexivity].
  rewrite (Hd eq_refl eq_refl). do 2 eexists; reflexivity.
Qed.

(** X7.  When [BuildIndirUses] never fails on the node, the build of an
    indirection completes exactly when the node is not of type [TYP_STRUCT],
    has an address, the casts of the builder apply (an unaligned store on ARM
    has its data, a contained [GT_LEA] is an address mode) and the address of
    a [TYP_SIMD12] access is not contained; otherwise an assertion stops
    it. *)
Theorem BuildIndir_completes_iff indirTree s :
  (forall s1, BuildIndirUses shared indirTree RBM_NONE s1 <> None) ->
  (exists n s' evs, BuildIndir tgt shared indirTree s = Some (n, s', evs))
  <-> BuildIndir_assertions tgt indirTree.
Proof.
  intros Hhelper. split.
  - intros (n & s' & evs & H). unfold BuildIndir in H.
    apply bind_inv in H. destruct H as ([] & s0 & l0 & lr & Ha & H & ->).
    apply assert_inv in Ha. destruct Ha as (Hstruct & -> & ->).
    apply negb_true_iff in Hstruct.
    apply bind_inv in H. destruct H as (addr & s0 & l0 & lr0 & Ha & H & ->).
    apply deref_inv in Ha. destruct Ha as (Haddr & -> & ->).
    apply bind_inv in H. destruct H as ([] & s1 & l1 & lr1 & H1 & H & ->).
    apply bind_inv in H. destruct H as ([] & s2 & l2 & lr2 & H2 & H & ->).
    apply bind_inv in H. destruct H as ([] & s3 & l3 & lr3 & H3 & _ & ->).
    split; [exact Hstruct|]. exists addr. split; [exact Haddr|].
    split; [|split].
    + intros Harm Hu Hst. rewrite Harm in H1. unfold when in H1.
      unfold BuildIndir_unaligned in H1. rewrite Hu, Hst in H1.
      unfold when in H1. intros Hnone. rewrite Hnone in H1.
      discriminate H1.
    + intros Hc Hlea. unfold BuildIndir_addrMode in H2.
      rewrite Hc, Hlea in H2. unfold when in H2. intros Hnone.
      rewrite Hnone in H2. discriminate H2.
    + intros Hsimd Hty. rewrite Hsimd in H3. unfold when in H3.
      unfold BuildIndir_simd12 in H3. rewrite Hty in H3. unfold when in H3.
      destruct (isContained addr); [discriminate H3|reflexivity].
  - intros (Hstruct & addr & Haddr & Hdata & Hmode & Hsimd).
    unfold BuildIndir. rewrite Hstruct, Haddr.
    rewrite (bind_run _ _ _ tt s []) by reflexivity.
    rewrite (bind_run _ _ _ addr s []) by reflexivity.
    destruct (BuildIndir_unaligned_completes indirTree s Hdata)
      as (s1 & l1 & H1).
    rewrite (bind_run _ _ _ _ _ _ H1).
    destruct (BuildIndir_addrMode_completes indirTree addr s1 Hmode)
      as (s2 & l2 & H2).
    rewrite (bind_run _ _ _ _ _ _ H2).
    destruct (BuildIndir_simd12_completes indirTree addr s2 Hsimd)
      as (s3 & l3 & H3).
    rewrite (bind_run _ _ _ _ _ _ H3).
    destruct (BuildIndirUses shared indirTree RBM_NONE s3) as [[k us]|] eqn:Eu;
      [|exfalso; eapply Hhelper; eassumption].
    rewrite (bind_run _ _ _ k s3 (map useRef us))
      by (unfold runUses; rewrite Eu; reflexivity).
    rewrite (bind_run _ _ _ tt s3 (internalUsesOf s3)) by reflexivity.
    destruct (OperIs indirTree GT_STOREIND || OperIs indirTree GT_NULLCHECK);
      do 3 eexists; reflexivity.
Qed.

(** *** BuildCast and BuildSelect *)

(** X8.  A completed [BuildCast] creates the uses [BuildCastUses] returns,
    one use per pending scratch register, and the definition of the cast
    last.  On ARM, a cast from a floating-point source to a non-floating type
    first reserves one scratch vector register with all vector registers as
    candidates and marks the scratch registers delay-free, so that its use is
    created delay-free; in every other case the allocator state is unchanged.
    On ARM a long source is a contained [GT_LONG]. *)
Theorem BuildCast_float_to_int_scratch cast s n s' evs :
  BuildCast tgt shared cast s = Some (n, s', evs) ->
  exists castType src us,
    AsCast cast = Some castType
    /\ gtOp1 cast = Some src
    /\ BuildCastUses shared cast RBM_NONE s' = Some (n, us)
    /\ let srcType := genActualType (TypeGet src) in
       let floatToInt :=
         isArm (TARGET tgt)
         && (varTypeIsFloating srcType && negb (varTypeIsFloating castType)) in
       evs = (if floatToInt
              then [RefTypeInternalDef FloatRegisterType cast
                      (GetFloatRegSet (RBM_ALLFLOAT tgt))]
              else [])
             ++ map useRef us ++ internalUsesOf s'
             ++ [RefTypeDef cast RBM_NONE]
       /\ (floatToInt = true ->
           setInternalRegsDelayFree s' = true
           /\ In (RefTypeInternalUse FloatRegisterType
                    (GetFloatRegSet (RBM_ALLFLOAT tgt)) true) evs)
       /\ (floatToInt = false -> s' = s)
       /\ (isArm (TARGET tgt) = true -> varTypeIsLong srcType = true ->
           OperIs src GT_LONG = true /\ isContained src = true).
Proof.
  unfold BuildCast. intros H.
  apply bind_inv in H. destruct H as (castType & s0 & l0 & lr & Ha & H & ->).
  apply deref_inv in Ha. destruct Ha as (Hcast & -> & ->).
  apply bind_inv in H. destruct H as (src & s0 & l0 & lr0 & Ha & H & ->).
  apply deref_inv in Ha. destruct Ha as (Hsrc & -> & ->).
  exists castType, src.
  destruct (isArm (TARGET tgt)) eqn:Earm;
    [destruct (varTypeIsFloating (genActualType (TypeGet src))
               && negb (varTypeIsFloating castType)) eqn:Ef|];
    mrun; eexists; (split; [exact Hcast|]); (split; [exact Hsrc|]);
    (split; [eassumption|]); cbn zeta; rewrite ?Ef; cbn [andb].
  - split; [reflexivity|]. split; [|split; [discriminate|]].
    + intros _. split; [reflexivity|].
      cbn [app]. right. apply in_or_app. right. apply in_or_app. left.
      unfold internalUsesOf. cbn [internalDefs addInternalDef withDelayFree
                                    setInternalRegsDelayFree].
      rewrite map_app. apply in_or_app. right. left. reflexivity.
    + intros _ Hlong.
      match goal with
      | H : negb _ || _ = true |- _ =>
          rewrite Hlong in H; simpl in H; apply andb_true_iff in H; exact H
      end.
  - split; [reflexivity|]. split; [discriminate|]. split; [reflexivity|].
    intros _ Hlong.
    match goal with
    | H : negb _ || _ = true |- _ =>
        rewrite Hlong in H; simpl in H; apply andb_true_iff in H; exact H
    end.
  - split; [reflexivity|]. split; [discriminate|]. split; [reflexivity|].
    discriminate.
Qed.

(** X9.  A completed [BuildSelect] is the build of a [GT_SELECT] or a
    [GT_SELECTCC]; it leaves the allocator state unchanged and creates the
    uses of the condition (for [GT_SELECT] only; a [GT_SELECTCC] has none),
    then those of the first and of the second operand, each as
    [BuildOperandUses] returns them in the entry state, and the definition of
    the node last; it returns the sum of the helper's counts. *)
Theorem BuildSelect_operand_order select s n s' evs :
  BuildSelect shared select s = Some (n, s', evs) ->
  exists op1 op2 nc usc n1 us1 n2 us2,
    gtOp1 select = Some op1
    /\ gtOp2 select = Some op2
    /\ s' = s
    /\ (if OperIs select GT_SELECT
        then exists cond,
            AsConditional select = Some cond
            /\ BuildOperandUses shared cond RBM_NONE s = Some (nc, usc)
        else OperIs select GT_SELECTCC = true /\ nc = 0 /\ usc = [])
    /\ BuildOperandUses shared op1 RBM_NONE s = Some (n1, us1)
    /\ BuildOperandUses shared op2 RBM_NONE s = Some (n2, us2)
    /\ n = nc + n1 + n2
    /\ evs = map useRef usc ++ map useRef us1 ++ map useRef us2
             ++ [RefTypeDef select RBM_NONE].
Proof.
  unfold BuildSelect. intros H.
  apply bind_inv in H. destruct H as ([] & s0 & l0 & lr & Ha & H & ->).
  apply assert_inv in Ha. destruct Ha as (Hoper & -> & ->).
  apply bind_inv in H. destruct H as (nc & s0 & lc & lr0 & Hc & H & ->).
  apply bind_inv in H. destruct H as (op1 & s1 & l1 & lr1 & H1 & H & ->).
  apply deref_inv in H1. destruct H1 as (Hop1 & -> & ->).
  apply bind_inv in H. destruct H as (n1 & s1 & l1 & lr2 & H1 & H & ->).
  apply runUses_inv in H1. destruct H1 as (us1 & Hus1 & -> & ->).
  apply bind_inv in H. destruct H as (op2 & s1 & l2 & lr3 & H2 & H & ->).
  apply deref_inv in H2. destruct H2 as (Hop2 & -> & ->).
  apply bind_inv in H. destruct H as (n2 & s1 & l2 & lr4 & H2 & H & ->).
  apply runUses_inv in H2. destruct H2 as (us2 & Hus2 & -> & ->).
  apply bind_inv in H. destruct H as ([] & s1 & l3 & lr5 & H3 & H & ->).
  apply emit_inv in H3. destruct H3 as (-> & ->).
  apply ret_inv in H. destruct H as (-> & -> & ->).
  assert (Hcond : s0 = s /\ exists usc,
             lc = map useRef usc
             /\ if OperIs select GT_SELECT
                then exists cond,
                    AsConditional select = Some cond
                    /\ BuildOperandUses shared cond RBM_NONE s
                       = Some (nc, usc)
                else OperIs select GT_SELECTCC = true /\ nc = 0 /\ usc = []).
  { destruct (OperIs select GT_SELECT).
    - apply bind_inv in Hc. destruct Hc as (cond & s1 & l1 & lr & Ha & Hc & ->).
      apply deref_inv in Ha. destruct Ha as (Hcond & -> & ->).
      apply bind_inv in Hc. destruct Hc as (k & s1 & l1 & lr6 & Hu & Hc & ->).
      apply runUses_inv in Hu. destruct Hu as (usc & Hu & -> & ->).
      apply ret_inv in Hc. destruct Hc as (-> & -> & ->).
      split; [reflexivity|]. exists usc. split.
      + simpl. rewrite app_nil_r. reflexivity.
      + exists cond. split; [exact Hcond|]. exact Hu.
    - apply ret_inv in Hc. destruct Hc as (-> & -> & ->).
      split; [reflexivity|]. exists []. split; [reflexivity|].
      simpl in Hoper. auto. }
  destruct Hcond as (-> & usc & -> & Hcond).
  exists op1, op2, nc, usc, n1, us1, n2, us2.
  repeat split; auto.
Qed.

(** *** BuildCall *)

Lemma BuildCall_ctrlExpr_asserts c s e s' l :
  BuildCall_ctrlExpr c s = Some (e, s', l) ->
  gtCallTypes_eqb (gtCallType c) CT_INDIRECT = true ->
  gtControlExpr c = None /\ gtCallAddr c <> None.
Proof.
  unfold BuildCall_ctrlExpr. intros H Hind. rewrite Hind in H. mrun.
  unfold isNone, isSome in *.
  destruct (gtControlExpr c); [discriminate|].
  destruct (gtCallAddr c); [|discriminate]. split; [reflexivity|discriminate].
Qed.

Lemma BuildCall_target_asserts call c s cands s1 l1 :
  BuildCall_target tgt compiler call c (callTarget c) s
    = Some (cands, s1, l1) ->
  (forall e, callTarget c = Some e ->
     TypeIs e TYP_VOID = false
     /\ (IsFastTailCall c = true ->
         fastTailCallCandidates tgt compiler s <> RBM_NONE))
  /\ (callTarget c = None ->
      IsR2ROrVirtualStubRelativeIndir c = true ->
      IsFastTailCall c = true ->
      Z.land (allRegs s IntRegisterType) (getLow (RBM_INT_CALLEE_TRASH tgt))
      <> RBM_NONE).
Proof.
  unfold BuildCall_target. intros H. destruct (callTarget c) as [e|].
  - split; [|discriminate]. intros e' He. inversion He; subst e'.
    apply bind_inv in H. destruct H as (cc & s0 & l0 & lr & H & _ & _).
    apply bind_inv in H. destruct H as ([] & s2 & l2 & lr2 & Ha & H & _).
    apply assert_inv in Ha. destruct Ha as (Hvoid & -> & ->).
    apply negb_true_iff in Hvoid. split; [exact Hvoid|].
    intros Hfast. rewrite Hfast in H. mrun.
    match goal with
    | H : negb (_ =? _) = true |- _ =>
        apply negb_true_iff, Z.eqb_neq in H; exact H
    end.
  - split; [discriminate|]. intros _ Hr Hf. rewrite Hr, Hf in H.
    apply bind_inv in H. destruct H as (cc & s0 & l0 & lr & H & _ & _).
    apply bind_inv in H. destruct H as ([] & s2 & l2 & lr2 & H & _ & _).
    apply bind_inv in H. destruct H as (st & s3 & l3 & lr3 & Hg & H & _).
    apply getState_inv in Hg. destruct Hg as (-> & -> & ->).
    apply bind_inv in H. destruct H as ([] & s3 & l3' & lr3' & Ha & _ & _).
    apply assert_inv in Ha. destruct Ha as (Hne & _).
    apply negb_true_iff, Z.eqb_neq in Hne. exact Hne.
Qed.

Lemma BuildCall_ctrlExprUse_asserts call c e cands n0 s n s' l :
  BuildCall_ctrlExprUse tgt compiler call c (Some e) cands n0 s
    = Some (n, s', l) ->
  isTlsGetAddrSequence tgt compiler c e = true ->
  hasFlag call GTF_TLS_GET_ADDR = true.
Proof.
  unfold BuildCall_ctrlExprUse. intros H Htls. rewrite Htls in H. mrun.
  assumption.
Qed.

Lemma BuildCall_defsAndKills_asserts call c s u s' l :
  BuildCall_defsAndKills tgt compiler call c s = Some (u, s', l) ->
  0 < BuildCall_dstCount call c ->
  BuildCall_hasMultiRegRetVal call c = true ->
  0 < genCountBits (GetABIReturnRegs c).
Proof.
  unfold BuildCall_defsAndKills. intros H Hpos Hm.
  apply Z.ltb_lt in Hpos. rewrite Hpos, Hm in H. mrun.
  match goal with H : (0 <? _) = true |- _ => apply Z.ltb_lt in H; exact H end.
Qed.

(** X10.  When [BuildCallArgUses] never fails on the call, the build of a
    call completes exactly when the conditions the source asserts hold
    ([BuildCall_assertions]): an indirect call has a call address and no
    control expression; the target is not void; the candidates of a fast tail
    call's target, and of the scratch register of a fast tail call through a
    stub, are not empty; the TLS sequence applies only to a call flagged
    [GTF_TLS_GET_ADDR]; the return registers of a multi-register call are not
    empty. *)
Theorem BuildCall_completes_iff call c s :
  AsCall call = Some c ->
  (forall s1, BuildCallArgUses shared call s1 <> None) ->
  (exists n s' evs, BuildCall tgt compiler shared call s = Some (n, s', evs))
  <-> BuildCall_assertions tgt compiler call c s.
Proof.
  intros Hc Hargs. split.
  - intros (n & s' & evs & H). unfold BuildCall in H.
    apply bind_inv in H. destruct H as (c' & s0 & l0 & lr & Ha & H & _).
    apply deref_inv in Ha. destruct Ha as (Hc' & -> & ->).
    rewrite Hc in Hc'. inversion Hc'; subst c'. clear Hc'.
    apply bind_inv in H. destruct H as (e & s0 & l0 & lr0 & He & H & _).
    pose proof (BuildCall_ctrlExpr_asserts _ _ _ _ _ He) as Hind.
    apply BuildCall_ctrlExpr_inv in He. destruct He as (-> & -> & He).
    fold (callTarget c) in He. subst e.
    apply bind_inv in H. destruct H as (cands & s1 & l1 & lr1 & Ht & H & _).
    apply BuildCall_target_asserts in Ht. destruct Ht as (Htgt & Hr2r).
    apply bind_inv in H. destruct H as (argN & s2 & l2 & lr2 & Ha & H & _).
    apply runUses_inv in Ha. destruct Ha as (argUses & Ha & -> & ->).
    apply bind_inv in H. destruct H as (n' & s3 & l3 & lr3 & Hu & H & _).
    apply bind_inv in H. destruct H as ([] & s4 & l4 & lr4 & _ & H & _).
    apply bind_inv in H. destruct H as ([] & s5 & l5 & lr5 & _ & H & _).
    apply bind_inv in H. destruct H as ([] & s6 & l6 & lr6 & Hd & _ & _).
    split; [exact Hind|]. split; [|split; [exact Hr2r|]].
    + intros e He. destruct (Htgt e He) as (Hvoid & Hfast).
      split; [exact Hvoid|]. split; [exact Hfast|].
      rewrite He in Hu. eapply BuildCall_ctrlExprUse_asserts. exact Hu.
    + eapply BuildCall_defsAndKills_asserts. exact Hd.
  - intros Hassert. eapply BuildCall_completes; eassumption.
Qed.

Lemma BuildCall_target_reserves call c s cands s1 l1 :
  BuildCall_target tgt compiler call c (callTarget c) s
    = Some (cands, s1, l1) ->
  l1 = map (fun d => RefTypeInternalDef (fst d) call (snd d))
           (callScratch tgt c s)
  /\ placedArgRegs s1 = placedArgRegs s
  /\ numPlacedArgLocals s1 = numPlacedArgLocals s
  /\ regNumByIdx s1 = regNumByIdx s
  /\ internalDefs s1 = internalDefs s ++ callScratch tgt c s
  /\ setInternalRegsDelayFree s1 = setInternalRegsDelayFree s.
Proof.
  unfold BuildCall_target, callScratch. intros H.
  destruct (callTarget c) as [e|];
    [|destruct (IsR2ROrVirtualStubRelativeIndir c)];
    destruct (IsFastTailCall c), (isArm (TARGET tgt)), (NeedsNullCheck c);
    mrun; cbn [andb app map fst snd internalDefs addInternalDef
               placedArgRegs numPlacedArgLocals regNumByIdx
               setInternalRegsDelayFree];
    rewrite <- ?app_assoc, ?app_nil_r; auto.
  all: repeat split; auto.
Qed.

Lemma reservedOf_internalDefs tree l :
  reservedOf (map (fun d => RefTypeInternalDef (fst d) tree (snd d)) l) = l.
Proof.
  induction l as [|[t c] l IH]; simpl; [reflexivity|]. rewrite IH. reflexivity.
Qed.

Lemma reservedOf_none l :
  Forall (fun r => match r with RefTypeInternalDef _ _ _ => False | _ => True end) l ->
  reservedOf l = [].
Proof.
  induction 1 as [|r l Hr _ IH]; simpl; [reflexivity|].
  destruct r; auto; contradiction.
Qed.

(** X11.  The scratch registers a completed [BuildCall] reserves are
    exactly: when there is no target expression, one to stage the target --
    within the caller-trashed integer registers for a fast tail call through
    a stub, unconstrained on ARM otherwise, none on ARM64 otherwise -- and, on
    ARM, one for a null check, bound to [lr] on a fast tail call.  So at most
    two are reserved, and off ARM one is reserved only for a fast tail call
    through a stub without target expression. *)
Theorem BuildCall_scratch_registers call c s n s' evs :
  BuildCall tgt compiler shared call s = Some (n, s', evs) ->
  AsCall call = Some c ->
  reservedOf evs = callScratch tgt c s
  /\ (length (callScratch tgt c s) <= 2)%nat
  /\ (isArm (TARGET tgt) = false ->
      callScratch tgt c s <> [] ->
      callTarget c = None
      /\ IsR2ROrVirtualStubRelativeIndir c = true
      /\ IsFastTailCall c = true)
  /\ (isArm (TARGET tgt) = true -> NeedsNullCheck c = true ->
      IsFastTailCall c = true ->
      In (RefTypeInternalDef IntRegisterType call (SRBM_LR tgt)) evs).
Proof.
  intros H Hc. apply BuildCall_inv in H.
  destruct H as (c' & cands & s1 & l1 & argN & argUses & l2
                 & Hc' & Ht & Ha & Hu & -> & ->).
  rewrite Hc in Hc'. inversion Hc'; subst c'. clear Hc'.
  apply BuildCall_target_reserves in Ht. destruct Ht as (-> & _).
  split; [|split; [|split]].
  - rewrite reservedOf_app, reservedOf_internalDefs.
    rewrite (reservedOf_none (_ ++ _)); [apply app_nil_r|].
    rewrite !Forall_app. repeat split.
    + apply Forall_uses. intros; exact I.
    + unfold BuildCall_ctrlExprUse in Hu.
      destruct (callTarget c); mrun; repeat constructor.
    + apply Forall_internalUses. intros; exact I.
    + destruct (markAsyncCondition compiler c); repeat constructor.
    + unfold callDefsAndKills.
      destruct (0 <? BuildCall_dstCount call c);
        [destruct (BuildCall_hasMultiRegRetVal call c)|]; repeat constructor.
    + destruct (SWIFT_SUPPORT tgt && HasSwiftErrorHandling c);
        repeat constructor.
  - unfold callScratch.
    destruct (callTarget c), (IsR2ROrVirtualStubRelativeIndir c && IsFastTailCall c),
      (isArm (TARGET tgt)), (NeedsNullCheck c); simpl; lia.
  - intros Harm. unfold callScratch. rewrite Harm. cbn [andb].
    destruct (callTarget c); [intros Hn; exfalso; apply Hn; reflexivity|].
    destruct (IsR2ROrVirtualStubRelativeIndir c), (IsFastTailCall c);
      cbn [andb app]; intros Hn; auto; exfalso; apply Hn; reflexivity.
  - intros Harm Hnull Hfast. apply in_or_app. left.
    unfold callScratch. rewrite Harm, Hnull, Hfast. cbn [andb].
    rewrite map_app. apply in_or_app. right. left. reflexivity.
Qed.

(** X12.  A completed [BuildCall] creates its scratch registers first, then
    the uses [BuildCallArgUses] returns, run with the available integer
    registers and the placement state ([placedArgRegs], [numPlacedArgLocals],
    the split-argument annotations) as they were on entry; among what follows
    there is exactly one more use when the call has a target and none
    otherwise.  The value returned is the helper's count, plus one when the
    call has a target. *)
Theorem BuildCall_arguments_then_target call c s n s' evs :
  BuildCall tgt compiler shared call s = Some (n, s', evs) ->
  AsCall call = Some c ->
  exists s1 argN argUses rest,
    BuildCallArgUses shared call s1 = Some (argN, argUses)
    /\ availableIntRegs s1 = availableIntRegs s
    /\ placedArgRegs s1 = placedArgRegs s
    /\ numPlacedArgLocals s1 = numPlacedArgLocals s
    /\ regNumByIdx s1 = regNumByIdx s
    /\ n = argN + (if isSome (callTarget c) then 1 else 0)
    /\ evs = map (fun d => RefTypeInternalDef (fst d) call (snd d))
                 (callScratch tgt c s)
             ++ map useRef argUses ++ rest
    /\ useCountOf rest = (if isSome (callTarget c) then 1 else 0).
Proof.
  intros H Hc. apply BuildCall_inv in H.
  destruct H as (c' & cands & s1 & l1 & argN & argUses & l2
                 & Hc' & Ht & Ha & Hu & -> & ->).
  rewrite Hc in Hc'. inversion Hc'; subst c'. clear Hc'.
  pose proof (BuildCall_target_footprint _ _ _ _ _ _ _ _ _ Ht) as (Havail & _).
  apply BuildCall_target_reserves in Ht.
  destruct Ht as (-> & Hp & Hn & Hr & _).
  exists s1, argN, argUses. eexists.
  split; [exact Ha|]. split; [exact Havail|]. split; [exact Hp|].
  split; [exact Hn|]. split; [exact Hr|].
  assert (Hl2 : n = argN + (if isSome (callTarget c) then 1 else 0)
                /\ useCountOf l2 = (if isSome (callTarget c) then 1 else 0)).
  { unfold BuildCall_ctrlExprUse in Hu.
    destruct (callTarget c); mrun; simpl; split; try reflexivity; try lia. }
  destruct Hl2 as (Hn' & Hu').
  split; [exact Hn'|]. split; [reflexivity|].
  unfold useCountOf in *. rewrite !count_app, Hu'.
  rewrite count_internalUses by reflexivity.
  assert (Hd : isUse (callDefsAndKills tgt compiler call c) = false).
  { unfold callDefsAndKills.
    destruct (0 <? BuildCall_dstCount call c);
      [destruct (BuildCall_hasMultiRegRetVal call c)|]; reflexivity. }
  rewrite count_cons, Hd, count_nil.
  destruct (markAsyncCondition compiler c),
    (SWIFT_SUPPORT tgt && HasSwiftErrorHandling c);
    cbn; lia.
Qed.

(** X13.  A completed [BuildCall] creates fixed-register RefPositions only
    for the NativeAOT TLS sequence: two when it applies, none otherwise.  When
    it applies the target is ARM64, the call has no argument and is flagged
    [GTF_TLS_GET_ADDR], and the RefPositions contain, consecutively, the
    fixed registers [x0] and [x1] and the use of the target bound to [x2]; no
    operand use follows. *)
Theorem BuildCall_tls_get_addr_sequence call c s n s' evs :
  BuildCall tgt compiler shared call s = Some (n, s', evs) ->
  AsCall call = Some c ->
  count isFixedReg evs = (if callIsTlsGetAddr tgt compiler c then 2 else 0)
  /\ (forall e, callTarget c = Some e ->
        isTlsGetAddrSequence tgt compiler c e = true ->
        isArm64 (TARGET tgt) = true
        /\ gtArgs c = []
        /\ hasFlag call GTF_TLS_GET_ADDR = true
        /\ exists before after,
            evs = before
                  ++ [RefTypeFixedReg REG_R0 (genSingleTypeRegMask REG_R0);
                      RefTypeFixedReg REG_R1 (genSingleTypeRegMask REG_R1);
                      RefTypeUse e (genSingleTypeRegMask REG_R2) 0]
                  ++ after
            /\ useCountOf after = 0).
Proof.
  intros H Hc. apply BuildCall_inv in H.
  destruct H as (c' & cands & s1 & l1 & argN & argUses & l2
                 & Hc' & Ht & Ha & Hu & -> & ->).
  rewrite Hc in Hc'. inversion Hc'; subst c'. clear Hc'.
  apply BuildCall_target_reserves in Ht. destruct Ht as (-> & _).
  assert (Hd : forall p, (forall t a, p (RefTypeKill t a) = false)
                       -> (forall t a b, p (RefTypeDefWithKills t a b) = false)
                       -> (forall t k a b,
                              p (RefTypeCallDefsWithKills t k a b) = false)
                       -> p (callDefsAndKills tgt compiler call c) = false).
  { intros p Hp1 Hp2 Hp3. unfold callDefsAndKills.
    destruct (0 <? BuildCall_dstCount call c);
      [destruct (BuildCall_hasMultiRegRetVal call c)|]; auto. }
  assert (Htail : forall p,
             (forall t c0 b, p (RefTypeInternalUse t c0 b) = false) ->
             p (RefAsyncContinuationBusy call) = false ->
             p (RefSwiftErrorBusy call) = false ->
             p (callDefsAndKills tgt compiler call c) = false ->
             count p
               (map (fun d => RefTypeInternalUse (fst d) (snd d)
                                (setInternalRegsDelayFree s1))
                    (internalDefs s1)
                ++ (if markAsyncCondition compiler c
                    then [RefAsyncContinuationBusy call] else [])
                ++ [callDefsAndKills tgt compiler call c]
                ++ (if SWIFT_SUPPORT tgt && HasSwiftErrorHandling c
                    then [RefSwiftErrorBusy call] else [])) = 0).
  { intros p Hp Hq Hr Hk. rewrite !count_app, count_cons, count_nil, Hk.
    rewrite count_internalUses by (intros; apply Hp).
    destruct (markAsyncCondition compiler c),
      (SWIFT_SUPPORT tgt && HasSwiftErrorHandling c);
      rewrite ?count_cons, ?count_nil, ?Hq, ?Hr; reflexivity. }
  split.
  - rewrite 3!count_app.
    rewrite (Htail isFixedReg)
      by (try reflexivity; apply Hd; reflexivity).
    rewrite count_uses by reflexivity.
    assert (Hs : count isFixedReg
                   (map (fun d => RefTypeInternalDef (fst d) call (snd d))
                        (callScratch tgt c s)) = 0).
    { unfold count. induction (callScratch tgt c s); simpl; auto. }
    rewrite Hs. unfold callIsTlsGetAddr.
    destruct (callTarget c) as [e|].
    + apply BuildCall_ctrlExprUse_some in Hu. destruct Hu as (_ & _ & ->).
      destruct (isTlsGetAddrSequence tgt compiler c e); reflexivity.
    + unfold BuildCall_ctrlExprUse in Hu. mrun. reflexivity.
  - intros e He Htls. rewrite He in Hu.
    pose proof (BuildCall_ctrlExprUse_asserts _ _ _ _ _ _ _ _ _ Hu Htls)
      as Hflag.
    apply BuildCall_ctrlExprUse_some in Hu. destruct Hu as (_ & _ & ->).
    rewrite Htls.
    pose proof Htls as Hcond. unfold isTlsGetAddrSequence in Hcond.
    apply andb_true_iff in Hcond. destruct Hcond as (Harm64 & Hcond).
    apply andb_true_iff in Hcond. destruct Hcond as (Hcond & _).
    apply andb_true_iff in Hcond. destruct Hcond as (_ & Hargs).
    apply Z.eqb_eq in Hargs.
    split; [exact Harm64|]. split.
    { destruct (gtArgs c); [reflexivity|]. simpl length in Hargs. lia. }
    split; [exact Hflag|].
    exists (map (fun d => RefTypeInternalDef (fst d) call (snd d))
                (callScratch tgt c s) ++ map useRef argUses).
    eexists. split.
    + rewrite <- !app_assoc. cbn [app]. reflexivity.
    + unfold useCountOf.
      apply (Htail isUse); try reflexivity.
      apply Hd; reflexivity.
Qed.

(** X14.  A completed [BuildCall] ends with: the async-continuation mark
    (when the call is async in an async method and not a fast tail call),
    immediately followed by the one record of definitions and kills,
    immediately followed by the Swift error mark, which is created exactly
    when [SWIFT_SUPPORT] is defined and the call has Swift error handling.
    Nothing before them is a mark, a definition or a kill. *)
Theorem BuildCall_marks_around_kills call c s n s' evs :
  BuildCall tgt compiler shared call s = Some (n, s', evs) ->
  AsCall call = Some c ->
  exists before,
    evs = before
          ++ (if IsAsync c && compIsAsync compiler && negb (IsFastTailCall c)
              then [RefAsyncContinuationBusy call] else [])
          ++ [callDefsAndKills tgt compiler call c]
          ++ (if SWIFT_SUPPORT tgt && HasSwiftErrorHandling c
              then [RefSwiftErrorBusy call] else [])
    /\ count isAsyncContinuationBusy before = 0
    /\ count isDefOrKill before = 0
    /\ count isSwiftErrorBusy before = 0
    /\ count isSwiftErrorBusy evs
       = (if SWIFT_SUPPORT tgt && HasSwiftErrorHandling c then 1 else 0).
Proof.
  intros H Hc. apply BuildCall_inv in H.
  destruct H as (c' & cands & s1 & l1 & argN & argUses & l2
                 & Hc' & Ht & Ha & Hu & -> & ->).
  rewrite Hc in Hc'. inversion Hc'; subst c'. clear Hc'.
  pose proof (BuildCall_target_footprint _ _ _ _ _ _ _ _ _ Ht)
    as (_ & Ht1 & Ht2).
  pose proof (BuildCall_ctrlExprUse_footprint _ _ _ _ _ _ _ _ _ _ _ Hu)
    as (_ & Hu1 & Hu2).
  apply BuildCall_target_reserves in Ht. destruct Ht as (Hl1 & _).
  assert (Hs1 : count isSwiftErrorBusy l1 = 0).
  { rewrite Hl1. clear. unfold count.
    induction (callScratch tgt c s); simpl; auto. }
  assert (Hs2 : count isSwiftErrorBusy l2 = 0).
  { unfold BuildCall_ctrlExprUse in Hu.
    destruct (callTarget c); mrun; reflexivity. }
  assert (Hb : forall p,
             (forall u, p (useRef u) = false) ->
             (forall t c0 b, p (RefTypeInternalUse t c0 b) = false) ->
             count p l1 = 0 -> count p l2 = 0 ->
             count p (l1 ++ map useRef argUses ++ l2
                      ++ map (fun d => RefTypeInternalUse (fst d) (snd d)
                                         (setInternalRegsDelayFree s1))
                             (internalDefs s1)) = 0).
  { intros p Hp Hq H1 H2. rewrite !count_app, H1, H2.
    rewrite count_uses by exact Hp.
    rewrite count_internalUses by (intros; apply Hq). reflexivity. }
  unfold markAsyncCondition.
  set (marks := (if IsAsync c && compIsAsync compiler && negb (IsFastTailCall c)
                 then [RefAsyncContinuationBusy call] else [])
                ++ [callDefsAndKills tgt compiler call c]
                ++ (if SWIFT_SUPPORT tgt && HasSwiftErrorHandling c
                    then [RefSwiftErrorBusy call] else [])).
  set (before := l1 ++ map useRef argUses ++ l2
                 ++ map (fun d => RefTypeInternalUse (fst d) (snd d)
                                    (setInternalRegsDelayFree s1))
                        (internalDefs s1)) in *.
  assert (He : l1 ++ map useRef argUses ++ l2
               ++ map (fun d => RefTypeInternalUse (fst d) (snd d)
                                  (setInternalRegsDelayFree s1))
                      (internalDefs s1) ++ marks
               = before ++ marks).
  { subst before. rewrite <- !app_assoc. reflexivity. }
  rewrite He. exists before.
  split; [reflexivity|].
  split; [apply Hb; auto|]. split; [apply Hb; auto|].
  split; [apply Hb; auto|].
  rewrite count_app, Hb by auto. subst marks.
  assert (Hd : isSwiftErrorBusy (callDefsAndKills tgt compiler call c) = false).
  { unfold callDefsAndKills.
    destruct (0 <? BuildCall_dstCount call c);
      [destruct (BuildCall_hasMultiRegRetVal call c)|]; reflexivity. }
  rewrite !count_app, count_cons, Hd, count_nil.
  destruct (IsAsync c && compIsAsync compiler && negb (IsFastTailCall c)),
    (SWIFT_SUPPORT tgt && HasSwiftErrorHandling c); reflexivity.
Qed.

(** *** BuildPutArgStk *)

Lemma BuildPutArgStk_fields uses :
  forall acc s a s' l,
    foldM (BuildPutArgStk_field tgt) uses acc s = Some (a, s', l) ->
    a = acc + Z.of_nat (length uses)
    /\ l = flat_map (putArgStkField tgt) uses.
Proof.
  induction uses as [|use uses IH]; simpl; intros acc s a s' l H.
  - mrun. split; [lia|reflexivity].
  - apply bind_inv in H. destruct H as (a1 & s1 & l1 & l2 & Hf & H & ->).
    apply IH in H. destruct H as (-> & ->).
    unfold BuildPutArgStk_field, putArgStkField in *.
    destruct (FEATURE_SIMD tgt), (var_types_eqb (snd use) TYP_SIMD12);
      mrun; (split; [lia|reflexivity]).
Qed.

(** X15.  A completed [BuildPutArgStk] of a struct given as a field list
    requires the list to be contained, creates for each field in order a use
    without candidates, followed for a [TYP_SIMD12] field (with
    [FEATURE_SIMD]) by a scratch integer register reserved for that field's
    node, then one use per pending scratch register; it returns the number of
    fields. *)
Theorem BuildPutArgStk_field_list_source argNode src uses s n s' evs :
  BuildPutArgStk tgt compiler shared argNode s = Some (n, s', evs) ->
  gtOp1 argNode = Some src ->
  TypeIs src TYP_STRUCT = true ->
  OperIs src GT_FIELD_LIST = true ->
  AsFieldList src = Some uses ->
  isContained src = true
  /\ n = Z.of_nat (length uses)
  /\ evs = flat_map (putArgStkField tgt) uses ++ internalUsesOf s'
  /\ filter isUse evs = map (fun use => RefTypeUse (fst use) RBM_NONE 0) uses
  /\ reservedOf evs
     = map (fun _ => (IntRegisterType, RBM_NONE))
           (filter (fun use => FEATURE_SIMD tgt
                               && var_types_eqb (snd use) TYP_SIMD12) uses).
Proof.
  unfold BuildPutArgStk. intros H Hsrc Hty Hfl Huses.
  apply bind_inv in H. destruct H as (sz & s0 & l0 & lr & Ha & H & ->).
  apply deref_inv in Ha. destruct Ha as (_ & -> & ->).
  apply bind_inv in H. destruct H as ([] & s0 & l0 & lr0 & Ha & H & ->).
  apply assert_inv in Ha. destruct Ha as (_ & -> & ->).
  apply bind_inv in H. destruct H as (src' & s0 & l0 & lr1 & Ha & H & ->).
  apply deref_inv in Ha. destruct Ha as (Hsrc' & -> & ->).
  rewrite Hsrc in Hsrc'. inversion Hsrc'; subst src'. clear Hsrc'.
  rewrite Hty, Hfl in H.
  apply bind_inv in H. destruct H as (k & s1 & l1 & lr2 & Hf & H & ->).
  apply bind_inv in Hf. destruct Hf as ([] & s0 & l0 & lr3 & Ha & Hf & ->).
  apply assert_inv in Ha. destruct Ha as (Hc & -> & ->).
  apply bind_inv in Hf. destruct Hf as (uses' & s0 & l0 & lr4 & Ha & Hf & ->).
  apply deref_inv in Ha. destruct Ha as (Huses' & -> & ->).
  rewrite Huses in Huses'. inversion Huses'; subst uses'. clear Huses'.
  apply BuildPutArgStk_fields in Hf. destruct Hf as (-> & ->).
  apply bind_inv in H. destruct H as ([] & s2 & l2 & lr5 & Hi & H & ->).
  apply internalUses_inv in Hi. destruct Hi as (-> & ->).
  apply ret_inv in H. destruct H as (-> & -> & ->).
  rewrite app_nil_r. cbn [app]. fold (internalUsesOf s1).
  split; [exact Hc|]. split; [lia|]. split; [reflexivity|]. split.
  - rewrite filter_app.
    assert (Hi : filter isUse (internalUsesOf s1) = []).
    { unfold internalUsesOf. induction (internalDefs s1); simpl; auto. }
    rewrite Hi, app_nil_r. clear.
    induction uses as [|use uses IH]; [reflexivity|].
    cbn [flat_map]. rewrite filter_app, IH. unfold putArgStkField.
    destruct (FEATURE_SIMD tgt && var_types_eqb (snd use) TYP_SIMD12);
      reflexivity.
  - rewrite reservedOf_app. unfold internalUsesOf.
    rewrite reservedOf_internalUses, app_nil_r. clear.
    induction uses as [|use uses IH]; [reflexivity|].
    cbn [flat_map filter]. rewrite reservedOf_app, IH. unfold putArgStkField.
    destruct (FEATURE_SIMD tgt && var_types_eqb (snd use) TYP_SIMD12);
      reflexivity.
Qed.

(** X16.  A completed [BuildPutArgStk] of a struct that is not a field
    list requires the source to be contained and first reserves scratch
    integer registers for the argument node, two on ARM64 and one on ARM.  A
    [GT_BLK] source then gets the uses [BuildOperandUses] returns for its
    address, whose count is returned; any other source is a local
    ([GT_LCL_VAR] or [GT_LCL_FLD]), creates no use and returns 0. *)
Theorem BuildPutArgStk_struct_copy_scratch argNode src s n s' evs :
  BuildPutArgStk tgt compiler shared argNode s = Some (n, s', evs) ->
  gtOp1 argNode = Some src ->
  TypeIs src TYP_STRUCT = true ->
  OperIs src GT_FIELD_LIST = false ->
  isContained src = true
  /\ exists us,
      evs = putArgStkStructScratch tgt argNode ++ map useRef us
            ++ internalUsesOf s'
      /\ (if OperIs src GT_BLK
          then exists addr,
              gtOp1 src = Some addr
              /\ BuildOperandUses shared addr RBM_NONE s' = Some (n, us)
          else (OperIs src GT_LCL_VAR || OperIs src GT_LCL_FLD) = true
               /\ n = 0 /\ us = []).
Proof.
  unfold BuildPutArgStk. intros H Hsrc Hty Hfl.
  apply bind_inv in H. destruct H as (sz & s0 & l0 & lr & Ha & H & ->).
  apply deref_inv in Ha. destruct Ha as (_ & -> & ->).
  apply bind_inv in H. destruct H as ([] & s0 & l0 & lr0 & Ha & H & ->).
  apply assert_inv in Ha. destruct Ha as (_ & -> & ->).
  apply bind_inv in H. destruct H as (src' & s0 & l0 & lr1 & Ha & H & ->).
  apply deref_inv in Ha. destruct Ha as (Hsrc' & -> & ->).
  rewrite Hsrc in Hsrc'. inversion Hsrc'; subst src'. clear Hsrc'.
  rewrite Hty, Hfl in H. unfold putArgStkStructScratch.
  unfold internalUsesOf.
  destruct (isArm64 (TARGET tgt)), (OperIs src GT_BLK); mrun;
    (split; [assumption|]).
  all: try match goal with
           | H : BuildOperandUses _ _ _ _ = Some (_, ?us) |- _ =>
               exists us; split;
               [simpl; rewrite ?app_nil_r; reflexivity
               |eexists; split; eassumption]
           end.
  all: exists []; split; [simpl; rewrite ?app_nil_r; reflexivity|]; auto.
Qed.

(** X17.  A completed [BuildPutArgStk] of a source that is not a struct
    requires the source not to be contained, creates the uses
    [BuildOperandUses] returns for it in the entry state and returns their
    count; one scratch integer register is reserved, after those uses,
    exactly when [FEATURE_SIMD] is defined, the ABI is Apple's ARM64 ABI and
    the stack slot has 12 bytes. *)
Theorem BuildPutArgStk_scalar_source argNode src stackByteSize s n s' evs :
  BuildPutArgStk tgt compiler shared argNode s = Some (n, s', evs) ->
  AsPutArgStk argNode = Some stackByteSize ->
  gtOp1 argNode = Some src ->
  TypeIs src TYP_STRUCT = false ->
  isContained src = false
  /\ exists us,
      BuildOperandUses shared src RBM_NONE s = Some (n, us)
      /\ evs = map useRef us
               ++ (if FEATURE_SIMD tgt
                      && (compAppleArm64Abi compiler && (stackByteSize =? 12))
                   then [RefTypeInternalDef IntRegisterType argNode RBM_NONE]
                   else [])
               ++ internalUsesOf s'.
Proof.
  unfold BuildPutArgStk. intros H Hsz Hsrc Hty.
  apply bind_inv in H. destruct H as (sz & s0 & l0 & lr & Ha & H & ->).
  apply deref_inv in Ha. destruct Ha as (Hsz' & -> & ->).
  rewrite Hsz in Hsz'. inversion Hsz'; subst sz. clear Hsz'.
  apply bind_inv in H. destruct H as ([] & s0 & l0 & lr0 & Ha & H & ->).
  apply assert_inv in Ha. destruct Ha as (_ & -> & ->).
  apply bind_inv in H. destruct H as (src' & s0 & l0 & lr1 & Ha & H & ->).
  apply deref_inv in Ha. destruct Ha as (Hsrc' & -> & ->).
  rewrite Hsrc in Hsrc'. inversion Hsrc'; subst src'. clear Hsrc'.
  rewrite Hty in H.
  unfold internalUsesOf.
  destruct (FEATURE_SIMD tgt),
    (compAppleArm64Abi compiler && (stackByteSize =? 12)); mrun;
    (split; [match goal with
             | H : negb _ = true |- _ => apply negb_true_iff in H; exact H
             end|]);
    match goal with
    | H : BuildOperandUses _ _ _ _ = Some (_, ?us) |- _ =>
        exists us; split; [exact H|]
    end;
    simpl; rewrite ?app_nil_r, <- ?app_assoc; reflexivity.
Qed.

(** *** BuildPutArgSplit *)

Lemma testbit_genSingleTypeRegMask r b :
  0 <= r -> 0 <= b -> Z.testbit (genSingleTypeRegMask r) b = (b =? r).
Proof.
  intros Hr Hb.
  pose proof (testbit_AddRegNumInMask 0 r b Hr Hb) as H.
  unfold AddRegNumInMask in H. rewrite Z.lor_0_l, Z.bits_0 in H. exact H.
Qed.

Lemma BuildPutArgSplit_argMask_bits argReg idxs :
  forall acc s m s' l,
    foldM (fun argMask i =>
             modify (addRegNumByIdx (regAdd argReg i) i) ;;
             ret (Z.lor argMask (genSingleTypeRegMask (regAdd argReg i))))
          idxs acc s = Some (m, s', l) ->
    regNumByIdx s' = regNumByIdx s ++ map (fun i => (i, regAdd argReg i)) idxs
    /\ availableIntRegs s' = availableIntRegs s
    /\ availableFloatRegs s' = availableFloatRegs s
    /\ forall b, 0 <= b ->
         Z.testbit m b
         = Z.testbit acc b || existsb (fun i => b =? regAdd argReg i) idxs.
Proof.
  induction idxs as [|i idxs IH]; simpl; intros acc s m s' l H.
  - mrun. rewrite app_nil_r. repeat split; auto.
    intros. rewrite orb_false_r. reflexivity.
  - apply bind_inv in H. destruct H as (m1 & s1 & l1 & l2 & H1 & H2 & ->).
    apply IH in H2. destruct H2 as (Hr & Hi & Hf & Hb). mrun.
    rewrite Hr, Hi, Hf. cbn [regNumByIdx addRegNumByIdx availableIntRegs
                              availableFloatRegs].
    rewrite <- app_assoc. repeat split; auto.
    intros b Hb0. rewrite Hb by assumption.
    rewrite Z.lor_spec, testbit_genSingleTypeRegMask
      by (try apply regAdd_nonneg; assumption).
    rewrite orb_assoc. reflexivity.
Qed.

Lemma In_indices k i : In i (indices k) <-> 0 <= i < k.
Proof.
  unfold indices. rewrite in_map_iff. split.
  - intros (j & <- & Hj). apply in_seq in Hj. lia.
  - intros Hi. exists (Z.to_nat i). split; [lia|]. apply in_seq. lia.
Qed.

Lemma BuildPutArgSplit_argMask_spec argReg k s m s' l :
  BuildPutArgSplit_argMask argReg k s = Some (m, s', l) ->
  regNumByIdx s'
  = regNumByIdx s ++ map (fun i => (i, regAdd argReg i)) (indices k)
  /\ availableIntRegs s' = availableIntRegs s
  /\ availableFloatRegs s' = availableFloatRegs s
  /\ forall b, 0 <= b ->
       (Z.testbit m b = true <-> exists i, 0 <= i < k /\ b = regAdd argReg i).
Proof.
  unfold BuildPutArgSplit_argMask. intros H.
  apply BuildPutArgSplit_argMask_bits in H.
  destruct H as (Hr & Hi & Hf & Hb).
  split; [exact Hr|]. split; [exact Hi|]. split; [exact Hf|].
  intros b Hb0. rewrite Hb by assumption.
  unfold RBM_NONE. rewrite Z.bits_0. cbn [orb]. rewrite existsb_exists.
  split.
  - intros (i & Hin & He). apply In_indices in Hin. apply Z.eqb_eq in He.
    exists i. auto.
  - intros (i & Hin & He). exists i. split; [apply In_indices; exact Hin|].
    apply Z.eqb_eq. exact He.
Qed.

Lemma keepsRegNumByIdx_nil s : keepsRegNumByIdx s s [].
Proof. reflexivity. Qed.

Lemma keepsRegNumByIdx_app s s1 s2 l1 l2 :
  keepsRegNumByIdx s s1 l1 -> keepsRegNumByIdx s1 s2 l2 ->
  keepsRegNumByIdx s s2 (l1 ++ l2).
Proof. unfold keepsRegNumByIdx. congruence. Qed.

Lemma count_none (p : RefPosition -> bool) l :
  Forall (fun r => p r = false) l -> count p l = 0.
Proof. intros H. unfold count. rewrite filter_none by exact H. reflexivity. Qed.

(** X18.  A completed [BuildPutArgSplit] ends with the one definition
    record [BuildDefs(argNode, gtNumRegs, argMask)], and nothing before it
    defines or kills.  [argMask] holds exactly the registers [argReg + i]
    (32-bit unsigned sum) for [i < gtNumRegs]; these are recorded on the node
    by [SetRegNumByIdx] in increasing [i], and nothing else is recorded; and
    unless [argMask] is empty it meets the available integer or the available
    vector registers. *)
Theorem BuildPutArgSplit_destination_registers argNode gtNumRegs s n s' evs :
  BuildPutArgSplit tgt shared argNode s = Some (n, s', evs) ->
  AsPutArgSplit argNode = Some gtNumRegs ->
  let argReg := GetRegNum argNode in
  exists argMask before,
    evs = before ++ [RefTypeDefs argNode gtNumRegs argMask]
    /\ count isDefOrKill before = 0
    /\ (forall b, 0 <= b ->
          (Z.testbit argMask b = true
           <-> exists i, 0 <= i < gtNumRegs /\ b = regAdd argReg i))
    /\ regNumByIdx s'
       = regNumByIdx s
         ++ map (fun i => (i, regAdd argReg i)) (indices gtNumRegs)
    /\ (argMask = RBM_NONE
        \/ Z.land argMask (availableIntRegs s) <> RBM_NONE
        \/ Z.land argMask (availableFloatRegs s) <> RBM_NONE).
Proof.
  intros H Hn argReg.
  unfold BuildPutArgSplit in H. rewrite Hn in H.
  apply bind_inv in H. destruct H as (k & s0 & l0 & lr & Hk & H & ->).
  apply deref_inv in Hk. destruct Hk as (Hk & -> & ->). inversion Hk; subst k.
  apply bind_inv in H. destruct H as ([] & s0 & l0 & lr0 & Ha & H & ->).
  apply assert_inv in Ha. destruct Ha as (_ & -> & ->).
  apply bind_inv in H. destruct H as (src & s0 & l0 & lr1 & Hd & H & ->).
  apply deref_inv in Hd. destruct Hd as (Hsrc & -> & ->).
  apply bind_inv in H. destruct H as (argMask & s1 & l1 & lr2 & Hm & H & ->).
  pose proof (BuildPutArgSplit_argMask_inv _ _ _ _ _ _ Hm) as (-> & _).
  apply BuildPutArgSplit_argMask_spec in Hm.
  destruct Hm as (Hr & Hi & Hf & Hbits).
  apply bind_inv in H. destruct H as (s1' & s2 & l2 & lr3 & Hg & H & ->).
  apply getState_inv in Hg. destruct Hg as (-> & -> & ->).
  apply bind_inv in H. destruct H as ([] & s2 & l2 & lr4 & Ha & H & ->).
  apply assert_inv in Ha. destruct Ha as (Hassert & -> & ->).
  apply bind_inv in H. destruct H as (cnt & s2 & l2 & lr5 & Hc & H & ->).
  assert (Hphase : regNumByIdx s2 = regNumByIdx s1
                   /\ Forall (fun r => isDefOrKill r = false) l2).
  { match type of Hc with
    | ?m _ = Some _ =>
        assert (Hkeep : respects keepsRegNumByIdx m)
          by (unfold_builders;
              respects_walk keepsRegNumByIdx_nil keepsRegNumByIdx_app
                ltac:(prim_run; unfold keepsRegNumByIdx; simpl; auto));
        assert (Hnone : respects
                          (createsOnly (fun r => isDefOrKill r = false)) m)
          by (unfold_builders;
              respects_walk
                (createsOnly_nil (fun r => isDefOrKill r = false))
                (createsOnly_app (fun r => isDefOrKill r = false))
                ltac:(prim_run; unfold createsOnly; simpl;
                      rewrite ?app_nil_r;
                      repeat first
                        [ apply Forall_nil
                        | apply Forall_cons
                        | apply Forall_uses; intros; reflexivity
                        | apply Forall_internalUses; intros; reflexivity ];
                      simpl; auto))
    end.
    split; [exact (Hkeep _ _ _ _ Hc)|exact (Hnone _ _ _ _ Hc)]. }
  destruct Hphase as (Hkeep & Hnone).
  apply bind_inv in H. destruct H as ([] & s3 & l3 & lr6 & Hu & H & ->).
  apply internalUses_inv in Hu. destruct Hu as (-> & ->).
  apply bind_inv in H. destruct H as ([] & s3 & l3 & lr7 & He & H & ->).
  apply emit_inv in He. destruct He as (-> & ->).
  apply ret_inv in H. destruct H as (-> & -> & ->).
  cbn [app]. rewrite ?app_nil_r.
  exists argMask.
  exists (l2 ++ map (fun d => RefTypeInternalUse (fst d) (snd d)
                             (setInternalRegsDelayFree s2)) (internalDefs s2)).
  split; [rewrite <- app_assoc; reflexivity|].
  split; [|split; [exact Hbits|split]].
  - rewrite count_app, count_internalUses by reflexivity.
    rewrite (count_none _ _ Hnone). reflexivity.
  - rewrite Hkeep. exact Hr.
  - apply orb_true_iff in Hassert. destruct Hassert as [Hassert|Hassert].
    + apply orb_true_iff in Hassert. destruct Hassert as [Hz|Hint].
      * left. apply Z.eqb_eq in Hz. exact Hz.
      * right. left. apply negb_true_iff, Z.eqb_neq in Hint.
        rewrite <- Hi. exact Hint.
    + right. right. apply negb_true_iff, Z.eqb_neq in Hassert.
      rewrite <- Hf. exact Hassert.
Qed.

(** X19.  A completed [BuildPutArgSplit] whose source is not a field list
    requires a contained [TYP_STRUCT] source and leaves [placedArgRegs]
    unchanged.  For a [GT_BLK] source with one destination register it first
    reserves one scratch integer register whose candidates are the integer
    registers without [argMask], hence disjoint from the destination
    register; it then creates the uses [BuildOperandUses] returns for the
    block's address and returns their count.  Any other source is a local
    read, creates no use and returns 0. *)
Theorem BuildPutArgSplit_struct_source argNode gtNumRegs src s n s' evs :
  BuildPutArgSplit tgt shared argNode s = Some (n, s', evs) ->
  AsPutArgSplit argNode = Some gtNumRegs ->
  gtOp1 argNode = Some src ->
  OperIs src GT_FIELD_LIST = false ->
  TypeIs src TYP_STRUCT = true
  /\ isContained src = true
  /\ placedArgRegs s' = placedArgRegs s
  /\ exists argMask us,
      let cands := Z.land (allRegs s IntRegisterType) (Z.lnot argMask) in
      evs = (if OperIs src GT_BLK && (gtNumRegs =? 1)
             then [RefTypeInternalDef IntRegisterType argNode cands] else [])
            ++ map useRef us ++ internalUsesOf s'
            ++ [RefTypeDefs argNode gtNumRegs argMask]
      /\ Z.land cands argMask = 0
      /\ (if OperIs src GT_BLK
          then exists addr,
              gtOp1 src = Some addr
              /\ BuildOperandUses shared addr RBM_NONE s' = Some (n, us)
          else OperIsLocalRead src = true /\ n = 0 /\ us = []).
Proof.
  intros H Hn Hsrc Hfl.
  unfold BuildPutArgSplit in H. rewrite Hn, Hsrc in H.
  apply bind_inv in H. destruct H as (k & s0 & l0 & lr & Hk & H & ->).
  apply deref_inv in Hk. destruct Hk as (Hk & -> & ->). inversion Hk; subst k.
  apply bind_inv in H. destruct H as ([] & s0 & l0 & lr0 & Ha & H & ->).
  apply assert_inv in Ha. destruct Ha as (_ & -> & ->).
  apply bind_inv in H. destruct H as (src' & s0 & l0 & lr1 & Hd & H & ->).
  apply deref_inv in Hd. destruct Hd as (Hd & -> & ->). inversion Hd; subst src'.
  apply bind_inv in H. destruct H as (argMask & s1 & l1 & lr2 & Hm & H & ->).
  pose proof (BuildPutArgSplit_argMask_inv _ _ _ _ _ _ Hm)
    as (-> & Hp & Hdefs & Hdelay).
  apply BuildPutArgSplit_argMask_spec in Hm. destruct Hm as (_ & Hi & _ & _).
  apply bind_inv in H. destruct H as (s1' & s2 & l2 & lr3 & Hg & H & ->).
  apply getState_inv in Hg. destruct Hg as (-> & -> & ->).
  apply bind_inv in H. destruct H as ([] & s2 & l2 & lr4 & Ha & H & ->).
  apply assert_inv in Ha. destruct Ha as (_ & -> & ->).
  rewrite Hfl in H.
  apply bind_inv in H. destruct H as (cnt & s2 & l2 & lr5 & Hc & H & ->).
  apply bind_inv in Hc. destruct Hc as ([] & s3 & l3 & lr6 & Ha & Hc & ->).
  apply assert_inv in Ha. destruct Ha as (Hty & -> & ->).
  apply andb_true_iff in Hty. destruct Hty as (Hty & Hcont).
  apply bind_inv in H. destruct H as ([] & s3 & l3 & lr7 & Hu & H & ->).
  apply internalUses_inv in Hu. destruct Hu as (-> & ->).
  apply bind_inv in H. destruct H as ([] & s3 & l3 & lr8 & He & H & ->).
  apply emit_inv in He. destruct He as (-> & ->).
  apply ret_inv in H. destruct H as (-> & -> & ->).
  split; [exact Hty|]. split; [exact Hcont|].
  assert (Hdisj : Z.land (Z.land (allRegs s IntRegisterType) (Z.lnot argMask))
                    argMask = 0) by zbits.
  unfold allRegs in *. rewrite <- Hi in *.
  unfold internalUsesOf. cbn [app]. rewrite ?app_nil_r.
  destruct (OperIs src GT_BLK); [destruct (gtNumRegs =? 1)|]; mrun.
  all: cbn [placedArgRegs addInternalDef]; (split; [exact Hp|]).
  all: exists argMask.
  all: try match goal with
           | H : BuildOperandUses _ _ _ _ = Some (_, ?us) |- _ =>
               exists us; cbn zeta; split;
               [simpl; rewrite ?app_nil_r; reflexivity
               |split; [exact Hdisj|eexists; split; eassumption]]
           end.
  exists []. cbn zeta. split; [simpl; reflexivity|].
  split; [exact Hdisj|]. auto.
Qed.

(** *** BuildBlockStore *)

Lemma BuildBlockStore_strategy_scratchOnly blkNode dstAddr src size kind init :
  respects (createsOnly (isScratchOf blkNode))
    (if init : bool
     then BuildBlockStore_init tgt compiler blkNode dstAddr src size kind
     else BuildBlockStore_copy tgt compiler blkNode dstAddr src size kind).
Proof.
  destruct init; unfold_builders;
    respects_walk (createsOnly_nil (isScratchOf blkNode))
      (createsOnly_app (isScratchOf blkNode))
      ltac:(prim_run; unfold createsOnly; simpl; rewrite ?app_nil_r;
            repeat first
              [ apply Forall_nil
              | apply Forall_cons; [do 2 eexists; reflexivity|] ]).
Qed.

Lemma BuildBlockStore_addrUse_usesOnly addr m n0 s n s' l :
  BuildBlockStore_addrUse shared addr m n0 s = Some (n, s', l) ->
  Forall (fun r => isUse r = true) l.
Proof.
  unfold BuildBlockStore_addrUse. intros H. mrun; simpl;
    rewrite ?app_nil_r; repeat constructor.
  apply Forall_uses. reflexivity.
Qed.

(** X20.  A completed [BuildBlockStore] has a supported strategy: [Unroll]
    or [Loop] for an initialization, [CpObjUnroll], [Unroll] or
    [UnrollMemmove] for a copy, the last on ARM64 with a positive size only;
    any other combination is unreachable.  Its RefPositions are, in order:
    scratch registers reserved for the block node, operand uses, one use per
    pending scratch register, and the kill record with
    [getKillSetForBlockStore] last. *)
Theorem BuildBlockStore_strategy_and_kill blkNode size kind init s n s' evs :
  BuildBlockStore tgt compiler shared blkNode s = Some (n, s', evs) ->
  AsBlk blkNode = Some (size, kind, init) ->
  (init = true -> kind = BlkOpKindUnroll \/ kind = BlkOpKindLoop)
  /\ (init = false ->
      kind = BlkOpKindCpObjUnroll \/ kind = BlkOpKindUnroll
      \/ kind = BlkOpKindUnrollMemmove)
  /\ (kind = BlkOpKindUnrollMemmove ->
      init = false /\ TARGET tgt = TARGET_ARM64 /\ 0 < size)
  /\ exists scratch uses,
      evs = scratch ++ uses ++ internalUsesOf s'
            ++ [RefTypeKill blkNode (getKillSetForBlockStore compiler blkNode)]
      /\ Forall (isScratchOf blkNode) scratch
      /\ Forall (fun r => isUse r = true) uses.
Proof.
  intros H Hb. apply BuildBlockStore_inv in H.
  destruct H as (size' & kind' & init' & dstAddr & src & locals & l1 & n1
                 & ldst & lsrc & Hb' & Hd & Hs & Hl & Hdst & Hsrc & ->).
  rewrite Hb in Hb'. inversion Hb'; subst size' kind' init'. clear Hb'.
  assert (Hkinds :
    (init = true -> kind = BlkOpKindUnroll \/ kind = BlkOpKindLoop)
    /\ (init = false ->
        kind = BlkOpKindCpObjUnroll \/ kind = BlkOpKindUnroll
        \/ kind = BlkOpKindUnrollMemmove)
    /\ (kind = BlkOpKindUnrollMemmove ->
        init = false /\ TARGET tgt = TARGET_ARM64 /\ 0 < size)).
  { destruct init.
    - assert (Hk : kind = BlkOpKindUnroll \/ kind = BlkOpKindLoop).
      { unfold BuildBlockStore_init in Hl.
        apply bind_inv in Hl. destruct Hl as (f & s0 & l0 & lr & _ & Hl & _).
        apply bind_inv in Hl. destruct Hl as ([] & s2 & l2 & lr2 & Hl & _ & _).
        destruct kind; auto; discriminate Hl. }
      split; [auto|]. split; [discriminate|].
      intros ->. destruct Hk; discriminate.
    - apply BuildBlockStore_copy_inv in Hl.
      split; [discriminate|]. split.
      + intros _. destruct kind; auto; discriminate Hl.
      + intros ->. apply BuildBlockStore_UnrollMemmove_inv in Hl.
        destruct Hl as (Ht & Hpos & _). auto. }
  destruct Hkinds as (Hk1 & Hk2 & Hk3).
  split; [exact Hk1|]. split; [exact Hk2|]. split; [exact Hk3|].
  exists l1, (ldst ++ lsrc). split; [rewrite <- app_assoc; reflexivity|].
  split.
  - exact (BuildBlockStore_strategy_scratchOnly _ _ _ _ _ _ _ _ _ _ Hl).
  - apply Forall_app. split.
    + eapply BuildBlockStore_addrUse_usesOnly. exact Hdst.
    + destruct (srcAddrOrFill locals).
      * eapply BuildBlockStore_addrUse_usesOnly. exact Hsrc.
      * destruct Hsrc as (_ & ->). constructor.
Qed.

Lemma BuildBlockStore_init_inv blkNode dstAddr src size kind s locals s' l :
  BuildBlockStore_init tgt compiler blkNode dstAddr src size kind s
    = Some (locals, s', l) ->
  (OperIs src GT_INIT_VAL = true -> isContained src = true)
  /\ locals = mkBlockStoreLocals (initFill src) RBM_NONE RBM_NONE RBM_NONE
  /\ initFill src <> None
  /\ l = map (fun d => RefTypeInternalDef (fst d) blkNode (snd d))
             (initScratch tgt compiler dstAddr size kind s).
Proof.
  unfold BuildBlockStore_init, initFill, initScratch. intros H.
  apply bind_inv in H. destruct H as (fill & s0 & l0 & lr & Hf & H & ->).
  assert (Hfill : s0 = s /\ l0 = []
                  /\ (OperIs src GT_INIT_VAL = true -> isContained src = true)
                  /\ (if OperIs src GT_INIT_VAL then gtOp1 src else Some src)
                     = Some fill).
  { clear H. destruct (OperIs src GT_INIT_VAL); mrun;
      repeat split; auto; discriminate. }
  destruct Hfill as (-> & -> & Hc & Hfill). rewrite Hfill.
  split; [exact Hc|].
  destruct kind; try (mrun; fail);
    [|destruct (isArm64 (TARGET tgt)); [destruct (isContained dstAddr),
        (FP_REGSIZE_BYTES (TARGET tgt) <? size)|]];
    mrun; repeat split; try discriminate; reflexivity.
Qed.

(** X21.  A completed [BuildBlockStore] of an initialization reserves: with
    the [Unroll] strategy on ARM64, one scratch integer register when the
    destination address is contained and one scratch vector register when
    the size exceeds a vector register, and nothing on ARM; with the [Loop]
    strategy, one scratch integer register among the available integer
    registers.  A [GT_INIT_VAL] source is contained and stands for its
    operand, the fill value; the destination address and the fill value each
    get a use without candidates when not contained. *)
Theorem BuildBlockStore_init_scratch blkNode size kind dstAddr src s n s' evs :
  BuildBlockStore tgt compiler shared blkNode s = Some (n, s', evs) ->
  AsBlk blkNode = Some (size, kind, true) ->
  gtOp1 blkNode = Some dstAddr ->
  gtOp2 blkNode = Some src ->
  (OperIs src GT_INIT_VAL = true -> isContained src = true)
  /\ reservedOf evs = initScratch tgt compiler dstAddr size kind s
  /\ (isArm64 (TARGET tgt) = false -> kind = BlkOpKindUnroll ->
      reservedOf evs = [])
  /\ (isContained dstAddr = false ->
      In (RefTypeUse dstAddr RBM_NONE 0) evs)
  /\ exists fill,
      initFill src = Some fill
      /\ (isContained fill = false -> In (RefTypeUse fill RBM_NONE 0) evs).
Proof.
  intros H Hb Hd Hs. apply BuildBlockStore_inv in H.
  destruct H as (size' & kind' & init' & dstAddr' & src' & locals & l1 & n1
                 & ldst & lsrc & Hb' & Hd' & Hs' & Hl & Hdst & Hsrc & ->).
  rewrite Hb in Hb'. inversion Hb'; subst size' kind' init'. clear Hb'.
  rewrite Hd in Hd'. inversion Hd'; subst dstAddr'. clear Hd'.
  rewrite Hs in Hs'. inversion Hs'; subst src'. clear Hs'.
  apply BuildBlockStore_init_inv in Hl.
  destruct Hl as (Hc & -> & Hfill & ->).
  cbn [srcAddrOrFill dstAddrRegMask srcRegMask] in *.
  split; [exact Hc|].
  assert (Hres : reservedOf
                   (map (fun d => RefTypeInternalDef (fst d) blkNode (snd d))
                      (initScratch tgt compiler dstAddr size kind s)
                    ++ ldst ++ lsrc ++ internalUsesOf s'
                    ++ [RefTypeKill blkNode
                          (getKillSetForBlockStore compiler blkNode)])
                 = initScratch tgt compiler dstAddr size kind s).
  { rewrite reservedOf_app, reservedOf_internalDefs.
    rewrite (reservedOf_none (_ ++ _)); [apply app_nil_r|].
    rewrite !Forall_app. repeat split.
    - apply BuildBlockStore_addrUse_usesOnly in Hdst.
      eapply Forall_impl; [|exact Hdst]. intros [] Hr; try exact I;
        discriminate Hr.
    - destruct (initFill src).
      + apply BuildBlockStore_addrUse_usesOnly in Hsrc.
        eapply Forall_impl; [|exact Hsrc]. intros [] Hr; try exact I;
          discriminate Hr.
      + destruct Hsrc as (_ & ->). constructor.
    - apply Forall_internalUses. intros; exact I.
    - repeat constructor. }
  split; [exact Hres|]. split.
  { intros Harm ->. rewrite Hres. unfold initScratch. rewrite Harm.
    reflexivity. }
  split.
  - intros Hnc. apply in_or_app. right. apply in_or_app. left.
    rewrite (BuildBlockStore_addrUse_notContained _ _ _ _ _ _ _ _ Hdst Hnc).
    left. reflexivity.
  - destruct (initFill src) as [fill|]; [|contradiction Hfill; reflexivity].
    exists fill. split; [reflexivity|]. intros Hnc.
    apply in_or_app. right. apply in_or_app. right. apply in_or_app. left.
    rewrite (BuildBlockStore_addrUse_notContained _ _ _ _ _ _ _ _ Hsrc Hnc).
    left. reflexivity.
Qed.

Lemma BuildBlockStore_addrUse_asserts addr m n0 s n s' l :
  BuildBlockStore_addrUse shared addr m n0 s = Some (n, s', l) ->
  addrWellFormed addr.
Proof.
  unfold BuildBlockStore_addrUse, addrWellFormed. intros H Hc Hm.
  rewrite Hc, Hm in H. cbn [negb] in H. mrun.
  split; congruence.
Qed.

Lemma addrWellFormed_buildable addr :
  (forall base s1, BuildAddrUses shared base RBM_NONE s1 <> None) ->
  addrWellFormed addr -> addrUsesBuildable shared addr.
Proof.
  intros Hhelper Hwf Hc Hm. destruct (Hwf Hc Hm) as (Ha & Hb).
  split; [exact Ha|]. destruct (gtOp1 addr) as [base|]; [|contradiction].
  exists base. split; [reflexivity|]. apply Hhelper.
Qed.

Lemma BuildBlockStore_copy_asserts blkNode dstAddr src size kind s locals s' l :
  BuildBlockStore_copy tgt compiler blkNode dstAddr src size kind s
    = Some (locals, s', l) ->
  (OperIs src GT_IND = true -> isContained src = true /\ gtOp1 src <> None)
  /\ match kind with
     | BlkOpKindCpObjUnroll =>
         forall sa, copySrcAddr src = Some sa -> isContained sa = false
     | BlkOpKindUnroll => True
     | BlkOpKindUnrollMemmove => TARGET tgt = TARGET_ARM64 /\ 0 < size
     | _ => False
     end.
Proof.
  intros H. split.
  - intros Hind. unfold BuildBlockStore_copy in H. rewrite Hind in H.
    apply bind_inv in H. destruct H as (sa & s0 & l0 & lr & H & _ & _).
    mrun. split; [assumption|congruence].
  - apply BuildBlockStore_copy_inv in H. destruct kind; try discriminate H.
    + apply BuildBlockStore_CpObjUnroll_inv in H. tauto.
    + exact I.
    + apply BuildBlockStore_UnrollMemmove_inv in H. tauto.
Qed.

Lemma BuildBlockStore_init_completes blkNode dstAddr src size kind s :
  (OperIs src GT_INIT_VAL = true ->
   isContained src = true /\ gtOp1 src <> None) ->
  kind = BlkOpKindUnroll \/ kind = BlkOpKindLoop ->
  exists s1 l1,
    BuildBlockStore_init tgt compiler blkNode dstAddr src size kind s
    = Some (mkBlockStoreLocals (initFill src) RBM_NONE RBM_NONE RBM_NONE,
            s1, l1)
    /\ initFill src <> None.
Proof.
  intros Hinit Hkind. unfold BuildBlockStore_init, initFill.
  assert (Hfill : exists fill,
    (if OperIs src GT_INIT_VAL then gtOp1 src else Some src) = Some fill
    /\ (if OperIs src GT_INIT_VAL
        then assert (isContained src) ;; deref (gtOp1 src)
        else ret src) s = Some (fill, s, [])).
  { destruct (OperIs src GT_INIT_VAL).
    - destruct (Hinit eq_refl) as (Hc & Ho). rewrite Hc.
      destruct (gtOp1 src) as [fill|]; [|contradiction].
      exists fill. split; reflexivity.
    - exists src. split; reflexivity. }
  destruct Hfill as (fill & Hfill & Hrun). rewrite Hfill.
  rewrite (bind_run _ _ _ _ _ _ Hrun).
  destruct Hkind as [-> | ->].
  - destruct (isArm64 (TARGET tgt)), (isContained dstAddr),
      (FP_REGSIZE_BYTES (TARGET tgt) <? size);
      do 2 eexists; (split; [reflexivity|discriminate]).
  - do 2 eexists. split; [reflexivity|discriminate].
Qed.

(** X22.  When [BuildAddrUses] never fails, the build of a block store
    completes exactly when [BuildBlockStore_assertions] holds: the node is a
    block with both operands; a contained address mode among the addresses
    has its offset and base; an initialization has strategy [Unroll] or
    [Loop] and a contained [GT_INIT_VAL] (if any) with its operand; a copy
    has a contained source indirection (if any) with its address, and
    strategy [CpObjUnroll] with a source address that is not contained,
    [Unroll], or [UnrollMemmove] on ARM64 with a positive size. *)
Theorem BuildBlockStore_completes_iff blkNode s :
  (forall base s1, BuildAddrUses shared base RBM_NONE s1 <> None) ->
  (exists n s' evs,
      BuildBlockStore tgt compiler shared blkNode s = Some (n, s', evs))
  <-> BuildBlockStore_assertions tgt blkNode.
Proof.
  intros Hhelper. split.
  - intros (n & s' & evs & H). apply BuildBlockStore_inv in H.
    destruct H as (size & kind & init & dstAddr & src & locals & l1 & n1
                   & ldst & lsrc & Hb & Hd & Hs & Hl & Hdst & Hsrc & _).
    exists size, kind, init, dstAddr, src.
    split; [exact Hb|]. split; [exact Hd|]. split; [exact Hs|].
    split; [eapply BuildBlockStore_addrUse_asserts; exact Hdst|].
    destruct init.
    + pose proof Hl as Hl'. apply BuildBlockStore_init_inv in Hl'.
      destruct Hl' as (Hc & -> & Hfill & _).
      cbn [srcAddrOrFill srcRegMask] in Hsrc.
      split; [|split].
      * intros Hiv. split; [exact (Hc Hiv)|].
        unfold initFill in Hfill. rewrite Hiv in Hfill. exact Hfill.
      * unfold BuildBlockStore_init in Hl.
        apply bind_inv in Hl. destruct Hl as (f & s0 & l0 & lr & _ & Hl & _).
        apply bind_inv in Hl. destruct Hl as ([] & s2 & l2 & lr2 & Hl & _ & _).
        destruct kind; auto; discriminate Hl.
      * intros fill Hf. rewrite Hf in Hsrc.
        eapply BuildBlockStore_addrUse_asserts; exact Hsrc.
    + pose proof (BuildBlockStore_copy_locals _ _ _ _ _ _ _ _ _ _ _ Hl)
        as (_ & Hsa).
      rewrite Hsa in Hsrc.
      apply BuildBlockStore_copy_asserts in Hl. destruct Hl as (Hind & Hkind).
      split; [exact Hind|]. split; [exact Hkind|].
      intros sa Hcopy. rewrite Hcopy in Hsrc.
      eapply BuildBlockStore_addrUse_asserts; exact Hsrc.
  - intros (size & kind & init & dstAddr & src & Hb & Hd & Hs & Hwf & Hrest).
    destruct init.
    + destruct Hrest as (Hinit & Hkind & Hfillwf).
      unfold BuildBlockStore. rewrite Hb, Hd, Hs.
      rewrite (bind_run _ _ _ (size, kind, true) s []) by reflexivity.
      rewrite (bind_run _ _ _ dstAddr s []) by reflexivity.
      rewrite (bind_run _ _ _ src s []) by reflexivity.
      cbn [fst snd].
      destruct (BuildBlockStore_init_completes blkNode dstAddr src size kind s
                  Hinit Hkind) as (s1 & l1 & Hl & Hfill).
      rewrite (bind_run _ _ _ _ _ _ Hl).
      cbn [sizeRegMask dstAddrRegMask srcAddrOrFill srcRegMask
           Z.eqb RBM_NONE negb when].
      rewrite (bind_run _ _ _ tt s1 []) by reflexivity.
      destruct (BuildBlockStore_addrUse_completes shared dstAddr
                  0 0 s1 (addrWellFormed_buildable _ Hhelper Hwf))
        as (n1 & ldst & Hdu).
      rewrite (bind_run _ _ _ _ _ _ Hdu).
      destruct (initFill src) as [fill|]; [|contradiction].
      destruct (BuildBlockStore_addrUse_completes shared fill
                  0 n1 s1
                  (addrWellFormed_buildable _ Hhelper (Hfillwf fill eq_refl)))
        as (n2 & lsrc & Hsu).
      rewrite (bind_run _ _ _ _ _ _ Hsu).
      do 3 eexists. reflexivity.
    + destruct Hrest as (Hind & Hkind & Hsawf).
      eapply (BuildBlockStore_copy_run_completes tgt compiler shared);
        try eassumption.
      split; [exact Hind|]. split; [exact Hkind|].
      split; [apply addrWellFormed_buildable; assumption|].
      intros sa Hsa. apply addrWellFormed_buildable; auto.
Qed.

Lemma growsPlacement_nil s : growsPlacement s s [].
Proof. split; auto. Qed.

Lemma growsPlacement_app s s1 s2 l1 l2 :
  growsPlacement s s1 l1 -> growsPlacement s1 s2 l2 ->
  growsPlacement s s2 (l1 ++ l2).
Proof.
  intros (H1 & N1) (H2 & N2). split; [auto|congruence].
Qed.

(** X23.  [BuildPutArgSplit] never removes a register from [placedArgRegs]:
    every register placed on entry is still placed when the build completes,
    whatever the source of the argument; and [numPlacedArgLocals] is
    unchanged. *)
Theorem BuildPutArgSplit_placement_grows argNode s n s' evs :
  BuildPutArgSplit tgt shared argNode s = Some (n, s', evs) ->
  (forall b, 0 <= b ->
     Z.testbit (placedArgRegs s) b = true ->
     Z.testbit (placedArgRegs s') b = true)
  /\ numPlacedArgLocals s' = numPlacedArgLocals s.
Proof.
  assert (H : respects growsPlacement (BuildPutArgSplit tgt shared argNode)).
  { unfold_builders.
    respects_walk growsPlacement_nil growsPlacement_app
      ltac:(prim_run; unfold growsPlacement; simpl; split; auto;
            intros b Hb Hbit;
            rewrite testbit_AddRegNumInMask
              by (try apply regAdd_nonneg; assumption);
            rewrite Hbit; reflexivity). }
  intros Hrun. exact (H _ _ _ _ Hrun).
Qed.

(** X24.  In a completed [BuildBlockStore] with any strategy other than the
    write-barrier object copy, the uses of the destination address come
    first, then those of the source address or fill value, and no address is
    bound to a register: a destination or source that is not contained gets
    one use without candidates, a contained one that is not an address mode
    gets none, and a copy from a local has no source use.  When neither
    address is contained the value returned is the number of addresses. *)
Theorem BuildBlockStore_address_uses
  blkNode size kind init dstAddr src s n s' evs :
  BuildBlockStore tgt compiler shared blkNode s = Some (n, s', evs) ->
  AsBlk blkNode = Some (size, kind, init) ->
  gtOp1 blkNode = Some dstAddr ->
  gtOp2 blkNode = Some src ->
  kind <> BlkOpKindCpObjUnroll ->
  exists scratch dstUses srcUses,
    evs = scratch ++ dstUses ++ srcUses ++ internalUsesOf s'
          ++ [RefTypeKill blkNode (getKillSetForBlockStore compiler blkNode)]
    /\ Forall (isScratchOf blkNode) scratch
    /\ (isContained dstAddr = false ->
        dstUses = [RefTypeUse dstAddr RBM_NONE 0])
    /\ (isContained dstAddr = true -> OperIsAddrMode dstAddr = false ->
        dstUses = [])
    /\ match blockSrcAddrOrFill init src with
       | Some sa =>
           (isContained sa = false -> srcUses = [RefTypeUse sa RBM_NONE 0])
           /\ (isContained sa = true -> OperIsAddrMode sa = false ->
               srcUses = [])
       | None => srcUses = []
       end
    /\ (isContained dstAddr = false ->
        (forall sa, blockSrcAddrOrFill init src = Some sa ->
                    isContained sa = false) ->
        n = 1 + (if isSome (blockSrcAddrOrFill init src) then 1 else 0)).
Proof.
  intros H Hb Hd Hs Hkind. apply BuildBlockStore_inv in H.
  destruct H as (size' & kind' & init' & dstAddr' & src' & locals & l1 & n1
                 & ldst & lsrc & Hb' & Hd' & Hs' & Hl & Hdst & Hsrc & ->).
  rewrite Hb in Hb'. inversion Hb'; subst size' kind' init'. clear Hb'.
  rewrite Hd in Hd'. inversion Hd'; subst dstAddr'. clear Hd'.
  rewrite Hs in Hs'. inversion Hs'; subst src'. clear Hs'.
  assert (Hscratch : createsOnly (isScratchOf blkNode) s s' l1)
    by (eapply BuildBlockStore_strategy_scratchOnly; exact Hl).
  assert (Hlocals : locals = mkBlockStoreLocals (blockSrcAddrOrFill init src)
                               RBM_NONE RBM_NONE RBM_NONE).
  { unfold blockSrcAddrOrFill. destruct init; cbv iota.
    - apply BuildBlockStore_init_inv in Hl.
      destruct Hl as (_ & Hl & _). exact Hl.
    - apply BuildBlockStore_copy_inv in Hl.
      destruct kind; try discriminate Hl; [contradiction Hkind; reflexivity| |].
      + apply BuildBlockStore_Unroll_inv in Hl.
        destruct Hl as (Hl & _). exact Hl.
      + apply BuildBlockStore_UnrollMemmove_inv in Hl.
        destruct Hl as (_ & _ & Hl & _). exact Hl. }
  subst locals. cbn [srcAddrOrFill dstAddrRegMask srcRegMask] in *.
  assert (Haddr : forall addr m n0 st k st' l,
             BuildBlockStore_addrUse shared addr m n0 st = Some (k, st', l) ->
             (isContained addr = false ->
              l = [RefTypeUse addr m 0] /\ k = n0 + 1)
             /\ (isContained addr = true -> OperIsAddrMode addr = false ->
                 l = [])).
  { clear. intros addr m n0 st k st' l Hu.
    unfold BuildBlockStore_addrUse in Hu.
    split.
    - intros Hc. rewrite Hc in Hu. cbn [negb] in Hu. mrun.
      split; reflexivity.
    - intros Hc Hm. rewrite Hc, Hm in Hu. cbn [negb] in Hu. mrun.
      reflexivity. }
  exists l1, ldst, lsrc. split; [reflexivity|]. split; [exact Hscratch|].
  destruct (Haddr _ _ _ _ _ _ _ Hdst) as (Hd1 & Hd2).
  split; [intros Hc; apply Hd1; exact Hc|]. split; [exact Hd2|].
  destruct (blockSrcAddrOrFill init src) as [sa|].
  - destruct (Haddr _ _ _ _ _ _ _ Hsrc) as (Hs1 & Hs2).
    split; [split; [intros Hc; apply Hs1; exact Hc|exact Hs2]|].
    intros Hc Hsa. destruct (Hd1 Hc) as (_ & ->).
    destruct (Hs1 (Hsa sa eq_refl)) as (_ & ->). reflexivity.
  - destruct Hsrc as (-> & ->). split; [reflexivity|].
    intros Hc _. destruct (Hd1 Hc) as (_ & ->). reflexivity.
Qed.

(** *** When the other builders complete *)

(** X25.  When [BuildCastUses] never fails on the cast, the build of a cast
    completes exactly when the node is a cast with a source and, on ARM, a
    source of long type is a contained [GT_LONG]; off ARM nothing is
    asserted. *)
Theorem BuildCast_completes_iff cast s :
  (forall s1, BuildCastUses shared cast RBM_NONE s1 <> None) ->
  (exists n s' evs, BuildCast tgt shared cast s = Some (n, s', evs))
  <-> BuildCast_assertions tgt cast.
Proof.
  intros Hhelper. split.
  - intros (n & s' & evs & H). unfold BuildCast in H.
    apply bind_inv in H. destruct H as (castType & s0 & l0 & lr & Ha & H & _).
    apply deref_inv in Ha. destruct Ha as (Hcast & -> & ->).
    apply bind_inv in H. destruct H as (src & s0 & l0 & lr0 & Ha & H & _).
    apply deref_inv in Ha. destruct Ha as (Hsrc & -> & ->).
    exists castType, src. split; [exact Hcast|]. split; [exact Hsrc|].
    intros Harm Hlong. rewrite Harm in H.
    apply bind_inv in H. destruct H as ([] & s1 & l1 & lr1 & H & _ & _).
    unfold when in H.
    apply bind_inv in H. destruct H as ([] & s2 & l2 & lr2 & Ha & _ & _).
    apply assert_inv in Ha. destruct Ha as (Ha & _).
    rewrite Hlong in Ha. cbn [negb orb] in Ha.
    apply andb_true_iff in Ha. exact Ha.
  - intros (castType & src & Hcast & Hsrc & Hlong).
    unfold BuildCast. rewrite Hcast, Hsrc.
    rewrite (bind_run _ _ _ castType s []) by reflexivity.
    rewrite (bind_run _ _ _ src s []) by reflexivity.
    match goal with
    | |- context [bind ?m _ s] =>
        assert (Hphase : exists s1 l1, m s = Some (tt, s1, l1))
    end.
    { unfold when. destruct (isArm (TARGET tgt)); [|do 2 eexists; reflexivity].
      assert (Hassert : negb (varTypeIsLong (genActualType (TypeGet src)))
                        || OperIs src GT_LONG && isContained src = true).
      { destruct (varTypeIsLong (genActualType (TypeGet src)));
          [|reflexivity].
        destruct (Hlong eq_refl eq_refl) as (-> & ->). reflexivity. }
      rewrite Hassert.
      rewrite (bind_run _ _ _ tt s []) by reflexivity.
      destruct (varTypeIsFloating (genActualType (TypeGet src))
                && negb (varTypeIsFloating castType));
        do 2 eexists; reflexivity. }
    destruct Hphase as (s1 & l1 & Hphase).
    rewrite (bind_run _ _ _ _ _ _ Hphase).
    destruct (BuildCastUses shared cast RBM_NONE s1) as [[k us]|] eqn:Eu;
      [|exfalso; eapply Hhelper; eassumption].
    rewrite (bind_run _ _ _ k s1 (map useRef us))
      by (unfold runUses; rewrite Eu; reflexivity).
    do 3 eexists. reflexivity.
Qed.

(** X26.  When [BuildOperandUses] does not fail on the operands of the
    node, the build of a select completes exactly when the node is a
    [GT_SELECT] or a [GT_SELECTCC], has both operands, and a [GT_SELECT] is a
    conditional node. *)
Theorem BuildSelect_completes_iff select s :
  (forall t,
     AsConditional select = Some t \/ gtOp1 select = Some t
     \/ gtOp2 select = Some t ->
     forall s1, BuildOperandUses shared t RBM_NONE s1 <> None) ->
  (exists n s' evs, BuildSelect shared select s = Some (n, s', evs))
  <-> BuildSelect_assertions select.
Proof.
  intros Hhelper. split.
  - intros (n & s' & evs & H). unfold BuildSelect in H.
    apply bind_inv in H. destruct H as ([] & s0 & l0 & lr & Ha & H & _).
    apply assert_inv in Ha. destruct Ha as (Hoper & -> & ->).
    apply orb_true_iff in Hoper.
    apply bind_inv in H. destruct H as (nc & s0 & lc & lr0 & Hc & H & _).
    apply bind_inv in H. destruct H as (op1 & s1 & l1 & lr1 & H1 & H & _).
    apply deref_inv in H1. destruct H1 as (Hop1 & _).
    apply bind_inv in H. destruct H as (n1 & s2 & l2 & lr2 & _ & H & _).
    apply bind_inv in H. destruct H as (op2 & s3 & l3 & lr3 & H2 & _ & _).
    apply deref_inv in H2. destruct H2 as (Hop2 & _).
    split; [exact Hoper|]. split; [|split; congruence].
    intros Hsel. rewrite Hsel in Hc.
    apply bind_inv in Hc. destruct Hc as (cond & s4 & l4 & lr4 & Ha & _ & _).
    apply deref_inv in Ha. destruct Ha as (Ha & _). congruence.
  - intros (Hoper & Hcond & Hop1 & Hop2). unfold BuildSelect.
    assert (Hassert : OperIs select GT_SELECT || OperIs select GT_SELECTCC
                      = true).
    { apply orb_true_iff. exact Hoper. }
    rewrite Hassert.
    rewrite (bind_run _ _ _ tt s []) by reflexivity.
    match goal with
    | |- context [bind ?m _ s] =>
        assert (Hphase : exists nc lc, m s = Some (nc, s, lc))
    end.
    { destruct (OperIs select GT_SELECT); [|do 2 eexists; reflexivity].
      destruct (AsConditional select) as [cond|];
        [|contradiction Hcond; reflexivity].
      destruct (BuildOperandUses shared cond RBM_NONE s) as [[k us]|] eqn:Eu;
        [|exfalso; eapply (Hhelper cond); [auto|eassumption]].
      unfold bind, deref, ret, runUses. rewrite Eu.
      do 2 eexists. reflexivity. }
    destruct Hphase as (nc & lc & Hphase).
    rewrite (bind_run _ _ _ _ _ _ Hphase).
    destruct (gtOp1 select) as [op1|]; [|contradiction Hop1; reflexivity].
    destruct (gtOp2 select) as [op2|]; [|contradiction Hop2; reflexivity].
    destruct (BuildOperandUses shared op1 RBM_NONE s) as [[k1 us1]|] eqn:E1;
      [|exfalso; eapply (Hhelper op1); [auto|eassumption]].
    destruct (BuildOperandUses shared op2 RBM_NONE s) as [[k2 us2]|] eqn:E2;
      [|exfalso; eapply (Hhelper op2); [auto|eassumption]].
    unfold bind, deref, ret, runUses, BuildDef, emit. rewrite E1, E2.
    do 3 eexists. reflexivity.
Qed.

Lemma BuildPutArgStk_fields_complete uses :
  forall acc s,
    exists n s1 l1,
      foldM (BuildPutArgStk_field tgt) uses acc s = Some (n, s1, l1).
Proof.
  induction uses as [|use uses IH]; intros acc s; simpl.
  - do 3 eexists. reflexivity.
  - assert (Hf : exists s1 l1,
               BuildPutArgStk_field tgt acc use s = Some (acc + 1, s1, l1)).
    { unfold BuildPutArgStk_field, when.
      destruct (FEATURE_SIMD tgt), (var_types_eqb (snd use) TYP_SIMD12);
        do 2 eexists; reflexivity. }
    destruct Hf as (s1 & l1 & Hf). rewrite (bind_run _ _ _ _ _ _ Hf).
    destruct (IH (acc + 1) s1) as (n & s2 & l2 & H2). rewrite H2.
    do 3 eexists. reflexivity.
Qed.

(** X27.  When [BuildOperandUses] does not fail on the source and on the
    address of a [GT_BLK] source, the build of a stack argument completes
    exactly when the node is a [GT_PUTARG_STK] with a source such that: a
    struct source is contained and is a field list, a [GT_BLK] with its
    address, or a local ([GT_LCL_VAR], [GT_LCL_FLD]); any other source is not
    contained.  The loop over the fields asserts nothing. *)
Theorem BuildPutArgStk_completes_iff argNode s :
  (forall src t,
     gtOp1 argNode = Some src -> t = src \/ gtOp1 src = Some t ->
     forall s1, BuildOperandUses shared t RBM_NONE s1 <> None) ->
  (exists n s' evs,
      BuildPutArgStk tgt compiler shared argNode s = Some (n, s', evs))
  <-> BuildPutArgStk_assertions argNode.
Proof.
  intros Hhelper. split.
  - intros (n & s' & evs & H). unfold BuildPutArgStk in H.
    apply bind_inv in H. destruct H as (sz & s0 & l0 & lr & Ha & H & _).
    apply deref_inv in Ha. destruct Ha as (Hsz & -> & ->).
    apply bind_inv in H. destruct H as ([] & s0 & l0 & lr0 & Ha & H & _).
    apply assert_inv in Ha. destruct Ha as (Hoper & -> & ->).
    apply bind_inv in H. destruct H as (src & s0 & l0 & lr1 & Ha & H & _).
    apply deref_inv in Ha. destruct Ha as (Hsrc & -> & ->).
    apply bind_inv in H. destruct H as (k & s1 & l1 & lr2 & H & _ & _).
    split; [congruence|]. split; [exact Hoper|].
    exists src. split; [exact Hsrc|].
    destruct (TypeIs src TYP_STRUCT);
      [destruct (OperIs src GT_FIELD_LIST);
       [|destruct (OperIs src GT_BLK) eqn:Eblk]|].
    + apply bind_inv in H. destruct H as ([] & s2 & l2 & lr3 & Ha & H & _).
      apply assert_inv in Ha. destruct Ha as (Hc & -> & ->).
      apply bind_inv in H. destruct H as (uses & s2 & l2 & lr4 & Ha & _ & _).
      apply deref_inv in Ha. destruct Ha as (Hu & _).
      split; [exact Hc|congruence].
    + revert Eblk. mrun; intros Eblk; try discriminate Eblk.
      all: split; [assumption|split; congruence].
    + revert Eblk. mrun; intros Eblk; try discriminate Eblk.
      all: split; assumption.
    + apply bind_inv in H. destruct H as ([] & s2 & l2 & lr3 & Ha & _ & _).
      apply assert_inv in Ha. destruct Ha as (Hc & _).
      apply negb_true_iff in Hc. exact Hc.
  - intros (Hsz & Hoper & src & Hsrc & Hshape). unfold BuildPutArgStk.
    destruct (AsPutArgStk argNode) as [sz|]; [|contradiction Hsz; reflexivity].
    rewrite Hoper, Hsrc.
    rewrite (bind_run _ _ _ sz s []) by reflexivity.
    rewrite (bind_run _ _ _ tt s []) by reflexivity.
    rewrite (bind_run _ _ _ src s []) by reflexivity.
    match goal with
    | |- context [bind ?m _ s] =>
        assert (Hphase : exists k s1 l1, m s = Some (k, s1, l1))
    end.
    { destruct (TypeIs src TYP_STRUCT).
      - destruct Hshape as (Hc & Hshape). rewrite Hc.
        destruct (OperIs src GT_FIELD_LIST).
        + destruct (AsFieldList src) as [uses|];
            [|contradiction Hshape; reflexivity].
          rewrite (bind_run _ _ _ tt s []) by reflexivity.
          rewrite (bind_run _ _ _ uses s []) by reflexivity.
          destruct (BuildPutArgStk_fields_complete uses 0 s)
            as (k & s1 & l1 & Hf).
          rewrite Hf. do 3 eexists. reflexivity.
        + rewrite (bind_run _ _ _ tt (addInternalDef IntRegisterType RBM_NONE s)
                     [RefTypeInternalDef IntRegisterType argNode RBM_NONE])
            by reflexivity.
          assert (Hw : exists s2 l2,
                     when (isArm64 (TARGET tgt))
                       (buildInternalIntRegisterDefForNode argNode RBM_NONE)
                       (addInternalDef IntRegisterType RBM_NONE s)
                     = Some (tt, s2, l2)).
          { destruct (isArm64 (TARGET tgt)); do 2 eexists; reflexivity. }
          destruct Hw as (s2 & l2 & Hw). rewrite (bind_run _ _ _ _ _ _ Hw).
          rewrite (bind_run _ _ _ tt s2 []) by reflexivity.
          destruct (OperIs src GT_BLK).
          * destruct Hshape as (Hblk & Haddr).
            destruct (AsBlk src) as [blk|]; [|contradiction Hblk; reflexivity].
            destruct (gtOp1 src) as [addr|] eqn:Eaddr;
              [|contradiction Haddr; reflexivity].
            rewrite (bind_run _ _ _ blk s2 []) by reflexivity.
            rewrite (bind_run _ _ _ addr s2 []) by reflexivity.
            destruct (BuildOperandUses shared addr RBM_NONE s2)
              as [[k us]|] eqn:Eu;
              [|exfalso; eapply (Hhelper src addr); [auto|auto|eassumption]].
            unfold runUses. rewrite Eu. do 3 eexists. reflexivity.
          * rewrite Hshape.
            rewrite (bind_run _ _ _ tt s2 []) by reflexivity.
            do 3 eexists. reflexivity.
      - rewrite Hshape.
        rewrite (bind_run _ _ _ tt s []) by reflexivity.
        destruct (BuildOperandUses shared src RBM_NONE s) as [[k us]|] eqn:Eu;
          [|exfalso; eapply (Hhelper src src); [auto|auto|eassumption]].
        rewrite (bind_run _ _ _ k s (map useRef us))
          by (unfold runUses; rewrite Eu; reflexivity).
        destruct (FEATURE_SIMD tgt),
          (compAppleArm64Abi compiler && (sz =? 12));
          do 3 eexists; reflexivity. }
    destruct Hphase as (k & s1 & l1 & Hphase).
    rewrite (bind_run _ _ _ _ _ _ Hphase).
    do 3 eexists. reflexivity.
Qed.

Lemma BuildPutArgSplit_argMask_run argReg k s :
  exists s1,
    BuildPutArgSplit_argMask argReg k s
      = Some (splitArgMask argReg k, s1, [])
    /\ availableIntRegs s1 = availableIntRegs s
    /\ availableFloatRegs s1 = availableFloatRegs s.
Proof.
  unfold BuildPutArgSplit_argMask, splitArgMask.
  generalize RBM_NONE. generalize (indices k). intros idxs. revert s.
  induction idxs as [|i idxs IH]; intros s acc; simpl.
  - exists s. auto.
  - destruct (IH (addRegNumByIdx (regAdd argReg i) i s)
                (Z.lor acc (genSingleTypeRegMask (regAdd argReg i))))
      as (s1 & Hrun & Hi & Hf).
    exists s1. split; [|split; [exact Hi|exact Hf]].
    unfold bind at 1. unfold bind at 1. unfold modify at 1. unfold ret at 1.
    cbn [app]. rewrite Hrun. reflexivity.
Qed.

Lemma BuildPutArgSplit_regs_complete argReg k node idxs :
  forall acc s,
    exists n s1 l1,
      foldM (BuildPutArgSplit_reg argReg k node) idxs acc s
      = Some (n, s1, l1).
Proof.
  induction idxs as [|i idxs IH]; intros acc s; simpl.
  - do 3 eexists. reflexivity.
  - assert (Hr : exists s1 l1,
               BuildPutArgSplit_reg argReg k node acc i s
               = Some (acc + 1, s1, l1)).
    { unfold BuildPutArgSplit_reg. destruct (acc <? k);
        do 2 eexists; reflexivity. }
    destruct Hr as (s1 & l1 & Hr). rewrite (bind_run _ _ _ _ _ _ Hr).
    destruct (IH (acc + 1) s1) as (n & s2 & l2 & H2). rewrite H2.
    do 3 eexists. reflexivity.
Qed.

Lemma OperIsMultiRegOp_cast node :
  OperIsMultiRegOp node = true -> exists k, AsMultiRegOp node = Some k.
Proof.
  unfold OperIsMultiRegOp, AsMultiRegOp.
  destruct (gtExt node); try discriminate. eauto.
Qed.

Lemma BuildPutArgSplit_field_iff argReg k acc use s :
  (exists n s1 l1,
      BuildPutArgSplit_field tgt argReg k acc use s = Some (n, s1, l1))
  <-> splitFieldOk tgt use.
Proof.
  unfold BuildPutArgSplit_field, splitFieldOk, BuildPutArgSplit_regCount.
  split.
  - intros (n & s1 & l1 & H).
    apply bind_inv in H. destruct H as ([] & s0 & l0 & lr & Ha & H & _).
    apply assert_inv in Ha. destruct Ha as (Hc & -> & ->).
    apply negb_true_iff in Hc. split; [exact Hc|].
    intros Hm. rewrite Hm in H.
    apply bind_inv in H. destruct H as (cnt & s0 & l0 & lr0 & H & _ & _).
    apply bind_inv in H. destruct H as ([] & s2 & l2 & lr2 & Ha & _ & _).
    apply assert_inv in Ha. destruct Ha as (Ha & _).
    apply negb_true_iff in Ha. exact Ha.
  - intros (Hc & Hm). rewrite Hc. cbn [negb].
    rewrite (bind_run _ _ _ tt s []) by reflexivity.
    assert (Hcnt : exists cnt,
               (if isArm (TARGET tgt) && OperIsMultiRegOp (fst use)
                then deref (AsMultiRegOp (fst use))
                else assert (negb (IsMultiRegNode (fst use))) ;; ret 1) s
               = Some (cnt, s, [])).
    { destruct (isArm (TARGET tgt) && OperIsMultiRegOp (fst use)) eqn:E.
      - apply andb_true_iff in E. destruct E as (_ & E).
        destruct (OperIsMultiRegOp_cast _ E) as (cnt & Hcast).
        exists cnt. rewrite Hcast. reflexivity.
      - rewrite (Hm eq_refl). exists 1. reflexivity. }
    destruct Hcnt as (cnt & Hcnt). rewrite (bind_run _ _ _ _ _ _ Hcnt).
    destruct (BuildPutArgSplit_regs_complete argReg k (fst use) (indices cnt)
                acc s) as (n & s1 & l1 & Hr).
    rewrite Hr. do 3 eexists. reflexivity.
Qed.

Lemma BuildPutArgSplit_fields_iff argReg k uses :
  forall acc s,
    (exists n s1 l1,
        foldM (BuildPutArgSplit_field tgt argReg k) uses acc s
        = Some (n, s1, l1))
    <-> Forall (splitFieldOk tgt) uses.
Proof.
  induction uses as [|use uses IH]; intros acc s; simpl.
  - split; [constructor|]. intros _. do 3 eexists. reflexivity.
  - split.
    + intros (n & s2 & l & H).
      apply bind_inv in H. destruct H as (acc1 & s1 & l1 & l2 & Hf & H & _).
      constructor.
      * apply (BuildPutArgSplit_field_iff argReg k acc use s). eauto.
      * apply (IH acc1 s1). eauto.
    + intros Hall. inversion Hall as [|u us Hok Hrest]; subst.
      apply (BuildPutArgSplit_field_iff argReg k acc use s) in Hok.
      destruct Hok as (acc1 & s1 & l1 & Hf).
      rewrite (bind_run _ _ _ _ _ _ Hf).
      apply (IH acc1 s1) in Hrest. destruct Hrest as (n & s2 & l2 & H2).
      rewrite H2. do 3 eexists. reflexivity.
Qed.

(** X28.  When [BuildOperandUses] does not fail on the address of a
    [GT_BLK] source, the build of a split argument completes in state [s]
    exactly when: the node is a [GT_PUTARG_SPLIT] with a source; the
    destination registers [argReg .. argReg + gtNumRegs - 1], unless there is
    none, meet the available integer or vector registers of [s]; a field
    list is contained and each of its fields is not contained and is
    multi-register only as an ARM multi-register operation; any other source
    is a contained struct, a [GT_BLK] with its address or a local read. *)
Theorem BuildPutArgSplit_completes_iff argNode s :
  (forall src addr,
     gtOp1 argNode = Some src -> gtOp1 src = Some addr ->
     forall s1, BuildOperandUses shared addr RBM_NONE s1 <> None) ->
  (exists n s' evs,
      BuildPutArgSplit tgt shared argNode s = Some (n, s', evs))
  <-> BuildPutArgSplit_assertions tgt argNode s.
Proof.
  intros Hhelper. split.
  - intros (n & s' & evs & H). unfold BuildPutArgSplit in H.
    apply bind_inv in H. destruct H as (k & s0 & l0 & lr & Ha & H & _).
    apply deref_inv in Ha. destruct Ha as (Hk & -> & ->).
    apply bind_inv in H. destruct H as ([] & s0 & l0 & lr0 & Ha & H & _).
    apply assert_inv in Ha. destruct Ha as (Hoper & -> & ->).
    apply bind_inv in H. destruct H as (src & s0 & l0 & lr1 & Ha & H & _).
    apply deref_inv in Ha. destruct Ha as (Hsrc & -> & ->).
    apply bind_inv in H. destruct H as (argMask & s1 & l1 & lr2 & Hm & H & _).
    destruct (BuildPutArgSplit_argMask_run (GetRegNum argNode) k s)
      as (s1' & Hrun & Hi & Hf).
    rewrite Hrun in Hm. inversion Hm; subst argMask s1' l1. clear Hm.
    apply bind_inv in H. destruct H as (st & s2 & l2 & lr3 & Hg & H & _).
    apply getState_inv in Hg. destruct Hg as (-> & -> & ->).
    apply bind_inv in H. destruct H as ([] & s2 & l2 & lr4 & Ha & H & _).
    apply assert_inv in Ha. destruct Ha as (Hassert & -> & ->).
    apply bind_inv in H. destruct H as (cnt & s2 & l2 & lr5 & Hc & _ & _).
    exists k, src. split; [exact Hk|]. split; [exact Hoper|].
    split; [exact Hsrc|]. split.
    { cbv zeta. rewrite Hi, Hf in Hassert.
      apply orb_true_iff in Hassert. destruct Hassert as [Hassert|Hassert].
      - apply orb_true_iff in Hassert. destruct Hassert as [Hz|Hint].
        + left. apply Z.eqb_eq in Hz. exact Hz.
        + right. left. apply negb_true_iff, Z.eqb_neq in Hint. exact Hint.
      - right. right. apply negb_true_iff, Z.eqb_neq in Hassert.
        exact Hassert. }
    destruct (OperIs src GT_FIELD_LIST).
    + apply bind_inv in Hc. destruct Hc as (uses & s3 & l3 & lr6 & Ha & Hc & _).
      apply deref_inv in Ha. destruct Ha as (Huses & -> & ->).
      apply bind_inv in Hc. destruct Hc as (c2 & s3 & l3 & lr7 & Hfl & Hc & _).
      apply bind_inv in Hc. destruct Hc as ([] & s4 & l4 & lr8 & Ha & _ & _).
      apply assert_inv in Ha. destruct Ha as (Hcont & _).
      split; [exact Hcont|]. exists uses. split; [exact Huses|].
      apply (BuildPutArgSplit_fields_iff (GetRegNum argNode) k uses 0 s1).
      eauto.
    + apply bind_inv in Hc. destruct Hc as ([] & s3 & l3 & lr6 & Ha & Hc & _).
      apply assert_inv in Ha. destruct Ha as (Hty & -> & ->).
      apply andb_true_iff in Hty. destruct Hty as (Hty & Hcont).
      split; [exact Hty|]. split; [exact Hcont|].
      destruct (OperIs src GT_BLK) eqn:Eblk.
      * revert Eblk. mrun; intros Eblk; split; congruence.
      * revert Eblk. mrun; intros Eblk. assumption.
  - intros (k & src & Hk & Hoper & Hsrc & Hmask & Hshape).
    unfold BuildPutArgSplit. rewrite Hk, Hoper, Hsrc.
    rewrite (bind_run _ _ _ k s []) by reflexivity.
    rewrite (bind_run _ _ _ tt s []) by reflexivity.
    rewrite (bind_run _ _ _ src s []) by reflexivity.
    destruct (BuildPutArgSplit_argMask_run (GetRegNum argNode) k s)
      as (s1 & Hrun & Hi & Hf).
    rewrite (bind_run _ _ _ _ _ _ Hrun).
    rewrite (bind_run _ _ _ s1 s1 []) by reflexivity.
    assert (Hassert :
              (splitArgMask (GetRegNum argNode) k =? RBM_NONE)
              || negb (Z.land (splitArgMask (GetRegNum argNode) k)
                         (availableIntRegs s1) =? RBM_NONE)
              || negb (Z.land (splitArgMask (GetRegNum argNode) k)
                         (availableFloatRegs s1) =? RBM_NONE) = true).
    { rewrite Hi, Hf. cbv zeta in Hmask.
      destruct Hmask as [Hz|[Hint|Hfl]].
      - apply Z.eqb_eq in Hz. rewrite Hz. reflexivity.
      - apply Z.eqb_neq in Hint. rewrite Hint. cbn [negb].
        rewrite orb_true_r. reflexivity.
      - apply Z.eqb_neq in Hfl. rewrite Hfl. cbn [negb].
        rewrite orb_true_r. reflexivity. }
    rewrite Hassert.
    rewrite (bind_run _ _ _ tt s1 []) by reflexivity.
    match goal with
    | |- context [bind ?m _ s1] =>
        assert (Hphase : exists c s2 l2, m s1 = Some (c, s2, l2))
    end.
    { destruct (OperIs src GT_FIELD_LIST).
      - destruct Hshape as (Hcont & uses & Huses & Hall).
        rewrite Huses, Hcont.
        rewrite (bind_run _ _ _ uses s1 []) by reflexivity.
        apply (BuildPutArgSplit_fields_iff (GetRegNum argNode) k uses 0 s1)
          in Hall.
        destruct Hall as (c & s2 & l2 & Hfl).
        rewrite (bind_run _ _ _ _ _ _ Hfl).
        do 3 eexists. reflexivity.
      - destruct Hshape as (Hty & Hcont & Hshape). rewrite Hty, Hcont.
        rewrite (bind_run _ _ _ tt s1 []) by reflexivity.
        destruct (OperIs src GT_BLK).
        + destruct Hshape as (Hblk & Haddr).
          destruct (AsBlk src) as [blk|]; [|contradiction Hblk; reflexivity].
          destruct (gtOp1 src) as [addr|] eqn:Eaddr;
            [|contradiction Haddr; reflexivity].
          rewrite (bind_run _ _ _ s1 s1 []) by reflexivity.
          assert (Hw : exists s2 l2,
                     when (k =? 1)
                       (buildInternalIntRegisterDefForNode argNode
                          (Z.land (allRegs s1 IntRegisterType)
                             (Z.lnot (splitArgMask (GetRegNum argNode) k))))
                       s1 = Some (tt, s2, l2)).
          { destruct (k =? 1); do 2 eexists; reflexivity. }
          destruct Hw as (s2 & l2 & Hw). rewrite (bind_run _ _ _ _ _ _ Hw).
          rewrite (bind_run _ _ _ blk s2 []) by reflexivity.
          rewrite (bind_run _ _ _ addr s2 []) by reflexivity.
          destruct (BuildOperandUses shared addr RBM_NONE s2)
            as [[c us]|] eqn:Eu;
            [|exfalso; eapply (Hhelper src addr); [auto|auto|eassumption]].
          unfold runUses. rewrite Eu. do 3 eexists. reflexivity.
        + rewrite Hshape.
          rewrite (bind_run _ _ _ tt s1 []) by reflexivity.
          do 3 eexists. reflexivity. }
    destruct Hphase as (c & s2 & l2 & Hphase).
    rewrite (bind_run _ _ _ _ _ _ Hphase).
    do 3 eexists. reflexivity.
Qed.

End BuilderShapes.

(** ** The builders at work *)

Lemma exampleShared_counts : SharedBuildersCountUses exampleShared.
Proof.
  unfold SharedBuildersCountUses, countsItsUses, exampleShared; simpl.
  assert (HA : forall t c s n us,
             exampleBuildAddrUses t c s = Some (n, us) ->
             n = Z.of_nat (length us)).
  { unfold exampleBuildAddrUses. intros t c s n us H.
    inversion H. reflexivity. }
  assert (HI : forall t c s n us,
             exampleBuildIndirUses t c s = Some (n, us) ->
             n = Z.of_nat (length us)).
  { unfold exampleBuildIndirUses. intros t c s n us H.
    destruct (gtOp1 t); [eapply HA; eassumption|discriminate]. }
  assert (HO : forall t c s n us,
             exampleBuildOperandUses t c s = Some (n, us) ->
             n = Z.of_nat (length us)).
  { unfold exampleBuildOperandUses. intros t c s n us H.
    destruct (negb (isContained t)); [inversion H; reflexivity|].
    destruct (OperIs t GT_IND); [eapply HI; eassumption|].
    destruct (OperIs t GT_LEA); [eapply HA; eassumption|].
    inversion H. reflexivity. }
  repeat split; auto.
  - unfold exampleBuildCastUses. intros t c s n us H.
    destruct (gtOp1 t); [eapply HO; eassumption|discriminate].
  - unfold exampleBuildCallArgUses. intros t s n us H.
    destruct (AsCall t); [inversion H; reflexivity|discriminate].
Qed.

Lemma builders_return_their_use_count_witness :
  exists n s' evs,
    BuildCall arm64Target (exampleCompiler true false) exampleShared
      exFastTailCall exampleLinearScan = Some (n, s', evs)
    /\ n = 3 /\ useCountOf evs = n.
Proof.
  do 3 eexists. split; [reflexivity|]. split; [reflexivity|].
  eapply (builders_return_their_use_count arm64Target
            (exampleCompiler true false) exampleShared exampleShared_counts
            exFastTailCall exampleLinearScan).
  right. left. reflexivity.
Defined.

Lemma BuildCall_clears_placement_state_witness :
  exists n s' evs,
    BuildCall arm64Target (exampleCompiler true false) exampleShared
      exFastTailCall examplePlacedState = Some (n, s', evs)
    /\ placedArgRegs examplePlacedState = 3
    /\ placedArgRegs s' = RBM_NONE /\ numPlacedArgLocals s' = 0.
Proof.
  do 3 eexists. split; [reflexivity|]. split; [reflexivity|].
  eapply (BuildCall_clears_placement_state arm64Target
            (exampleCompiler true false) exampleShared
            exFastTailCall examplePlacedState).
  reflexivity.
Defined.

Lemma BuildIndir_addr_mode_scratch_witness :
  exists n s' evs,
    BuildIndir arm64Target exampleShared exIndexedLoad exampleLinearScan
      = Some (n, s', evs)
    /\ exists before rule after,
        evs = before ++ rule ++ after
        /\ rule = [RefTypeInternalDef IntRegisterType exIndexedLoad RBM_NONE].
Proof.
  do 3 eexists. split; [reflexivity|].
  destruct (BuildIndir_addr_mode_scratch arm64Target exampleShared
              exIndexedLoad exIndexedLea 4 exampleLinearScan _ _ _
              eq_refl eq_refl eq_refl eq_refl eq_refl)
    as (s0 & before & s1 & rule & after & _ & _ & He & _ & _ & Hboth & _).
  exists before, rule, after. split; [exact He|].
  apply Hboth; [discriminate|]. vm_compute. discriminate.
Defined.

(** The spec's scenario: with an index and a zero offset no scratch register
    is reserved; with an index and offset 4, one is. *)
Example BuildIndir_index_scenarios :
  (exists n s',
      BuildIndir arm64Target exampleShared
        (exInd TYP_INT
           (exLea (Some (exLeaf GT_LCL_VAR TYP_BYREF false 0))
                  (Some (exLeaf GT_LCL_VAR TYP_LONG false 1)) 0))
        exampleLinearScan
      = Some (n, s',
              [RefTypeUse (exLeaf GT_LCL_VAR TYP_BYREF false 0) RBM_NONE 0;
               RefTypeUse (exLeaf GT_LCL_VAR TYP_LONG false 1) RBM_NONE 0;
               RefTypeDef
                 (exInd TYP_INT
                    (exLea (Some (exLeaf GT_LCL_VAR TYP_BYREF false 0))
                       (Some (exLeaf GT_LCL_VAR TYP_LONG false 1)) 0))
                 RBM_NONE]))
  /\ (exists n s' evs,
         BuildIndir arm64Target exampleShared exIndexedLoad exampleLinearScan
         = Some (n, s', evs)
         /\ internalCountOf IntRegisterType evs = 1).
Proof.
  split.
  - do 2 eexists. reflexivity.
  - do 3 eexists. split; reflexivity.
Qed.

Lemma BuildBlockStore_memmove_scratch_witness :
  exists n s' evs,
    BuildBlockStore arm64Target (exampleCompiler false false) exampleShared
      (exMemmove 16) exampleLinearScan = Some (n, s', evs)
    /\ internalCountOf FloatRegisterType evs = 1
    /\ internalCountOf IntRegisterType evs = 0.
Proof.
  do 3 eexists. split; [reflexivity|].
  destruct (BuildBlockStore_memmove_scratch arm64Target
              (exampleCompiler false false) exampleShared (exMemmove 16)
              16 false exampleLinearScan _ _ _ eq_refl eq_refl)
    as (_ & _ & H16 & _).
  apply H16. lia.
Defined.

(** The spec's sizes: 16 bytes take one vector register, 8 bytes one integer
    register, 3 bytes two integer registers. *)
Example BuildBlockStore_memmove_sizes :
  forall size vec int,
    In (size, vec, int) [(16, 1, 0); (8, 0, 1); (3, 0, 2); (40, 3, 0)] ->
    exists n s' evs,
      BuildBlockStore arm64Target (exampleCompiler false false) exampleShared
        (exMemmove size) exampleLinearScan = Some (n, s', evs)
      /\ internalCountOf FloatRegisterType evs = vec
      /\ internalCountOf IntRegisterType evs = int.
Proof.
  intros size vec int H. simpl in H.
  destruct H as [H|[H|[H|[H|[]]]]]; inversion H; subst;
    do 3 eexists; repeat split; reflexivity.
Qed.

(** C5, as stated, fails on [exCpObjContainedDst]: the destination is a
    contained address mode, and no use has the write-barrier destination
    register as candidates. *)
Lemma cpobj_contained_destination_counterexample :
  ~ claimed_cpobj_dst_use arm64Target (exampleCompiler false false)
      exampleShared exCpObjContainedDst exampleLinearScan.
Proof.
  intros H.
  destruct (H 16 _ _ _ _ eq_refl eq_refl eq_refl) as (t & i & Hin).
  vm_compute in Hin.
  repeat (destruct Hin as [Hin|Hin]; [discriminate Hin|]).
  exact Hin.
Qed.

Lemma BuildBlockStore_cpobj_write_barrier_regs_witness :
  exists n s' evs,
    BuildBlockStore arm64Target (exampleCompiler false false) exampleShared
      exCpObj exampleLinearScan = Some (n, s', evs)
    /\ In (RefTypeUse (exLeaf GT_LCL_VAR TYP_BYREF false 0)
             (genSingleTypeRegMask 14) 0) evs
    /\ In (RefTypeUse (exLeaf GT_LCL_VAR TYP_BYREF false 1)
             (genSingleTypeRegMask 13) 0) evs.
Proof.
  do 3 eexists. split; [reflexivity|].
  destruct (BuildBlockStore_cpobj_write_barrier_regs arm64Target
              (exampleCompiler false false) exampleShared exCpObj 16
              _ _ exampleLinearScan _ _ _ eq_refl eq_refl eq_refl eq_refl)
    as (dstUses & srcUses & He & Hd & _ & Hs & _).
  specialize (Hd eq_refl). destruct Hs as (_ & Hs).
  rewrite He, Hd, Hs.
  split; apply in_or_app; right; [left; reflexivity|].
  apply in_or_app; right. left. reflexivity.
Defined.

Lemma BuildCall_fast_tail_call_target_witness :
  exists n s' evs,
    BuildCall arm64Target (exampleCompiler true false) exampleShared
      exFastTailCall exampleLinearScan = Some (n, s', evs)
    /\ exists before cands after,
        evs = before ++ [RefTypeUse exCallTarget cands 0] ++ after
        /\ cands = 0xFFFF
        /\ cands <> RBM_NONE.
Proof.
  do 3 eexists. split; [reflexivity|].
  destruct (BuildCall_fast_tail_call_target arm64Target
              (exampleCompiler true false) exampleShared exFastTailCall
              exFastTailCallFields exCallTarget exampleLinearScan _ _ _
              (fun _ => conj eq_refl (conj eq_refl (conj eq_refl eq_refl)))
              eq_refl eq_refl eq_refl eq_refl)
    as (before & cands & after & He & _ & Hc & _ & _ & _ & Hne).
  exists before, cands, after. split; [exact He|].
  split; [|exact Hne]. rewrite (Hc eq_refl). reflexivity.
Defined.

Lemma BuildCall_defs_and_kills_witness :
  exists n s' evs,
    BuildCall arm64Target (exampleCompiler false true) exampleShared
      exAsyncCall exampleLinearScan = Some (n, s', evs)
    /\ BuildCall_dstCount exAsyncCall exAsyncCallFields = 1
    /\ exists before after,
        evs = before
              ++ [RefTypeDefWithKills exAsyncCall
                    (BuildCall_singleDstCandidates arm64Target exAsyncCall
                       exAsyncCallFields)
                    0x4003FFFF]
              ++ after.
Proof.
  do 3 eexists. split; [reflexivity|]. split; [reflexivity|].
  destruct (BuildCall_defs_and_kills arm64Target
              (exampleCompiler false true) exampleShared exAsyncCall
              exAsyncCallFields exampleLinearScan _ _ _ eq_refl eq_refl)
    as (_ & _ & _ & before & r & after & He & _ & _ & Hpos & _).
  exists before, after. rewrite He.
  destruct (Hpos ltac:(reflexivity)) as (_ & Hr).
  rewrite (Hr eq_refl). reflexivity.
Defined.

(** The spec's scenario: a void fast tail call with the stack cookie active
    gets the kill set alone, and its target avoids lr, ip0 and ip1. *)
Example BuildCall_void_fast_tail_call :
  exists s',
    BuildCall arm64Target (exampleCompiler true false) exampleShared
      exFastTailCall exampleLinearScan
    = Some (3, s',
            [RefTypeUse (exLeaf GT_LCL_VAR TYP_INT false 0)
               (genSingleTypeRegMask 0) 0;
             RefTypeUse (exLeaf GT_LCL_VAR TYP_INT false 1)
               (genSingleTypeRegMask 1) 0;
             RefTypeUse exCallTarget 0xFFFF 0;
             RefTypeKill exFastTailCall 0x4003FFFF])
    /\ Z.testbit 0xFFFF 30 = false
    /\ Z.testbit 0xFFFF 16 = false
    /\ Z.testbit 0xFFFF 17 = false.
Proof. eexists. repeat split; reflexivity. Qed.

Lemma BuildPutArgSplit_field_list_slots_witness :
  exists n s' evs,
    BuildPutArgSplit armTarget exampleShared exSplitArg exampleLinearScan
      = Some (n, s', evs)
    /\ n = 3
    /\ nth_error evs 1
       = Some (RefTypeUse (fst (hd (exSplitArg, TYP_INT) exSplitFields))
                 (genSingleTypeRegMask 3) 1)
    /\ nth_error evs 2
       = Some (RefTypeUse (exLeaf GT_LCL_VAR TYP_INT false 0) RBM_NONE 0)
    /\ Z.testbit (placedArgRegs s') 3 = true.
Proof.
  do 3 eexists. split; [reflexivity|].
  destruct (BuildPutArgSplit_field_list_slots armTarget exampleShared
              exSplitArg 2 exSplitSrc exSplitFields exampleLinearScan _ _ _
              eq_refl eq_refl eq_refl eq_refl eq_refl)
    as (_ & Hn & Hslots & _).
  split; [exact Hn|].
  destruct (Hslots 1%nat _ 1 eq_refl) as (H1 & _).
  destruct (H1 ltac:(reflexivity)) as (Huse & Hbit).
  destruct (Hslots 2%nat _ 0 eq_refl) as (_ & H2).
  split; [exact Huse|]. split; [|exact Hbit].
  apply H2. cbv. discriminate.
Defined.

(** C9, as stated, fails on [exHeapCopy32]: two vector registers are
    reserved although neither address is a local-frame address. *)
Lemma unroll_vector_registers_counterexample :
  ~ claimed_unroll_vector_rule arm64Target (exampleCompiler false false)
      exampleShared exHeapCopy32 exampleLinearScan.
Proof.
  intros H.
  destruct (H 32 _ _ _ _ _ eq_refl eq_refl eq_refl eq_refl) as (Hto & _).
  destruct (Hto eq_refl) as (_ & Habs). discriminate Habs.
Qed.

Lemma BuildBlockStore_unroll_copy_scratch_witness :
  exists n s' evs,
    BuildBlockStore arm64Target (exampleCompiler false false) exampleShared
      exHeapCopy32 exampleLinearScan = Some (n, s', evs)
    /\ internalCountOf IntRegisterType evs = 2
    /\ internalCountOf FloatRegisterType evs = 2.
Proof.
  do 3 eexists. split; [reflexivity|].
  exact (BuildBlockStore_unroll_copy_scratch arm64Target
           (exampleCompiler false false) exampleShared exHeapCopy32 32
           _ _ exampleLinearScan _ _ _ eq_refl eq_refl eq_refl eq_refl).
Defined.

Lemma BuildCall_async_mark_witness :
  exists n s' evs,
    BuildCall arm64Target (exampleCompiler false true) exampleShared
      exAsyncCall exampleLinearScan = Some (n, s', evs)
    /\ count isAsyncContinuationBusy evs = 1.
Proof.
  do 3 eexists. split; [reflexivity|].
  destruct (BuildCall_async_mark arm64Target (exampleCompiler false true)
              exampleShared exAsyncCall exAsyncCallFields exampleLinearScan
              _ _ _ eq_refl eq_refl) as (Hcount & _).
  exact Hcount.
Defined.

Lemma builders_keep_registers_witness :
  exists n s' evs,
    BuildBlockStore arm64Target (exampleCompiler false false) exampleShared
      exHeapCopy32 exampleLinearScan = Some (n, s', evs)
    /\ availableIntRegs s' = 0x5FFFFFFF
    /\ internalDefs s'
       = [(IntRegisterType, RBM_NONE); (IntRegisterType, RBM_NONE);
          (FloatRegisterType, 0xFFFF00FF00000000);
          (FloatRegisterType, 0xFFFF00FF00000000)].
Proof.
  do 3 eexists. split; [reflexivity|].
  destruct (builders_keep_registers arm64Target (exampleCompiler false false)
              exampleShared exHeapCopy32 exampleLinearScan _ _ _
              (or_intror (or_intror (or_intror (or_intror
                 (or_introl eq_refl))))))
    as (Hi & _ & Hd).
  split; [exact Hi|exact Hd].
Defined.

Lemma builders_keep_placement_state_witness :
  exists n s' evs,
    BuildIndir arm64Target exampleShared exIndexedLoad examplePlacedState
      = Some (n, s', evs)
    /\ placedArgRegs s' = 3 /\ numPlacedArgLocals s' = 2.
Proof.
  do 3 eexists. split; [reflexivity|].
  destruct (builders_keep_placement_state arm64Target
              (exampleCompiler false false) exampleShared exIndexedLoad
              examplePlacedState _ _ _ (or_introl eq_refl))
    as (Hp & Hn & _).
  split; [exact Hp|exact Hn].
Defined.

Lemma builders_keep_delay_free_flag_witness :
  exists n s' evs,
    BuildCall arm64Target (exampleCompiler true false) exampleShared
      exFastTailCall exampleLinearScan = Some (n, s', evs)
    /\ setInternalRegsDelayFree s' = false.
Proof.
  do 3 eexists. split; [reflexivity|].
  exact (builders_keep_delay_free_flag arm64Target (exampleCompiler true false)
           exampleShared exFastTailCall exampleLinearScan _ _ _
           (or_intror (or_introl eq_refl))).
Defined.

Lemma builders_create_only_their_records_witness :
  exists n s' evs,
    BuildBlockStore arm64Target (exampleCompiler false false) exampleShared
      exCpObj exampleLinearScan = Some (n, s', evs)
    /\ Forall (blockStoreRecord exCpObj) evs.
Proof.
  do 3 eexists. split; [reflexivity|].
  refine (proj1 (proj2 (proj2 (proj2 (proj2
            (builders_create_only_their_records arm64Target
               (exampleCompiler false false) exampleShared exCpObj
               exampleLinearScan _ _ _))))) _).
  reflexivity.
Defined.

Lemma scratch_registers_are_used_once_witness :
  exists n s' evs,
    BuildIndir arm64Target exampleShared exIndexedLoad exampleLinearScan
      = Some (n, s', evs)
    /\ filter isInternalUse evs
       = [RefTypeInternalUse IntRegisterType RBM_NONE false].
Proof.
  do 3 eexists. split; [reflexivity|].
  exact (scratch_registers_are_used_once arm64Target
           (exampleCompiler false false) exampleShared exIndexedLoad
           exampleLinearScan _ _ _ (or_introl eq_refl)).
Defined.

Lemma BuildIndir_scratch_uses_definition_witness :
  exists n s' evs,
    BuildIndir arm64Target exampleShared exIndexedLoad exampleLinearScan
      = Some (n, s', evs)
    /\ n = 2
    /\ exists k us,
        evs = repeat (RefTypeInternalDef IntRegisterType exIndexedLoad
                        RBM_NONE) k
              ++ map useRef us ++ internalUsesOf s'
              ++ [RefTypeDef exIndexedLoad RBM_NONE]
        /\ (k <= 1)%nat.
Proof.
  do 3 eexists. split; [reflexivity|]. split; [reflexivity|].
  destruct (BuildIndir_scratch_uses_definition arm64Target exampleShared
              exIndexedLoad exampleLinearScan _ _ _ eq_refl)
    as (addr & k & us & _ & _ & _ & He & _ & Hk & _).
  exists k, us. split; [exact He|]. apply Hk. reflexivity.
Defined.

Lemma BuildIndir_completes_iff_witness :
  exists n s' evs,
    BuildIndir arm64Target exampleShared exIndexedLoad exampleLinearScan
      = Some (n, s', evs).
Proof.
  apply (BuildIndir_completes_iff arm64Target exampleShared exIndexedLoad
           exampleLinearScan).
  - intros s1. discriminate.
  - split; [reflexivity|]. exists exIndexedLea. split; [reflexivity|].
    split; [discriminate|]. split; [discriminate|]. discriminate.
Defined.

Lemma BuildCast_float_to_int_scratch_witness :
  exists n s' evs,
    BuildCast armTarget exampleShared exFloatToIntCast exampleArmLinearScan
      = Some (n, s', evs)
    /\ setInternalRegsDelayFree s' = true
    /\ In (RefTypeInternalUse FloatRegisterType 0xFFFFFFFF0000 true) evs.
Proof.
  do 3 eexists. split; [reflexivity|].
  destruct (BuildCast_float_to_int_scratch armTarget exampleShared
              exFloatToIntCast exampleArmLinearScan _ _ _ eq_refl)
    as (castType & src & us & Hc & Hs & _ & _ & Hdelay & _).
  inversion Hc; subst castType. inversion Hs; subst src.
  exact (Hdelay eq_refl).
Defined.

Lemma BuildSelect_operand_order_witness :
  exists n s' evs,
    BuildSelect exampleShared exSelect exampleLinearScan = Some (n, s', evs)
    /\ s' = exampleLinearScan
    /\ n = 3.
Proof.
  do 3 eexists. split; [reflexivity|].
  destruct (BuildSelect_operand_order exampleShared exSelect exampleLinearScan
              _ _ _ eq_refl)
    as (op1 & op2 & nc & usc & n1 & us1 & n2 & us2 & _ & _ & Hs & _).
  split; [exact Hs|reflexivity].
Defined.

Lemma BuildCall_completes_iff_witness :
  BuildCall_assertions arm64Target (exampleCompiler true false) exFastTailCall
    exFastTailCallFields exampleLinearScan.
Proof.
  apply (BuildCall_completes_iff arm64Target (exampleCompiler true false)
           exampleShared exFastTailCall exFastTailCallFields exampleLinearScan
           eq_refl).
  - intros s1. discriminate.
  - do 3 eexists. reflexivity.
Defined.

Lemma BuildCall_scratch_registers_witness :
  exists n s' evs,
    BuildCall armTarget (exampleCompiler false false) exampleShared
      exStubTailCall exampleArmLinearScan = Some (n, s', evs)
    /\ reservedOf evs
       = [(IntRegisterType, 0x500F); (IntRegisterType, Z.shiftl 1 14)]
    /\ In (RefTypeInternalDef IntRegisterType exStubTailCall (Z.shiftl 1 14))
          evs.
Proof.
  do 3 eexists. split; [reflexivity|].
  destruct (BuildCall_scratch_registers armTarget (exampleCompiler false false)
              exampleShared exStubTailCall exStubTailCallFields
              exampleArmLinearScan _ _ _ eq_refl eq_refl)
    as (Hres & _ & _ & Hlr).
  split; [exact Hres|]. exact (Hlr eq_refl eq_refl eq_refl).
Defined.

Lemma BuildCall_arguments_then_target_witness :
  exists n s' evs,
    BuildCall arm64Target (exampleCompiler true false) exampleShared
      exFastTailCall examplePlacedState = Some (n, s', evs)
    /\ exists s1 argN argUses,
        BuildCallArgUses exampleShared exFastTailCall s1
          = Some (argN, argUses)
        /\ placedArgRegs s1 = 3
        /\ n = argN + 1.
Proof.
  do 3 eexists. split; [reflexivity|].
  destruct (BuildCall_arguments_then_target arm64Target
              (exampleCompiler true false) exampleShared exFastTailCall
              exFastTailCallFields examplePlacedState _ _ _ eq_refl eq_refl)
    as (s1 & argN & argUses & rest & Ha & _ & Hp & _ & _ & Hn & _).
  exists s1, argN, argUses. split; [exact Ha|]. split; [exact Hp|exact Hn].
Defined.

Lemma BuildCall_tls_get_addr_sequence_witness :
  exists n s' evs,
    BuildCall arm64Target nativeAotCompiler exampleShared exTlsCall
      exampleLinearScan = Some (n, s', evs)
    /\ count isFixedReg evs = 2
    /\ exists before after,
        evs = before
              ++ [RefTypeFixedReg REG_R0 (genSingleTypeRegMask REG_R0);
                  RefTypeFixedReg REG_R1 (genSingleTypeRegMask REG_R1);
                  RefTypeUse exTlsHandle (genSingleTypeRegMask REG_R2) 0]
              ++ after.
Proof.
  do 3 eexists. split; [reflexivity|].
  destruct (BuildCall_tls_get_addr_sequence arm64Target nativeAotCompiler
              exampleShared exTlsCall exTlsCallFields exampleLinearScan
              _ _ _ eq_refl eq_refl)
    as (Hcount & Hseq).
  split; [exact Hcount|].
  destruct (Hseq exTlsHandle eq_refl eq_refl)
    as (_ & _ & _ & before & after & He & _).
  exists before, after. exact He.
Defined.

Lemma BuildCall_marks_around_kills_witness :
  exists n s' evs,
    BuildCall arm64Target (exampleCompiler false true) exampleShared
      exAsyncCall exampleLinearScan = Some (n, s', evs)
    /\ exists before,
        evs = before
              ++ [RefAsyncContinuationBusy exAsyncCall]
              ++ [callDefsAndKills arm64Target (exampleCompiler false true)
                    exAsyncCall exAsyncCallFields]
              ++ []
        /\ count isSwiftErrorBusy evs = 0.
Proof.
  do 3 eexists. split; [reflexivity|].
  destruct (BuildCall_marks_around_kills arm64Target
              (exampleCompiler false true) exampleShared exAsyncCall
              exAsyncCallFields exampleLinearScan _ _ _ eq_refl eq_refl)
    as (before & He & _ & _ & _ & Hswift).
  exists before. split; [exact He|exact Hswift].
Defined.

Lemma BuildPutArgStk_field_list_source_witness :
  exists n s' evs,
    BuildPutArgStk arm64Target (exampleCompiler false false) exampleShared
      exStkFieldListArg exampleLinearScan = Some (n, s', evs)
    /\ n = 2
    /\ reservedOf evs = [(IntRegisterType, RBM_NONE)].
Proof.
  do 3 eexists. split; [reflexivity|].
  destruct (BuildPutArgStk_field_list_source arm64Target
              (exampleCompiler false false) exampleShared exStkFieldListArg
              exStkFieldList exStkFields exampleLinearScan _ _ _
              eq_refl eq_refl eq_refl eq_refl eq_refl)
    as (_ & Hn & _ & _ & Hres).
  split; [exact Hn|exact Hres].
Defined.

Lemma BuildPutArgStk_struct_copy_scratch_witness :
  exists n s' evs,
    BuildPutArgStk arm64Target (exampleCompiler false false) exampleShared
      exStkStructArg exampleLinearScan = Some (n, s', evs)
    /\ exists us,
        evs = [RefTypeInternalDef IntRegisterType exStkStructArg RBM_NONE;
               RefTypeInternalDef IntRegisterType exStkStructArg RBM_NONE]
              ++ map useRef us ++ internalUsesOf s'.
Proof.
  do 3 eexists. split; [reflexivity|].
  destruct (BuildPutArgStk_struct_copy_scratch arm64Target
              (exampleCompiler false false) exampleShared exStkStructArg
              exBlkSrc exampleLinearScan _ _ _
              eq_refl eq_refl eq_refl eq_refl)
    as (_ & us & He & _).
  exists us. exact He.
Defined.

Lemma BuildPutArgStk_scalar_source_witness :
  exists n s' evs,
    BuildPutArgStk arm64Target appleCompiler exampleShared exStkVector3Arg
      exampleLinearScan = Some (n, s', evs)
    /\ exists us,
        evs = map useRef us
              ++ [RefTypeInternalDef IntRegisterType exStkVector3Arg RBM_NONE]
              ++ internalUsesOf s'.
Proof.
  do 3 eexists. split; [reflexivity|].
  destruct (BuildPutArgStk_scalar_source arm64Target appleCompiler
              exampleShared exStkVector3Arg _ 12 exampleLinearScan _ _ _
              eq_refl eq_refl eq_refl eq_refl)
    as (_ & us & _ & He).
  exists us. exact He.
Defined.

Lemma BuildPutArgSplit_destination_registers_witness :
  exists n s' evs,
    BuildPutArgSplit armTarget exampleShared exSplitArg exampleArmLinearScan
      = Some (n, s', evs)
    /\ regNumByIdx s' = [(0, 2); (1, 3)]
    /\ exists argMask before,
        evs = before ++ [RefTypeDefs exSplitArg 2 argMask]
        /\ Z.testbit argMask 3 = true.
Proof.
  do 3 eexists. split; [reflexivity|].
  destruct (BuildPutArgSplit_destination_registers armTarget exampleShared
              exSplitArg 2 exampleArmLinearScan _ _ _ eq_refl eq_refl)
    as (argMask & before & He & _ & Hbits & Hidx & _).
  split; [exact Hidx|]. exists argMask, before. split; [exact He|].
  apply Hbits; [lia|]. exists 1. split; [lia|reflexivity].
Defined.

Lemma BuildPutArgSplit_struct_source_witness :
  exists n s' evs,
    BuildPutArgSplit armTarget exampleShared exSplitBlkArg
      exampleArmLinearScan = Some (n, s', evs)
    /\ exists argMask us,
        evs = [RefTypeInternalDef IntRegisterType exSplitBlkArg
                 (Z.land 0x57FF (Z.lnot argMask))]
              ++ map useRef us ++ internalUsesOf s'
              ++ [RefTypeDefs exSplitBlkArg 1 argMask]
        /\ Z.land (Z.land 0x57FF (Z.lnot argMask)) argMask = 0.
Proof.
  do 3 eexists. split; [reflexivity|].
  destruct (BuildPutArgSplit_struct_source armTarget exampleShared
              exSplitBlkArg 1 exBlkSrc exampleArmLinearScan _ _ _
              eq_refl eq_refl eq_refl eq_refl)
    as (_ & _ & _ & argMask & us & He & Hdisj & _).
  exists argMask, us. split; [exact He|exact Hdisj].
Defined.

Lemma BuildBlockStore_strategy_and_kill_witness :
  exists n s' evs,
    BuildBlockStore arm64Target (exampleCompiler false false) exampleShared
      exHeapCopy32 exampleLinearScan = Some (n, s', evs)
    /\ exists scratch uses,
        evs = scratch ++ uses ++ internalUsesOf s'
              ++ [RefTypeKill exHeapCopy32 0]
        /\ Forall (isScratchOf exHeapCopy32) scratch
        /\ Forall (fun r => isUse r = true) uses.
Proof.
  do 3 eexists. split; [reflexivity|].
  destruct (BuildBlockStore_strategy_and_kill arm64Target
              (exampleCompiler false false) exampleShared exHeapCopy32
              32 BlkOpKindUnroll false exampleLinearScan _ _ _
              eq_refl eq_refl)
    as (_ & _ & _ & scratch & uses & He & Hs & Hu).
  exists scratch, uses. split; [exact He|]. split; [exact Hs|exact Hu].
Defined.

Lemma BuildBlockStore_init_scratch_witness :
  exists n s' evs,
    BuildBlockStore arm64Target (exampleCompiler false false) exampleShared
      exInitBlock exampleLinearScan = Some (n, s', evs)
    /\ reservedOf evs
       = [(IntRegisterType, RBM_NONE);
          (FloatRegisterType, 0xFFFF00FF00000000)]
    /\ In (RefTypeUse (exLeaf GT_LCL_VAR TYP_INT false 1) RBM_NONE 0) evs.
Proof.
  do 3 eexists. split; [reflexivity|].
  destruct (BuildBlockStore_init_scratch arm64Target
              (exampleCompiler false false) exampleShared exInitBlock
              32 BlkOpKindUnroll _ _ exampleLinearScan _ _ _
              eq_refl eq_refl eq_refl eq_refl)
    as (_ & Hres & _ & _ & fill & Hfill & Huse).
  split; [exact Hres|]. inversion Hfill; subst fill. exact (Huse eq_refl).
Defined.

Lemma BuildBlockStore_completes_iff_witness :
  BuildBlockStore_assertions arm64Target exInitBlock.
Proof.
  apply (BuildBlockStore_completes_iff arm64Target
           (exampleCompiler false false) exampleShared exInitBlock
           exampleLinearScan).
  - intros base s1. discriminate.
  - do 3 eexists. reflexivity.
Defined.

Lemma BuildPutArgSplit_placement_grows_witness :
  exists n s' evs,
    BuildPutArgSplit armTarget exampleShared exSplitArg
      exampleArmPlacedState = Some (n, s', evs)
    /\ Z.testbit (placedArgRegs s') 1 = true
    /\ numPlacedArgLocals s' = 2.
Proof.
  do 3 eexists. split; [reflexivity|].
  destruct (BuildPutArgSplit_placement_grows armTarget exampleShared
              exSplitArg exampleArmPlacedState _ _ _ eq_refl)
    as (Hbits & Hn).
  split; [|exact Hn]. apply Hbits; [lia|reflexivity].
Defined.

Lemma BuildBlockStore_address_uses_witness :
  exists n s' evs,
    BuildBlockStore arm64Target (exampleCompiler false false) exampleShared
      exHeapCopy32 exampleLinearScan = Some (n, s', evs)
    /\ n = 2
    /\ exists scratch,
        evs = scratch
              ++ [RefTypeUse (exLeaf GT_LCL_VAR TYP_BYREF false 0) RBM_NONE 0]
              ++ [RefTypeUse (exLeaf GT_LCL_VAR TYP_BYREF false 1) RBM_NONE 0]
              ++ internalUsesOf s' ++ [RefTypeKill exHeapCopy32 0].
Proof.
  do 3 eexists. split; [reflexivity|].
  destruct (BuildBlockStore_address_uses arm64Target
              (exampleCompiler false false) exampleShared exHeapCopy32
              32 BlkOpKindUnroll false _ _ exampleLinearScan _ _ _
              eq_refl eq_refl eq_refl eq_refl ltac:(discriminate))
    as (scratch & dstUses & srcUses & He & _ & Hd & _ & Hs & Hn).
  split.
  - apply Hn; [reflexivity|]. intros sa Hsa. inversion Hsa. reflexivity.
  - exists scratch. rewrite He, (Hd eq_refl).
    destruct Hs as (Hs & _). rewrite (Hs eq_refl). reflexivity.
Defined.

Lemma BuildCast_completes_iff_witness :
  BuildCast_assertions armTarget exFloatToIntCast.
Proof.
  apply (BuildCast_completes_iff armTarget exampleShared exFloatToIntCast
           exampleArmLinearScan).
  - intros s1. discriminate.
  - do 3 eexists. reflexivity.
Defined.

Lemma BuildSelect_completes_iff_witness :
  exists n s' evs,
    BuildSelect exampleShared exSelect exampleLinearScan = Some (n, s', evs).
Proof.
  apply (BuildSelect_completes_iff exampleShared exSelect exampleLinearScan).
  - intros t [Ht|[Ht|Ht]] s1; inversion Ht; subst t; discriminate.
  - split; [left; reflexivity|]. split; [discriminate|].
    split; discriminate.
Defined.

Lemma BuildPutArgStk_completes_iff_witness :
  exists n s' evs,
    BuildPutArgStk arm64Target (exampleCompiler false false) exampleShared
      exStkStructArg exampleLinearScan = Some (n, s', evs).
Proof.
  apply (BuildPutArgStk_completes_iff arm64Target (exampleCompiler false false)
           exampleShared exStkStructArg exampleLinearScan).
  - intros src t Hsrc Ht s1. inversion Hsrc; subst src.
    destruct Ht as [->|Ht]; [|inversion Ht; subst t]; discriminate.
  - split; [discriminate|]. split; [reflexivity|].
    exists exBlkSrc. split; [reflexivity|]. simpl.
    split; [reflexivity|]. split; discriminate.
Defined.

Lemma BuildPutArgSplit_completes_iff_witness :
  BuildPutArgSplit_assertions armTarget exSplitArg exampleArmLinearScan.
Proof.
  apply (BuildPutArgSplit_completes_iff armTarget exampleShared exSplitArg
           exampleArmLinearScan).
  - intros src addr Hsrc Haddr. inversion Hsrc; subst src.
    discriminate Haddr.
  - do 3 eexists. reflexivity.
Defined.
